(** * Grading engine: output judge, score distribution, condition checker
      and code runner.

    A shallow embedding of the grading core of the repository:

    - [Judge]    : app/submission/services/problem_Normalization.py
    - [Scores]   : app/submission/services/condition_utils.py
    - [Feedback] : the aggregation tail of
                   app/submission/services/ai_feedback.py
    - [Checker]  : app/submission/services/problem_condition_checker.py
    - [Runner]   : app/submission/services/code_compiler.py

    Python [str] values are lists of Unicode code points, exceptions are
    an explicit error type threaded through a small monad, and the
    operating system (process table, clock, installed binaries) is an
    explicit environment the runner is run against. *)

From Stdlib Require Import List Bool Arith NArith ZArith QArith Qround Qabs.
From Stdlib Require Import Lia Lqa String Ascii.
Import ListNotations.

Set Implicit Arguments.
Close Scope Q_scope.

(* ================================================================== *)
(** * Python strings *)
(* ================================================================== *)

Module PyStr.

Local Open Scope N_scope.

(** A code point. *)
Definition char := N.

(** A Python [str]. *)
Definition str := list char.

(** ASCII literal of the source as a [str]. *)
Definition lit (s : string) : str :=
  List.map N_of_ascii (list_ascii_of_string s).

Definition sp : char := 32%N.
Definition nl : char := 10%N.
Definition comma : char := 44%N.

Definition in_range (lo hi c : char) : bool := (lo <=? c) && (c <=? hi).

(** [str.isspace] on one code point, which is also the class [\s] of a
    [str] pattern: the Unicode white space table of CPython. *)
Definition isspace (c : char) : bool :=
  in_range 9 13 c || in_range 28 32 c || (c =? 133)%N || (c =? 160)%N
  || (c =? 5760)%N || in_range 8192 8202 c || (c =? 8232)%N
  || (c =? 8233)%N || (c =? 8239)%N || (c =? 8287)%N || (c =? 12288)%N.

(** The class [[\[\]\(\)\{\}]]. *)
Definition isbracket (c : char) : bool :=
  (c =? 91)%N || (c =? 93)%N || (c =? 40)%N || (c =? 41)%N
  || (c =? 123)%N || (c =? 125)%N.

Definition iscomma (c : char) : bool := (c =? comma)%N.

Definition isdigit (c : char) : bool := in_range 48 57 c.

Fixpoint dropWhile (p : char -> bool) (s : str) : str :=
  match s with
  | [] => []
  | c :: s' => if p c then dropWhile p s' else s
  end.

Fixpoint takeWhile (p : char -> bool) (s : str) : str :=
  match s with
  | [] => []
  | c :: s' => if p c then c :: takeWhile p s' else []
  end.

Definition lstrip (s : str) : str := dropWhile isspace s.

Fixpoint rstrip (s : str) : str :=
  match s with
  | [] => []
  | c :: s' =>
      match rstrip s' with
      | [] => if isspace c then [] else [c]
      | r => c :: r
      end
  end.

(** [s.strip()] *)
Definition strip (s : str) : str := rstrip (lstrip s).

(** [s.replace(a, b)] for one-character [a] and [b]. *)
Definition replace1 (a b : char) (s : str) : str :=
  List.map (fun c => if (c =? a)%N then b else c) s.

Fixpoint str_eqb (a b : str) : bool :=
  match a, b with
  | [], [] => true
  | x :: a', y :: b' => (x =? y)%N && str_eqb a' b'
  | _, _ => false
  end.

(** [t] is a prefix of [s]; the rest of [s] when it is. *)
Fixpoint strip_prefix (t s : str) : option str :=
  match t, s with
  | [], _ => Some s
  | x :: t', y :: s' => if (x =? y)%N then strip_prefix t' s' else None
  | _ :: _, [] => None
  end.

(** [t in s] *)
Fixpoint contains (t s : str) : bool :=
  match strip_prefix t s with
  | Some _ => true
  | None => match s with
            | [] => false
            | _ :: s' => contains t s'
            end
  end.

(** The number a run of decimal digits denotes, after [acc]. *)
Fixpoint dec_value (acc : N) (s : str) : N :=
  match s with
  | [] => acc
  | c :: s' => dec_value (acc * 10 + (c - 48)) s'
  end.

(** [x or ""] for an optional string. *)
Definition or_empty (x : option str) : str :=
  match x with Some s => s | None => [] end.

End PyStr.

Import PyStr.

(* ================================================================== *)
(** * Exceptions *)
(* ================================================================== *)

(** The exception classes the modelled code meets; all of them derive
    from [Exception].  The payload is [str(e)]. *)
Inductive exn :=
| TimeoutExpired
| AttributeError (msg : str)
| ReError (msg : str)
| IndexError (msg : str)
| OverflowError (msg : str)
| OtherError (msg : str).

Definition str_of_exn (e : exn) : str :=
  match e with
  | TimeoutExpired => lit "Command timed out"
  | AttributeError m | ReError m | IndexError m | OverflowError m
  | OtherError m => m
  end.

(** [isinstance(e, re.error)] *)
Definition is_re_error (e : exn) : bool :=
  match e with ReError _ => true | _ => false end.

Inductive result (A : Type) :=
| Ok (a : A)
| Raise (e : exn).

Arguments Ok {A} a.
Arguments Raise {A} e.

Definition rbind {A B} (m : result A) (f : A -> result B) : result B :=
  match m with
  | Ok a => f a
  | Raise e => Raise e
  end.

(** [try: m  except <h matches>: ...]; [h e = None] lets [e] through. *)
Definition try_except {A} (m : result A) (h : exn -> option (result A))
  : result A :=
  match m with
  | Ok a => Ok a
  | Raise e => match h e with
               | Some r => r
               | None => Raise e
               end
  end.

(** [try: m  finally: f]: an exception of [f] replaces the outcome
    of [m]. *)
Definition try_finally {A} (m : result A) (f : result unit) : result A :=
  match f with
  | Ok _ => m
  | Raise e => Raise e
  end.

Declare Scope py_scope.
Delimit Scope py_scope with py.
Notation "x <- m ;; k" := (rbind m (fun x => k))
  (at level 61, m at next level, right associativity) : py_scope.

(* ================================================================== *)
(** * Regular expressions *)
(* ================================================================== *)

(** The fragment of Python's [re] that the repository's own patterns
    use: character classes, greedy repetition of a class, an optional
    sub-pattern, sequencing, numbered capturing groups and back
    references.  Matching is by backtracking, first match wins. *)
Module Re.

Inductive regex :=
| Eps
| Chr (p : char -> bool)          (* one character of a class *)
| Star (p : char -> bool)         (* class*, greedy *)
| Plus (p : char -> bool)         (* class+, greedy *)
| Opt (r : regex)                 (* (?:r)?, greedy *)
| Seq (r1 r2 : regex)
| Group (i : nat) (r : regex)     (* the capturing group number i *)
| Backref (i : nat)               (* \i *)
| Eos.                            (* $ without MULTILINE *)

(** Captured groups, most recent first. *)
Definition caps := list (nat * str).

Fixpoint group (i : nat) (g : caps) : option str :=
  match g with
  | [] => None
  | (j, t) :: g' => if Nat.eqb i j then Some t else group i g'
  end.

(** What [re.compile] rejects in this fragment: a back reference to a
    group that is not closed where the reference stands.  [closed] lists
    the groups closed so far. *)
Fixpoint check (r : regex) (closed : list nat) : option (list nat) :=
  match r with
  | Eps | Chr _ | Star _ | Plus _ | Eos => Some closed
  | Opt r1 => check r1 closed
  | Seq r1 r2 =>
      match check r1 closed with
      | Some c1 => check r2 c1
      | None => None
      end
  | Group i r1 =>
      match check r1 closed with
      | Some c1 => Some (i :: c1)
      | None => None
      end
  | Backref i => if existsb (Nat.eqb i) closed then Some closed else None
  end.

Definition compile (r : regex) : result regex :=
  match check r [] with
  | Some _ => Ok r
  | None => Raise (ReError (lit "invalid group reference"))
  end.

Fixpoint star {A} (p : char -> bool) (k : str -> option A) (s : str)
  : option A :=
  match s with
  | [] => k []
  | c :: s' =>
      if p c then
        match star p k s' with
        | Some a => Some a
        | None => k s
        end
      else k s
  end.

(** [rmatch r g s k]: match [r] at the start of [s], then hand the
    captures and the rest of the input to the continuation [k];
    [None] makes the matcher backtrack. *)
Fixpoint rmatch {A} (r : regex) (g : caps) (s : str)
  (k : caps -> str -> option A) : option A :=
  match r with
  | Eps => k g s
  | Chr p =>
      match s with
      | c :: s' => if p c then k g s' else None
      | [] => None
      end
  | Star p => star p (k g) s
  | Plus p =>
      match s with
      | c :: s' => if p c then star p (k g) s' else None
      | [] => None
      end
  | Opt r1 =>
      match rmatch r1 g s k with
      | Some a => Some a
      | None => k g s
      end
  | Seq r1 r2 => rmatch r1 g s (fun g1 s1 => rmatch r2 g1 s1 k)
  | Group i r1 =>
      rmatch r1 g s
        (fun g1 s1 =>
           k ((i, firstn (List.length s - List.length s1) s) :: g1) s1)
  | Backref i =>
      match group i g with
      | Some t =>
          match strip_prefix t s with
          | Some s1 => k g s1
          | None => None
          end
      | None => None
      end
  | Eos =>
      match s with
      | [] => k g s
      | [c] => if (c =? nl)%N then k g s else None
      | _ => None
      end
  end.

(** A match anchored at the start of [s]: the captures and the
    unconsumed rest. *)
Definition match_at (r : regex) (s : str) : option (caps * str) :=
  rmatch r [] s (fun g rest => Some (g, rest)).

(** [pattern.search(s)]: the leftmost match. *)
Fixpoint search_from (r : regex) (s : str) : option (caps * str) :=
  match match_at r s with
  | Some m => Some m
  | None =>
      match s with
      | [] => None
      | _ :: s' => search_from r s'
      end
  end.

(** [re.search(pattern, s)]: compiles first, so an invalid pattern
    raises [re.error] whatever [s] is. *)
Definition search (r : regex) (s : str) : result (option caps) :=
  (p <- compile r ;;
   Ok (option_map fst (search_from p s)))%py.

(** [re.sub]: leftmost non-overlapping matches are replaced, the text
    between them is copied.  After an empty match the scan moves on by
    one character. *)
Fixpoint sub_fuel (n : nat) (r : regex) (repl : caps -> str) (s : str)
  : str :=
  match n with
  | O => s
  | S n' =>
      let step :=
        match s with
        | [] => []
        | c :: s' => c :: sub_fuel n' r repl s'
        end in
      match match_at r s with
      | Some (g, rest) =>
          if Nat.ltb (List.length rest) (List.length s)
          then repl g ++ sub_fuel n' r repl rest
          else repl g ++ step
      | None => step
      end
  end.

Definition sub (r : regex) (repl : caps -> str) (s : str) : str :=
  sub_fuel (S (List.length s)) r repl s.

End Re.

(* ================================================================== *)
(** * Output judge (problem_Normalization.py) *)
(* ================================================================== *)

(** [re.compile] and [Pattern.fullmatch] on a pattern supplied at run
    time (the expected output of a test case).  The pattern syntax is
    Python's, not this repository's, so the library is a parameter.
    [re_compile text dotall multiline] yields a compiled pattern or
    raises: [re.error] on a malformed text, and in CPython also
    [OverflowError] on a repetition bound of [MAXREPEAT] or more. *)
Record re_lib := {
  pattern : Type;
  re_compile : str -> bool -> bool -> result pattern;
  re_fullmatch : pattern -> str -> bool   (* [fullmatch(..) is not None] *)
}.

(** [sre_constants.MAXREPEAT] *)
Definition MAXREPEAT : N := 4294967295%N.

(** The number between the first brace pair of a pattern text. *)
Definition repeat_bound (text : str) : option N :=
  match dropWhile (fun ch => negb (ch =? 123)%N) text with
  | [] => None
  | _ :: rest =>
      match takeWhile isdigit rest, dropWhile isdigit rest with
      | (_ :: _) as ds, close :: _ =>
          if (close =? 125)%N then Some (dec_value 0 ds) else None
      | _, _ => None
      end
  end.

(** A small instance of the library, for examples: a text is a literal
    pattern, except that a repetition bound of [MAXREPEAT] or more
    overflows as in CPython and a lone trailing backslash is rejected. *)
Definition literal_re : re_lib :=
  {| pattern := str;
     re_compile := fun text _ _ =>
       match repeat_bound text with
       | Some n =>
           if (MAXREPEAT <=? n)%N
           then Raise (OverflowError (lit "the repetition number is too large"))
           else Ok text
       | None =>
           match rev text with
           | 92%N :: _ => Raise (ReError (lit "bad escape (end of pattern)"))
           | _ => Ok text
           end
       end;
     re_fullmatch := fun p s => str_eqb p s |}.

Module Judge.

(** [RatingMode] is a [str] enumeration: a member equals the plain
    string that is its value, so the mode argument of [compare] is that
    string. *)
Definition RatingMode := str.
Definition HARD : RatingMode := lit "hard".
Definition SPACE : RatingMode := lit "space".
Definition REGEX : RatingMode := lit "regex".
Definition NONE : RatingMode := lit "none".

(** [\s+] *)
Definition ws_run : Re.regex := Re.Plus isspace.

(** [\s*([\[\]\(\)\{\}])\s*] *)
Definition around_bracket : Re.regex :=
  Re.Seq (Re.Star isspace)
         (Re.Seq (Re.Group 1 (Re.Chr isbracket)) (Re.Star isspace)).

(** [,\s*] *)
Definition after_comma : Re.regex :=
  Re.Seq (Re.Chr iscomma) (Re.Star isspace).

(** The replacement template [\1]. *)
Definition group1 (g : Re.caps) : str :=
  match Re.group 1 g with Some t => t | None => [] end.

(** [re.sub(r'\s+', ' ', text)] *)
Definition collapse (s : str) : str := Re.sub ws_run (fun _ => [sp]) s.

(** [re.sub(r'\s*([\[\]\(\)\{\}])\s*', r'\1', text)] *)
Definition debracket (s : str) : str := Re.sub around_bracket group1 s.

(** [re.sub(r',\s*', ',', text)] *)
Definition decomma (s : str) : str := Re.sub after_comma (fun _ => [comma]) s.

Definition normalize_space (text : option str) : str :=
  let text := or_empty text in
  let text := replace1 nl sp text in
  let text := collapse text in
  let text := debracket text in
  let text := decomma text in
  strip text.

Definition compare_hard (output expected : option str) : bool :=
  str_eqb (strip (or_empty output)) (strip (or_empty expected)).

Definition compare_space (output expected : option str) : bool :=
  let normalized_output := normalize_space output in
  let normalized_expected := normalize_space expected in
  str_eqb normalized_output normalized_expected.

Definition compare_regex (L : re_lib) (output expected : option str)
  : result bool :=
  try_except
    (p <- re_compile L (strip (or_empty expected)) true true ;;
     Ok (re_fullmatch L p (strip (or_empty output))))%py
    (fun e => match e with
              | ReError _ => Some (Ok false)
              | _ => None
              end).

Definition compare (L : re_lib) (output expected : option str)
  (rating_mode : str) : result bool :=
  if str_eqb rating_mode HARD then Ok (compare_hard output expected)
  else if str_eqb rating_mode SPACE then Ok (compare_space output expected)
  else if str_eqb rating_mode REGEX then compare_regex L output expected
  else if str_eqb rating_mode NONE then Ok true
  else Ok false.

(** ** Vocabulary of the statements about normalised texts *)

(** No two neighbours of [s] are a [bad] pair. *)
Fixpoint no_adj (bad : char -> char -> bool) (s : str) : Prop :=
  match s with
  | [] => True
  | x :: t =>
      match t with
      | [] => True
      | y :: _ => bad x y = false
      end /\ no_adj bad t
  end.

(** [s] does not start with a character of the class [p]. *)
Definition head_ok (p : char -> bool) (s : str) : Prop :=
  match s with
  | [] => True
  | x :: _ => p x = false
  end.

(** The only white space in [s] is the plain space. *)
Definition plain (s : str) : Prop :=
  Forall (fun x => isspace x = true -> x = sp) s.

Definition ws_ws (x y : char) : bool := isspace x && isspace y.

Definition ws_br (x y : char) : bool :=
  (isspace x && isbracket y) || (isbracket x && isspace y).

Definition comma_ws (x y : char) : bool := iscomma x && isspace y.

(** What [normalize_space] produces: single plain spaces, none next to
    a bracket, none after a comma, none at either end. *)
Definition normal (s : str) : Prop :=
  plain s /\ no_adj ws_ws s /\ no_adj ws_br s /\ no_adj comma_ws s
  /\ lstrip s = s /\ rstrip s = s.

End Judge.

(* ================================================================== *)
(** * Score distribution (condition_utils.py) *)
(* ================================================================== *)

(** Python floats are taken as exact rationals: [round(x, 2)] is rounding
    to the nearest hundredth, ties to the even hundredth, and the
    literal [0.01] is one hundredth. *)
Module Num.

Local Open Scope Q_scope.

(** Nearest integer, ties to even. *)
Definition round_half_even (x : Q) : Z :=
  let f := Qfloor x in
  match Qcompare (x - inject_Z f) (1 # 2) with
  | Lt => f
  | Gt => (f + 1)%Z
  | Eq => if Z.even f then f else (f + 1)%Z
  end.

(** [round(x, 2)] *)
Definition round2 (x : Q) : Q :=
  Qred (round_half_even (x * 100) # 100).


(** [sum(xs)] *)
Definition qsum (xs : list Q) : Q := fold_left Qplus xs 0.

End Num.

Module Dict.

(** A condition-check dictionary.  The keys the scoring code reads are
    optional ([it.get(key, default)]); the other keys (condition,
    description, check_type, feedback) are copied along untouched and
    are read by none of the functions below. *)
Record cond_dict := {
  is_required : option bool;
  passed : option bool;
  weight : option Q;
  score : option Q
}.

(** [it.get(key, default)] *)
Definition get {A} (field : option A) (default : A) : A :=
  match field with
  | Some v => v
  | None => default
  end.

(** [{**it, "score": v}] *)
Definition with_score (it : cond_dict) (v : Q) : cond_dict :=
  {| is_required := is_required it;
     passed := passed it;
     weight := weight it;
     score := Some v |}.

End Dict.

Module Scores.

Import Num Dict.
Local Open Scope Q_scope.

(** [float(max(0.0, it.get("weight", 1.0)))] *)
Definition clamped_weight (it : cond_dict) : Q :=
  let w := get (weight it) 1 in
  if Qle_bool w 0 then 0 else w.

(** [it.get("passed")] as a truth value. *)
Definition is_passed (it : cond_dict) : bool := get (passed it) false.

(** [sum(...) or 1.0] over the clamped weights. *)
Definition weights_sum (items : list cond_dict) : Q :=
  let s := qsum (List.map clamped_weight items) in
  if Qeq_bool s 0 then 1 else s.

Definition per_unit (items : list cond_dict) (total_points : Q) : Q :=
  total_points / weights_sum items.

(** [allocated]: what an item can earn at most. *)
Definition allocated (pu : Q) (it : cond_dict) : Q :=
  round2 (pu * clamped_weight it).

(** The first loop: every item gets its score, the earned sum
    accumulates from left to right. *)
Fixpoint allocate (pu : Q) (items : list cond_dict) (earned_sum : Q)
  : list cond_dict * Q :=
  match items with
  | [] => ([], earned_sum)
  | it :: rest =>
      let got := round2 (if is_passed it then allocated pu it else 0) in
      let '(out, total) := allocate pu rest (earned_sum + got) in
      (with_score it got :: out, total)
  end.

(** The second loop: the first passing item takes the gap; [None] when
    the loop ends without a [break]. *)
Fixpoint bump_first_passed (gap : Q) (out : list cond_dict)
  : option (list cond_dict) :=
  match out with
  | [] => None
  | it :: rest =>
      if is_passed it
      then Some (with_score it (round2 (get (score it) 0 + gap)) :: rest)
      else match bump_first_passed gap rest with
           | Some rest' => Some (it :: rest')
           | None => None
           end
  end.

Definition distribute_condition_scores (items : list cond_dict)
  (total_points : Q) : list cond_dict * Q :=
  match items with
  | [] => ([], 0)
  | _ =>
      let '(out, earned_sum) :=
        allocate (per_unit items total_points) items 0 in
      let gap := round2 (total_points - earned_sum) in
      if Qle_bool (1 # 100) (Qabs gap) then
        match bump_first_passed gap out with
        | Some out' => (out', round2 (earned_sum + gap))
        | None => (out, earned_sum)
        end
      else (out, earned_sum)
  end.

(** The dictionary [{"passed": p, "weight": w}]. *)
Definition item (p : bool) (w : Q) : cond_dict :=
  {| is_required := None; passed := Some p; weight := Some w;
     score := None |}.



End Scores.

(* ================================================================== *)
(** * Aggregation (ai_feedback.py, generate_for_problem_type) *)
(* ================================================================== *)

Module Feedback.

Import Num Dict.
Local Open Scope Q_scope.

Inductive status := success | fail.

Record outcome := {
  percent : Q;
  total_score : Q;                       (* key "score" *)
  ai_feedback : str;
  graded_by : str;
  condition_results : list cond_dict;
  condition_points_earned : Q;
  all_status : status
}.

(** [_success_rate] over the [passed] flags of the test results. *)
Definition _success_rate (test_results : list bool) : Q :=
  match test_results with
  | [] => 0
  | _ =>
      let total := List.length test_results in
      let n := List.length (List.filter (fun b => b) test_results) in
      (inject_Z (Z.of_nat n) / inject_Z (Z.of_nat total)) * 100
  end.

(** [all((not it.get("is_required", True)) or it.get("passed", False))] *)
Definition all_required_ok (cond_results : list cond_dict) : bool :=
  forallb (fun it => negb (get (is_required it) true)
                     || get (passed it) false) cond_results.

(** Steps 2 and 3 of [generate_for_problem_type].  Step 1 (the percent
    of the problem type and the text of the language model) is its
    input here: [pct], [fb] and [by_]. *)
Definition generate_for_problem_type (pct : Q) (fb by_ : str)
  (max_points : Q) (condition_check_results : option (list cond_dict))
  : outcome :=
  let cond_results := get condition_check_results [] in
  let sc := round2 (pct / 100 * max_points) in
  let cond_sum :=
    round2 (qsum (List.map (fun it => get (score it) 0) cond_results)) in
  {| percent := pct;
     total_score := sc;
     ai_feedback := fb;
     graded_by := by_;
     condition_results := cond_results;
     condition_points_earned := cond_sum;
     all_status := if all_required_ok cond_results then success else fail |}.

End Feedback.

(* ================================================================== *)
(** * Rule-based condition checker (problem_condition_checker.py) *)
(* ================================================================== *)

Module Checker.

Import Num.
Local Open Scope N_scope.

(** [str.lower] on the ASCII letters; other code points are left as they
    are.  The keywords searched for below are ASCII words. *)
Definition lower_char (c : char) : char :=
  if in_range 65 90 c then (c + 32)%N else c.

Definition lower (s : str) : str := List.map lower_char s.

(** [s.split()]: the maximal runs of non-space characters; [cur] is the
    run being read, reversed. *)
Fixpoint split_ws (cur : str) (s : str) : list str :=
  match s with
  | [] => match cur with [] => [] | _ => [rev cur] end
  | c :: s' =>
      if isspace c
      then match cur with
           | [] => split_ws [] s'
           | _ => rev cur :: split_ws [] s'
           end
      else split_ws (c :: cur) s'
  end.

Definition split (s : str) : list str := split_ws [] s.

(** The text after the last occurrence of [sep], if [sep] occurs. *)
Fixpoint after_last (sep s : str) : option str :=
  match s with
  | [] => strip_prefix sep []
  | _ :: s' =>
      match after_last sep s' with
      | Some r => Some r
      | None => strip_prefix sep s
      end
  end.

(** [s.split(sep)[-1]] for a separator that cannot overlap itself. *)
Definition split_last (sep s : str) : str :=
  match after_last sep s with
  | Some r => r
  | None => s
  end.

(** [s.isdigit()] *)
Definition str_isdigit (s : str) : bool :=
  match s with
  | [] => false
  | _ => forallb isdigit s
  end.

(** [float(s)] on the texts the pattern [\d+(?:\.\d+)?] matches. *)
Definition py_float (s : str) : option Q :=
  let ip := takeWhile isdigit s in
  let rest := dropWhile isdigit s in
  match ip, rest with
  | [], _ => None
  | _, [] => Some (inject_Z (Z.of_N (dec_value 0 ip)))
  | _, dot :: fr =>
      if (dot =? 46)%N && str_isdigit fr
      then Some (Qplus (inject_Z (Z.of_N (dec_value 0 ip)))
                   (Qmake (Z.of_N (dec_value 0 fr))
                          (Pos.pow 10 (Pos.of_nat (List.length fr)))))
      else None
  end.

Definition chr (c : char) : Re.regex := Re.Chr (N.eqb c).

Definition seqs (rs : list Re.regex) : Re.regex :=
  fold_right Re.Seq Re.Eps rs.

(** [\w] on ASCII. *)
Definition isword (c : char) : bool :=
  in_range 48 57 c || in_range 65 90 c || in_range 97 122 c || (c =? 95)%N.

Definition any_char (c : char) : bool := true.
Definition not_newline (c : char) : bool := negb (c =? nl)%N.
Definition not_rparen (c : char) : bool := negb (c =? 41)%N.

(** [def\s+\w+\s*\([^)]*\)\s*:.*\1\s*\(], read with DOTALL.  The
    parentheses of the pattern are all escaped: it has no group. *)
Definition recursion_pattern : Re.regex :=
  seqs [chr 100; chr 101; chr 102; Re.Plus isspace; Re.Plus isword;
        Re.Star isspace; chr 40; Re.Star not_rparen; chr 41;
        Re.Star isspace; chr 58; Re.Star any_char; Re.Backref 1;
        Re.Star isspace; chr 40].

(** [(\d+(?:\.\d+)?)] *)
Definition number_pattern : Re.regex :=
  Re.Group 1 (Re.Seq (Re.Plus isdigit)
                     (Re.Opt (Re.Seq (chr 46) (Re.Plus isdigit)))).

(** [^\[.*\]$], used with [re.match], which anchors at the start. *)
Definition array_pattern : Re.regex :=
  seqs [chr 91; Re.Star not_newline; chr 93; Re.Eos].

Inductive check_type_t :=
| code_analysis | output_validation | performance | gpt_check.

Record ProblemConditionCheck := {
  condition : str;
  is_required : bool;
  check_type : check_type_t;
  description : option str
}.

(** The feedback sentence of a result: which sentence, and the values
    formatted into it. *)
Inductive feedback_msg :=
| FbForLoop (ok : bool)
| FbWhileLoop (ok : bool)
| FbFunction (ok : bool)
| FbRecursion (ok : bool)
| FbLinear (ok : bool)
| FbConstant (ok : bool)
| FbComplexityUnknown
| FbKeywords (cond : str) (ok : bool)
| FbExact (ok : bool)
| FbContains (target : str) (ok : bool)
| FbArray (ok : bool)
| FbNumber (ok : bool)
| FbFormatUnknown
| FbOutputUnknown
| FbTime (execution_time time_limit : Q) (ok : bool)
| FbPerfUnknown
| FbUnchecked.

Record ConditionCheckResult := {
  r_condition : str;
  r_is_required : bool;
  r_check_type : check_type_t;
  r_description : option str;
  r_passed : bool;
  r_feedback : feedback_msg
}.

Definition mk_result (c : ProblemConditionCheck) (ok : bool)
  (fb : feedback_msg) : ConditionCheckResult :=
  {| r_condition := condition c;
     r_is_required := is_required c;
     r_check_type := check_type c;
     r_description := description c;
     r_passed := ok;
     r_feedback := fb |}.

(** [m.group(1)] on the value of [re.search]; on [None] the attribute
    lookup raises. *)
Definition group_of_search (m : option Re.caps) (i : nat) : result str :=
  match m with
  | None =>
      Raise (AttributeError
               (lit "'NoneType' object has no attribute 'group'"))
  | Some g =>
      match Re.group i g with
      | Some t => Ok t
      | None => Raise (IndexError (lit "no such group"))
      end
  end.

Definition is_some {A} (o : option A) : bool :=
  match o with Some _ => true | None => false end.

Definition check_code_analysis_condition (c : ProblemConditionCheck)
  (code : str) : result ConditionCheckResult :=
  let condition_text := lower (condition c) in
  let code_lower := lower code in
  if contains (lit "for loop") condition_text then
    let ok := contains (lit "for ") code_lower in
    Ok (mk_result c ok (FbForLoop ok))
  else if contains (lit "while loop") condition_text then
    let ok := contains (lit "while ") code_lower in
    Ok (mk_result c ok (FbWhileLoop ok))
  else if contains (lit "function") condition_text then
    let ok := contains (lit "def ") code_lower
              || contains (lit "function") code_lower in
    Ok (mk_result c ok (FbFunction ok))
  else if contains (lit "recursion") condition_text then
    (m <- Re.search recursion_pattern code ;;
     let ok := is_some m in
     Ok (mk_result c ok (FbRecursion ok)))%py
  else if contains (lit "time complexity") condition_text then
    if contains (lit "o(n)") condition_text then
      let ok := contains (lit "for ") code_lower
                && contains (lit "in ") code_lower in
      Ok (mk_result c ok (FbLinear ok))
    else if contains (lit "o(1)") condition_text then
      let ok := negb (contains (lit "for ") code_lower)
                && negb (contains (lit "while ") code_lower) in
      Ok (mk_result c ok (FbConstant ok))
    else Ok (mk_result c true FbComplexityUnknown)
  else
    let keywords := split condition_text in
    let ok := forallb (fun keyword => contains keyword code_lower) keywords in
    Ok (mk_result c ok (FbKeywords (condition c) ok)).

Definition check_output_validation_condition (c : ProblemConditionCheck)
  (output expected : str) : result ConditionCheckResult :=
  let condition_text := lower (condition c) in
  if contains (lit "exact match") condition_text then
    let ok := str_eqb (strip output) (strip expected) in
    Ok (mk_result c ok (FbExact ok))
  else if contains (lit "contains") condition_text then
    let target := strip (split_last (lit "contains") condition_text) in
    let ok := contains target output in
    Ok (mk_result c ok (FbContains target ok))
  else if contains (lit "format") condition_text then
    if contains (lit "array") condition_text then
      let ok := is_some (Re.match_at array_pattern (strip output)) in
      Ok (mk_result c ok (FbArray ok))
    else if contains (lit "number") condition_text then
      let ok := str_isdigit (strip output) in
      Ok (mk_result c ok (FbNumber ok))
    else Ok (mk_result c true FbFormatUnknown)
  else Ok (mk_result c true FbOutputUnknown).

Definition check_performance_condition (c : ProblemConditionCheck)
  (execution_time : Q) : result ConditionCheckResult :=
  let condition_text := lower (condition c) in
  if contains (lit "time limit") condition_text then
    (m <- Re.search number_pattern condition_text ;;
     t <- group_of_search m 1 ;;
     match py_float t with
     | Some time_limit =>
         let ok := Qle_bool execution_time time_limit in
         Ok (mk_result c ok (FbTime execution_time time_limit ok))
     | None => Raise (OtherError (lit "could not convert string to float"))
     end)%py
  else Ok (mk_result c true FbPerfUnknown).

(** The loop of [check_all_conditions]: an exception of one check ends
    the loop and leaves the function. *)
Fixpoint check_each (conditions : list ProblemConditionCheck)
  (code out_str exp_str : str) (execution_time : Q)
  : result (list ConditionCheckResult) :=
  match conditions with
  | [] => Ok []
  | c :: rest =>
      (r <- match check_type c with
            | code_analysis => check_code_analysis_condition c code
            | output_validation =>
                check_output_validation_condition c out_str exp_str
            | performance => check_performance_condition c execution_time
            | gpt_check => Ok (mk_result c true FbUnchecked)
            end ;;
       rs <- check_each rest code out_str exp_str execution_time ;;
       Ok (r :: rs))%py
  end.

Definition check_all_conditions (conditions : list ProblemConditionCheck)
  (code : str) (output expected_output : option str) (execution_time : Q)
  : result (list ConditionCheckResult) :=
  let out_str := or_empty output in
  let exp_str := or_empty expected_output in
  check_each conditions code out_str exp_str execution_time.

(** A required condition with the default description. *)
Definition condition_of (text : string) (ty : check_type_t)
  : ProblemConditionCheck :=
  {| condition := lit text; is_required := true; check_type := ty;
     description := None |}.

End Checker.

(* ================================================================== *)
(** * Code runner (code_compiler.py) *)
(* ================================================================== *)

Module Runner.

Import Judge.

(** ** The operating system *)

(** What a spawned process does while [communicate] waits for it. *)
Inductive run_outcome :=
| Exits (stdout stderr : str) (returncode : Z) (elapsed_ms : Q)
    (* ends within the timeout; [elapsed_ms] is the wall-clock time
       between [start] and the return of [communicate] *)
| Hangs
    (* still running when the timeout expires *)
| Breaks (e : exn).
    (* [communicate] itself fails, e.g. on undecodable output *)

(** What a call of [subprocess.Popen] meets. *)
Inductive spawn_outcome :=
| SpawnFails (e : exn)
| Spawned (descendants : nat)       (* processes the child forks *)
          (psutil_error : option exn) (* [psutil.Process(pid)] raises *)
          (peak_rss : Z)            (* the largest sample of the sampler *)
          (o : run_outcome).

Record os_env := {
  which : str -> bool;              (* [shutil.which(b) is not None] *)
  tmp_base : str;                   (* temp file name without suffix *)
  spawn : nat -> list str -> spawn_outcome
                                    (* the n-th [Popen], on its command *)
}.

(** The process table: [live] are the processes that run. *)
Record os_state := {
  next_pid : nat;
  live : list nat;
  calls : nat
}.

Definition M (A : Type) : Type := os_state -> result A * os_state.

Definition ret {A} (a : A) : M A := fun st => (Ok a, st).

Definition raise {A} (e : exn) : M A := fun st => (Raise e, st).

Definition bind {A B} (m : M A) (f : A -> M B) : M B :=
  fun st =>
    match m st with
    | (Ok a, st') => f a st'
    | (Raise e, st') => (Raise e, st')
    end.

Definition lift {A} (r : result A) : M A := fun st => (r, st).

(** [try: m  except ...]: [h e = None] lets [e] through. *)
Definition catch {A} (m : M A) (h : exn -> option (M A)) : M A :=
  fun st =>
    match m st with
    | (Ok a, st') => (Ok a, st')
    | (Raise e, st') =>
        match h e with
        | Some m' => m' st'
        | None => (Raise e, st')
        end
    end.

(** [try: m  finally: f]: [f] runs on every exit of [m]; an exception
    of [f] replaces the outcome of [m]. *)
Definition finally {A} (m : M A) (f : M unit) : M A :=
  fun st =>
    match m st with
    | (r, st') =>
        match f st' with
        | (Ok _, st'') => (r, st'')
        | (Raise e, st'') => (Raise e, st'')
        end
    end.

Declare Scope run_scope.
Delimit Scope run_scope with run.
Notation "x <- m ;; k" := (bind m (fun x => k))
  (at level 61, m at next level, right associativity) : run_scope.
Notation "' pat <- m ;; k" := (bind m (fun x => match x with pat => k end))
  (at level 61, pat pattern, m at next level, right associativity)
  : run_scope.

(** A [Popen] object together with what the process is going to do. *)
Record process := {
  pid : nat;
  n_descendants : nat;
  psutil_error : option exn;
  peak_rss : Z;
  behaviour : run_outcome
}.

(** The process and the processes it forks. *)
Definition family (p : process) : list nat :=
  seq (pid p) (S (n_descendants p)).

Definition Popen (env : os_env) (cmd : list str) : M process :=
  fun st =>
    match spawn env (calls st) cmd with
    | SpawnFails e =>
        (Raise e, {| next_pid := next_pid st; live := live st;
                     calls := S (calls st) |})
    | Spawned d pe pk o =>
        let p := {| pid := next_pid st; n_descendants := d;
                    psutil_error := pe; peak_rss := pk; behaviour := o |} in
        (Ok p, {| next_pid := next_pid st + S d;
                  live := live st ++ family p;
                  calls := S (calls st) |})
    end.

(** [psutil.Process(process.pid)] *)
Definition psutil_Process (p : process) : M unit :=
  match psutil_error p with
  | Some e => raise e
  | None => ret tt
  end.

Definition remove_pid (x : nat) (l : list nat) : list nat :=
  List.filter (fun y => negb (Nat.eqb x y)) l.

(** [process.communicate(input=..., timeout=...)].  When the timeout
    expires the call raises [TimeoutExpired]; the child is not killed
    by it and keeps running, and so do the processes it forked. *)
Definition communicate (p : process) : M (str * str * Z * Q) :=
  fun st =>
    match behaviour p with
    | Exits out err rc ms =>
        (Ok (out, err, rc, ms),
         {| next_pid := next_pid st; live := remove_pid (pid p) (live st);
            calls := calls st |})
    | Hangs => (Raise TimeoutExpired, st)
    | Breaks e => (Raise e, st)
    end.

(** ** Python objects of the sampler *)

Inductive pyobj :=
| PInt (z : Z)
| PEvent                 (* threading.Event *)
| PThread                (* threading.Thread *)
| PList (first : Z).     (* the one-element list [peak] *)

Definition type_name (o : pyobj) : str :=
  match o with
  | PInt _ => lit "int"
  | PEvent => lit "Event"
  | PThread => lit "Thread"
  | PList _ => lit "list"
  end.

Definition no_attribute (o : pyobj) (attr : string) : exn :=
  AttributeError (lit "'" ++ type_name o ++ lit "' object has no attribute '"
                  ++ lit attr ++ lit "'").

(** [o.set()] *)
Definition call_set (o : pyobj) : M unit :=
  match o with
  | PEvent => ret tt
  | _ => raise (no_attribute o "set")
  end.

(** [o.join()] *)
Definition call_join (o : pyobj) : M unit :=
  match o with
  | PThread => ret tt
  | _ => raise (no_attribute o "join")
  end.

(** [o[0]] *)
Definition index0 (o : pyobj) : M Z :=
  match o with
  | PList v => ret v
  | _ => raise (OtherError (lit "'" ++ type_name o
                            ++ lit "' object is not subscriptable"))
  end.

(** [_sample_peak_rss(proc)]: starts the sampler thread and returns
    [(stop, t, peak)], in this order.  [peak[0]] is read after the
    thread is joined, when it holds the largest sample. *)
Definition _sample_peak_rss (p : process) : pyobj * pyobj * pyobj :=
  (PEvent, PThread, PList (peak_rss p)).

(** ** The runner *)

Inductive language := python | java | cpp | c | javascript.

Record config := {
  file_ext : str;
  compile_cmd : option (list str);
  run_cmd : list str;
  main_class : option str
}.

Definition language_configs (l : language) : config :=
  match l with
  | python =>
      {| file_ext := lit ".py"; compile_cmd := None;
         run_cmd := [lit "python"; lit "{file}"]; main_class := None |}
  | java =>
      {| file_ext := lit ".java";
         compile_cmd := Some [lit "javac"; lit "{file}"];
         run_cmd := [lit "java"; lit "{class_name}"];
         main_class := Some (lit "Solution") |}
  | cpp =>
      {| file_ext := lit ".cpp";
         compile_cmd := Some [lit "g++"; lit "-O2"; lit "-std=c++17";
                              lit "-o"; lit "{exe}"; lit "{file}"];
         run_cmd := [lit "./{exe}"]; main_class := None |}
  | c =>
      {| file_ext := lit ".c";
         compile_cmd := Some [lit "gcc"; lit "-O2"; lit "-std=c17";
                              lit "-o"; lit "{exe}"; lit "{file}"];
         run_cmd := [lit "./{exe}"]; main_class := None |}
  | javascript =>
      {| file_ext := lit ".js"; compile_cmd := None;
         run_cmd := [lit "node"; lit "{file}"]; main_class := None |}
  end.

(** [TIMEOUT], in seconds. *)
Definition TIMEOUT : Q := 5%Q.

Record TestCaseInput := {
  input : str;
  expected_output : str
}.

(** The members of [ExecutionStatus], in a name space of their own
    beside the class constant [TIMEOUT] above. *)
Module ES.
Inductive t := SUCCESS | TIMEOUT | ERROR.
End ES.

Definition ExecutionStatus := ES.t.

Inductive OverallStatus := success | partial | failed.

(** One entry of ["results"]: a [RunnerTestResult], or the dictionary
    with the same keys that [run_code] builds itself. *)
Record RunnerTestResult := {
  test_case_index : nat;
  status : ExecutionStatus;
  output : str;
  error : option str;
  execution_time : Q;
  memory_usage : pyobj;
  passed : bool;
  r_input : str;
  r_expected_output : str
}.

Record run_result := {
  r_success : bool;
  results : list RunnerTestResult;
  overall_status : OverallStatus;
  compile_memory_usage : option pyobj
}.

(** [tmpl.format(file=.., exe=.., class_name=..)] for templates whose
    replacement fields are plain names; [name] is the field name being
    read, reversed. *)
Fixpoint format_go (kw : str -> option str) (name : option str) (s : str)
  : result str :=
  match s with
  | [] =>
      match name with
      | None => Ok []
      | Some _ => Raise (OtherError (lit "expected '}' before end of string"))
      end
  | ch :: s' =>
      match name with
      | None =>
          if (ch =? 123)%N then format_go kw (Some []) s'
          else (r <- format_go kw None s' ;; Ok (ch :: r))%py
      | Some n =>
          if (ch =? 125)%N then
            match kw (rev n) with
            | Some v => (r <- format_go kw None s' ;; Ok (v ++ r))%py
            | None => Raise (OtherError (rev n))
            end
          else format_go kw (Some (ch :: n)) s'
      end
  end.

Definition keywords (file_path base_name class_name : str) (name : str)
  : option str :=
  if str_eqb name (lit "file") then Some file_path
  else if str_eqb name (lit "exe") then Some base_name
  else if str_eqb name (lit "class_name") then Some class_name
  else None.

Fixpoint format_all (kw : str -> option str) (tmpls : list str)
  : result (list str) :=
  match tmpls with
  | [] => Ok []
  | t :: rest =>
      (x <- format_go kw None t ;;
       xs <- format_all kw rest ;;
       Ok (x :: xs))%py
  end.

(** [[c.format(file=file_path, exe=base_name,
               class_name=config.get("main_class", "")) for c in cmd]] *)
Definition format_cmd (cfg : config) (file_path base_name : str)
  (cmd : list str) : result (list str) :=
  format_all (keywords file_path base_name
                (match main_class cfg with Some m => m | None => [] end))
             cmd.

(** [_prepare_code_file]: the temporary directory is taken to be
    writable; the file system itself is not part of the model. *)
Definition _prepare_code_file (env : os_env) (code : str) (l : language)
  : str * str * option str :=
  let cfg := language_configs l in
  let name := tmp_base env ++ file_ext cfg in
  (name, tmp_base env, match l with java => main_class cfg | _ => None end).

(** [_compile_code]: (success, error text, peak).  The three values of
    [_sample_peak_rss] are bound to the names [peak], [stop] and [t] in
    this order; the [finally] block calls [stop.set()] and [t.join()]
    on what these names hold. *)
Definition _compile_code (env : os_env) (file_path : str) (l : language)
  (base_name : str) : M (bool * str * pyobj) :=
  let cfg := language_configs l in
  match compile_cmd cfg with
  | None | Some [] => ret (true, [], PInt 0)
  | Some tmpls =>
      catch
        (cmd <- lift (format_cmd cfg file_path base_name tmpls) ;;
         process <- Popen env cmd ;;
         _ <- psutil_Process process ;;
         let '(peak, stop, t) := _sample_peak_rss process in
         '(_, stderr, returncode, _) <-
            finally (communicate process)
                    (_ <- call_set stop ;; call_join t) ;;
         ret (Z.eqb returncode 0, stderr, peak))%run
        (fun e => match e with
                  | TimeoutExpired =>
                      Some (ret (false, lit "Compilation timed out", PInt 0))
                  | _ => Some (ret (false, str_of_exn e, PInt 0))
                  end)
  end.

(** ["".join(s.split())] *)
Definition squeeze (s : str) : str := List.concat (Checker.split s).

(** [_judge]: [compare], then [compare] on the value of the mode, then
    a comparison of its own; each stage is reached when the one before
    raised. *)
Definition _judge (L : re_lib) (out expected : str) (rating_mode : str)
  : result bool :=
  match compare L (Some out) (Some expected) rating_mode with
  | Ok b => Ok b
  | Raise _ =>
      (* the mode's value is the same string: the second attempt *)
      match compare L (Some out) (Some expected) rating_mode with
      | Ok b => Ok b
      | Raise _ =>
          let o := strip out in
          let e := strip expected in
          let mv := Checker.lower rating_mode in
          if contains (lit "regex") mv then
            try_except
              (p <- re_compile L e false false ;;
               Ok (re_fullmatch L p o))%py
              (fun x => match x with
                        | ReError _ => Some (Ok false)
                        | _ => None
                        end)
          else if contains (lit "space") mv || contains (lit "whitespace") mv
          then Ok (str_eqb (squeeze o) (squeeze e))
          else Ok (str_eqb o e)
      end
  end.

(** [self.TIMEOUT * 1000.0] *)
Definition timeout_ms : Q := Qmult TIMEOUT 1000%Q.

(** [_run_test_case]: the command is formatted before the [try]; the
    two handlers turn every exception of the body into a result. *)
Definition _run_test_case (env : os_env) (L : re_lib)
  (file_path : str) (l : language) (base_name : str)
  (test_case : TestCaseInput) (idx : nat) (rating_mode : str)
  : M RunnerTestResult :=
  let cfg := language_configs l in
  (cmd <- lift (format_cmd cfg file_path base_name (run_cmd cfg)) ;;
   catch
     (process <- Popen env cmd ;;
      _ <- psutil_Process process ;;
      let '(stop, t, peak) := _sample_peak_rss process in
      '(stdout, stderr, _, exec_ms) <-
         finally (communicate process)
                 (_ <- call_set stop ;; call_join t) ;;
      let out := strip stdout in
      ok <- lift (_judge L out (expected_output test_case) rating_mode) ;;
      peak0 <- index0 peak ;;
      ret {| test_case_index := idx;
             status := ES.SUCCESS;
             output := out;
             error := match stderr with [] => None | _ => Some stderr end;
             execution_time := exec_ms;
             memory_usage := PInt peak0;
             passed := ok;
             r_input := input test_case;
             r_expected_output := expected_output test_case |})
     (fun e =>
        match e with
        | TimeoutExpired =>
            Some (ret {| test_case_index := idx;
                         status := ES.TIMEOUT;
                         output := [];
                         error := Some (lit "Execution timed out");
                         execution_time := timeout_ms;
                         memory_usage := PInt 0;
                         passed := false;
                         r_input := input test_case;
                         r_expected_output := expected_output test_case |})
        | _ =>
            Some (ret {| test_case_index := idx;
                         status := ES.ERROR;
                         output := [];
                         error := Some (str_of_exn e);
                         execution_time := 0%Q;
                         memory_usage := PInt 0;
                         passed := false;
                         r_input := input test_case;
                         r_expected_output := expected_output test_case |})
        end))%run.

(** [b.split()[0].strip()] *)
Definition first_word (b : str) : result str :=
  match Checker.split b with
  | w :: _ => Ok (strip w)
  | [] => Raise (IndexError (lit "list index out of range"))
  end.

(** The loop of [_check_runtime] over [bins]. *)
Fixpoint check_bins (env : os_env) (bins : list str) : result (bool * str) :=
  match bins with
  | [] => Ok (true, [])
  | b :: rest =>
      (b <- first_word b ;;
       if contains [123%N] b then check_bins env rest
       else if which env b then check_bins env rest
       else Ok (false, lit "Required runtime '" ++ b
                       ++ lit "' is not installed on server."))%py
  end.

Definition _check_runtime (env : os_env) (l : language)
  : result (bool * str) :=
  let cfg := language_configs l in
  let bins :=
    (match run_cmd cfg with b :: _ => [b] | [] => [] end)
    ++ (match compile_cmd cfg with Some (b :: _) => [b] | _ => [] end) in
  check_bins env bins.

(** The loop of [run_code] over [enumerate(test_cases)], from index [i]. *)
Fixpoint run_cases (env : os_env) (L : re_lib) (file_path : str)
  (l : language) (base_name : str) (rating_mode : str) (i : nat)
  (test_cases : list TestCaseInput) : M (list RunnerTestResult) :=
  match test_cases with
  | [] => ret []
  | tc :: rest =>
      (r <- _run_test_case env L file_path l base_name tc i rating_mode ;;
       rs <- run_cases env L file_path l base_name rating_mode (S i) rest ;;
       ret (r :: rs))%run
  end.

(** The uniform results of a missing runtime, from index [i]. *)
Fixpoint missing_runtime_results (msg : str) (i : nat)
  (test_cases : list TestCaseInput) : list RunnerTestResult :=
  match test_cases with
  | [] => []
  | tc :: rest =>
      {| test_case_index := i;
         status := ES.ERROR;
         output := [];
         error := Some msg;
         execution_time := 0%Q;
         memory_usage := PInt 0;
         passed := false;
         r_input := input tc;
         r_expected_output := expected_output tc |}
      :: missing_runtime_results msg (S i) rest
  end.

(** The compilation step of [run_code]: skipped, with [compile_peak]
    left at 0, when the language has no compile command. *)
Definition compile_step (env : os_env) (file_path : str) (l : language)
  (base_name : str) : M (bool * str * pyobj) :=
  match compile_cmd (language_configs l) with
  | Some (_ :: _) => _compile_code env file_path l base_name
  | _ => ret (true, [], PInt 0)
  end.

(** The one result that stands for a failed compilation. *)
Definition compile_error_result (error_c : str) (compile_peak : pyobj)
  : RunnerTestResult :=
  {| test_case_index := 0;
     status := ES.ERROR;
     output := [];
     error := Some (lit "Compilation error: " ++ error_c);
     execution_time := 0%Q;
     memory_usage := compile_peak;
     passed := false;
     r_input := [];
     r_expected_output := [] |}.

(** [run_code].  Its [finally] block only unlinks temporary files and
    swallows its own exceptions, so it changes neither the value
    returned nor the process table. *)
Definition run_code (env : os_env) (L : re_lib) (code : str) (l : language)
  (test_cases : list TestCaseInput) (rating_mode : str) : M run_result :=
  ('(ok, msg) <- lift (_check_runtime env l) ;;
   if negb ok then
     ret {| r_success := false;
            results := missing_runtime_results msg 0 test_cases;
            overall_status := failed;
            compile_memory_usage := None |}
   else
     let '(file_path, base_name, _) := _prepare_code_file env code l in
     '(ok_c, error_c, compile_peak) <-
        compile_step env file_path l base_name ;;
     if negb ok_c then
       ret {| r_success := false;
              results := [compile_error_result error_c compile_peak];
              overall_status := failed;
              compile_memory_usage := Some compile_peak |}
     else
       rs <- run_cases env L file_path l base_name rating_mode 0 test_cases ;;
       let passed_count := List.length (List.filter passed rs) in
       let overall :=
         if Nat.eqb passed_count (List.length test_cases) then success
         else if Nat.eqb passed_count 0 then failed
         else partial in
       ret {| r_success := true;
              results := rs;
              overall_status := overall;
              compile_memory_usage := Some compile_peak |})%run.

(** ** Vocabulary of the statements below *)

(** The languages with a compile command. *)
Definition is_compiled (l : language) : bool :=
  match l with
  | c | cpp | java => true
  | python | javascript => false
  end.

(** None of the processes [ps] runs any more. *)
Definition terminated (ps : list nat) (st : os_state) : Prop :=
  forall p, In p ps -> ~ In p (live st).

(** A result with status TIMEOUT or ERROR has not passed. *)
Definition failure_not_passed (r : RunnerTestResult) : Prop :=
  status r = ES.TIMEOUT \/ status r = ES.ERROR -> passed r = false.

(** The command of a test-case run. *)
Definition run_command (file_path : str) (l : language) (base_name : str)
  : result (list str) :=
  format_cmd (language_configs l) file_path base_name
    (run_cmd (language_configs l)).

(** The command of a compilation. *)
Definition compile_command (file_path : str) (l : language)
  (base_name : str) : result (list str) :=
  format_cmd (language_configs l) file_path base_name
    (match compile_cmd (language_configs l) with
     | Some tmpls => tmpls
     | None => []
     end).

(** The text ["'Thread' object has no attribute 'set'"]. *)
Definition thread_has_no_set : str := str_of_exn (no_attribute PThread "set").

(** What [run_code] returns on a failed compilation. *)
Definition compile_failure (error_c : str) : run_result :=
  {| r_success := false;
     results := [compile_error_result error_c (PInt 0)];
     overall_status := failed;
     compile_memory_usage := Some (PInt 0) |}.

(** An empty process table. *)
Definition boot : os_state := {| next_pid := 100; live := []; calls := 0 |}.

(** A machine on which every binary is installed and every process
    forks one child and never ends. *)
Definition env_hang : os_env :=
  {| which := fun _ => true;
     tmp_base := lit "/tmp/tmpq1w2e3";
     spawn := fun _ _ => Spawned 1 None 4096 Hangs |}.

(** A machine without [gcc], on which a process prints [hi] and ends. *)
Definition env_no_gcc : os_env :=
  {| which := fun b => negb (str_eqb b (lit "gcc"));
     tmp_base := lit "/tmp/tmpq1w2e3";
     spawn := fun _ _ => Spawned 0 None 4096 (Exits (lit "hi") [] 0 12) |}.

Definition tc_hi : TestCaseInput :=
  {| input := []; expected_output := lit "hi" |}.

End Runner.

(* ================================================================== *)
(** * Schemas and vocabulary of the runner's callers *)
(* ================================================================== *)

(** app/submission/schemas.py defines [RatingMode] twice; the later
    class statement rebinds the name, so this is the class that
    code_compiler.py imports.  A member is the string that is its
    value. *)
Module Schemas.

Definition HARD : str := lit "Hard".
Definition SPACE : str := lit "Space".
Definition REGEX : str := lit "Regex".
Definition NONE : str := lit "None".

(** [list(RatingMode)] *)
Definition RatingMode : list str := [HARD; SPACE; REGEX; NONE].

End Schemas.

Module RunnerTerms.

Import Runner.

(** The binaries [_check_runtime] looks up for a language, in the order
    of the look-ups. *)
Definition runtime_bins (l : language) : list str :=
  match l with
  | python => [lit "python"]
  | java => [lit "java"; lit "javac"]
  | cpp => [lit "g++"]
  | c => [lit "gcc"]
  | javascript => [lit "node"]
  end.

(** The message about a binary that is not installed. *)
Definition not_installed (b : str) : str :=
  lit "Required runtime '" ++ b ++ lit "' is not installed on server.".

(** The first element of [bins] that [which] does not find. *)
Fixpoint first_missing (env : os_env) (bins : list str) : option str :=
  match bins with
  | [] => None
  | b :: rest => if which env b then first_missing env rest else Some b
  end.



(** What a result says about the test case it belongs to. *)
Definition echoes (tc : TestCaseInput) (idx : nat) (r : RunnerTestResult)
  : Prop :=
  test_case_index r = idx /\ r_input r = input tc
  /\ r_expected_output r = expected_output tc.

(** A result that passed comes from a process that ended in time and
    whose output the judge accepted. *)
Definition passed_by_judge (L : re_lib) (rating_mode : str)
  (r : RunnerTestResult) : Prop :=
  passed r = true ->
  status r = ES.SUCCESS
  /\ _judge L (output r) (r_expected_output r) rating_mode = Ok true.


(** The three ways through [run_code]. *)
Inductive run_path (env : os_env) (L : re_lib) (code : str) (l : language)
  (tcs : list TestCaseInput) (rating_mode : str) (st : os_state)
  : run_result -> os_state -> Prop :=
| MissingRuntime (b : str) :
    first_missing env (runtime_bins l) = Some b ->
    run_path env L code l tcs rating_mode st
      {| r_success := false;
         results := missing_runtime_results (not_installed b) 0 tcs;
         overall_status := failed;
         compile_memory_usage := None |} st
| CompileFailed (err : str) (st' : os_state) :
    first_missing env (runtime_bins l) = None ->
    is_compiled l = true ->
    calls st' = S (calls st) ->
    run_path env L code l tcs rating_mode st (compile_failure err) st'
| CasesRun (rs : list RunnerTestResult) (st' : os_state) :
    first_missing env (runtime_bins l) = None ->
    is_compiled l = false ->
    run_cases env L (tmp_base env ++ file_ext (language_configs l)) l
      (tmp_base env) rating_mode 0 tcs st = (Ok rs, st') ->
    run_path env L code l tcs rating_mode st
      {| r_success := true;
         results := rs;
         overall_status :=
           if Nat.eqb (List.length (List.filter passed rs)) (List.length tcs)
           then success
           else if Nat.eqb (List.length (List.filter passed rs)) 0
                then failed else partial;
         compile_memory_usage := Some (PInt 0) |} st'.

End RunnerTerms.

Module JudgeTerms.

(** The characters of a text that are not white space, in order:
    ["".join(s.split())]. *)
Definition nonspace (s : str) : str :=
  List.filter (fun ch => negb (isspace ch)) s.

(** Every character of [s] is white space. *)
Definition blank (s : str) : bool := forallb isspace s.

End JudgeTerms.

Module ScoresTerms.

Import Num Dict Scores.
Local Open Scope Q_scope.

(** An item with the score of the first loop: its allocation when it
    passed, 0 when it did not. *)
Definition own_share (pu : Q) (it : cond_dict) : cond_dict :=
  with_score it (round2 (if is_passed it then allocated pu it else 0)).

(** The gap the second loop works with. *)
Definition gap_of (items : list cond_dict) (total_points : Q) : Q :=
  round2 (total_points
          - snd (allocate (per_unit items total_points) items 0)).

(** The score of the first passing item after the second loop. *)
Definition bumped (items : list cond_dict) (total_points : Q)
  (it : cond_dict) : Q :=
  let first := round2 (allocated (per_unit items total_points) it) in
  let gap := gap_of items total_points in
  if Qle_bool (1 # 100) (Qabs gap) then round2 (first + gap) else first.

End ScoresTerms.

Module CheckerTerms.

Import Checker.
Local Open Scope N_scope.

(** The number that starts a text whose first character is a digit:
    its digits, and a point with the digits after it when a digit
    follows the point. *)
Definition number_at (s : str) : str :=
  let ip := takeWhile isdigit s in
  match dropWhile isdigit s with
  | dot :: d :: fr =>
      if (dot =? 46) && isdigit d
      then ip ++ dot :: d :: takeWhile isdigit fr
      else ip
  | _ => ip
  end.

(** The first number of a text, read from its first digit. *)
Fixpoint first_number (s : str) : option str :=
  match s with
  | [] => None
  | ch :: s' => if isdigit ch then Some (number_at s) else first_number s'
  end.

(** A text of ASCII characters.  On such a text the digits of the
    pattern [\d] and of [float] are the ten ASCII digits, and
    [str.lower] changes the letters A to Z only. *)
Definition is_ascii (s : str) : bool := forallb (fun ch => ch <? 128) s.

(** The code_analysis conditions that reach the recursion check. *)
Definition reaches_recursion (condition_text : str) : bool :=
  negb (contains (lit "for loop") condition_text)
  && negb (contains (lit "while loop") condition_text)
  && negb (contains (lit "function") condition_text)
  && contains (lit "recursion") condition_text.

(** The conditions on which a check raises. *)
Definition raising (cnd : ProblemConditionCheck) : bool :=
  let condition_text := lower (condition cnd) in
  match check_type cnd with
  | code_analysis => reaches_recursion condition_text
  | performance =>
      contains (lit "time limit") condition_text
      && negb (existsb isdigit condition_text)
  | output_validation | gpt_check => false
  end.

(** A check gives the result of its condition, or raises. *)
Definition answers (cnd : ProblemConditionCheck)
  (r : result ConditionCheckResult) : Prop :=
  if raising cnd then exists e, r = Raise e
  else exists ok fb,
         r = Ok (mk_result cnd ok fb)
         /\ (check_type cnd = gpt_check -> ok = true).

End CheckerTerms.

(* ================================================================== *)
(** * Scoring helpers of the feedback service (ai_feedback.py) *)
(* ================================================================== *)

Module Grader.

Import Num Judge.
Local Open Scope Q_scope.

(** ** Multiple choice *)

(** [x in set(xs)] *)
Definition mem (xs : list Z) (x : Z) : bool := existsb (Z.eqb x) xs.

(** [set(a) == set(b)] *)
Definition set_eqb (a b : list Z) : bool :=
  forallb (mem b) a && forallb (mem a) b.

Definition _score_multiple_choice (correct selected : list Z) : Q * bool :=
  let exact := set_eqb correct selected in
  match correct with
  | [] => (0, false)
  | _ => (if exact then 100 else 0, exact)
  end.

(** ** Short answer *)

(** The values [_normalize] is given by its callers: [None], a text, or
    a list of texts.  (Its branches for dictionaries and for other
    objects go through [json.dumps] and [str] and are not modelled.) *)
Inductive answer :=
| ANone
| AStr (s : str)
| AList (parts : list str).

(** [" ".join(parts)] *)
Fixpoint join_sp (parts : list str) : str :=
  match parts with
  | [] => []
  | [x] => x
  | x :: rest => x ++ sp :: join_sp rest
  end.

Definition _normalize (s : answer) : str :=
  match s with
  | ANone => []
  | AStr t => collapse (strip t)
  | AList parts => collapse (strip (join_sp parts))
  end.

(** [difflib.SequenceMatcher(None, a, b).ratio()] is a parameter of
    the model. *)
Definition _score_short_answer (ratio : str -> str -> Q)
  (student_text : str) (expected : list str) (mode : str) : Q :=
  let s := _normalize (AStr student_text) in
  match expected with
  | [] => 0
  | _ =>
      let exact_ok := fun ans => str_eqb s (_normalize (AStr ans)) in
      let partial_ok := fun ans =>
        let a := Checker.lower s in
        let b := Checker.lower (_normalize (AStr ans)) in
        contains a b || contains b a in
      let soft_ok := fun ans =>
        let a := Checker.lower s in
        let b := Checker.lower (_normalize (AStr ans)) in
        Qle_bool (8 # 10) (ratio a b) in
      let matcher :=
        if str_eqb mode (lit "exact") then exact_ok
        else if str_eqb mode (lit "partial") then partial_ok
        else if str_eqb mode (lit "soft") then soft_ok
        else exact_ok in
      if existsb matcher expected then 100 else 0
  end.

(** The short_answer branch of [generate_for_problem_type]: the percent
    it computes from the answer text, the expected answers of the
    problem and the rating mode. *)
Definition short_answer_percent (ratio : str -> str -> Q)
  (short_answer_text : answer) (short_expected_answers : option (list str))
  (short_rating_mode : str) : Q :=
  let student_text_norm := _normalize short_answer_text in
  let expected_list :=
    match short_expected_answers with Some l => l | None => [] end in
  let expected_list :=
    List.map (fun x => _normalize (AStr x))
      (List.filter
         (fun x => match _normalize (AStr x) with [] => false | _ => true end)
         expected_list) in
  _score_short_answer ratio student_text_norm expected_list
    short_rating_mode.

(** What [_normalize] makes of a text: single plain spaces, none at
    either end. *)
Definition tidy (r : str) : Prop :=
  plain r /\ no_adj ws_ws r /\ lstrip r = r /\ rstrip r = r.

(** The expected answers that count: those that are not blank. *)
Definition counts (x : str) : bool :=
  match _normalize (AStr x) with [] => false | _ => true end.

(** ** Points per condition *)


(** ** The number in an answer of the language model *)

(** [min(a, b)] and [max(a, b)] of Python on two numbers. *)
Definition py_min (a b : Q) : Q := if Qle_bool a b then a else b.
Definition py_max (a b : Q) : Q := if Qle_bool b a then a else b.

Definition _parse_first_number (s : str) : result Q :=
  match s with
  | [] => Ok 0
  | _ =>
      (m <- Re.search Checker.number_pattern s ;;
       match m with
       | None => Ok 0
       | Some _ =>
           t <- Checker.group_of_search m 1 ;;
           match Checker.py_float t with
           | Some v => Ok (py_max 0 (py_min 100 v))
           | None =>
               Raise (OtherError (lit "could not convert string to float"))
           end
       end)%py
  end.

End Grader.

(* ================================================================== *)
(** * Normalisation of condition checks (condition_utils.py) *)
(* ================================================================== *)

Module CondUtils.

Import Num.

(** The Python values a key of a check can hold.  A float is a
    rational here, as everywhere in this development: infinities and
    NaN are outside the model.  [VOther] is any other object: what
    [bool], [int] and [float] make of it ([None]: the call raises). *)
Inductive pyval :=
| VNone
| VBool (b : bool)
| VInt (z : Z)
| VFloat (q : Q)
| VStr (s : str)
| VOther (truthy : bool) (as_int : option Z) (as_float : option Q).

(** [bool(x)] *)
Definition truth (x : pyval) : bool :=
  match x with
  | VNone => false
  | VBool b => b
  | VInt z => negb (z =? 0)%Z
  | VFloat q => negb (Qeq_bool q 0)
  | VStr s => match s with [] => false | _ => true end
  | VOther t _ _ => t
  end.

(** [int(s)] and [float(s)] on a text, [None] when the call raises
    (for [float] also when the value is not finite).  The grammar of
    Python's numbers is a parameter of the model. *)
Record py_numbers := {
  int_of_str : str -> option Z;
  float_of_str : str -> option Q
}.

(** [int(x)] on a float: the fraction is cut off. *)
Definition trunc (q : Q) : Z :=
  if Qle_bool 0 q then Qfloor q else Qceiling q.

(** The least magnitude of an [int] that [float] does not convert:
    [2**1024 - 2**970]. *)
Definition FLOAT_OVERFLOW : Z := 2 ^ 1024 - 2 ^ 970.

(** [float(z)] on an [int] *)
Definition float_of_int (z : Z) : result Q :=
  if (Z.abs z <? FLOAT_OVERFLOW)%Z then Ok (inject_Z z)
  else Raise (OverflowError (lit "int too large to convert to float")).

(** [raw.get(key, default)] or [getattr(raw, key, default)]: a key
    that is there wins over the default, also when it holds [None]. *)
Definition _get_field (field : option pyval) (default : pyval) : pyval :=
  match field with
  | Some v => v
  | None => default
  end.

Definition _to_int (P : py_numbers) (x : pyval) (default : Z) : Z :=
  match x with
  | VNone | VBool _ => default
  | VInt z => z
  | VFloat q => trunc q
  | VStr t =>
      let s := strip t in
      match s with
      | [] => default
      | _ =>
          match int_of_str P s with
          | Some z => z
          | None =>
              match float_of_str P s with
              | Some q => trunc q
              | None => default
              end
          end
      end
  | VOther _ i _ =>
      match i with
      | Some z => z
      | None => default
      end
  end.

(** The conversion of an [int] is outside every [try]. *)
Definition _to_float (P : py_numbers) (x : pyval) (default : Q) : result Q :=
  match x with
  | VNone | VBool _ => Ok default
  | VInt z => float_of_int z
  | VFloat q => Ok q
  | VStr t =>
      let s := strip t in
      match s with
      | [] => Ok default
      | _ =>
          match float_of_str P s with
          | Some q => Ok q
          | None => Ok default
          end
      end
  | VOther _ _ f =>
      match f with
      | Some q => Ok q
      | None => Ok default
      end
  end.

Definition _to_str_or_default (x : pyval) (default : str) : str :=
  match x with
  | VStr t =>
      match strip t with
      | [] => default
      | s => s
      end
  | _ => default
  end.

(** The decimal digits of a number, most significant first. *)
Fixpoint digits_from (fuel n : nat) (acc : str) : str :=
  match fuel with
  | O => acc
  | S fuel' =>
      let d := (N.of_nat (n mod 10) + 48)%N in
      if n <? 10 then d :: acc
      else digits_from fuel' (n / 10) (d :: acc)
  end.

(** [str(n)] *)
Definition str_of_nat (n : nat) : str := digits_from (S n) n [].

(** [f"Condition {idx}"] *)
Definition condition_label (idx : nat) : str :=
  lit "Condition " ++ str_of_nat idx.

(** A check as it comes in: a mapping or an object, each key or
    attribute there or not. *)
Record raw_check := {
  f_condition : option pyval;
  f_description : option pyval;
  f_is_required : option pyval;
  f_check_type : option pyval;
  f_passed : option pyval;
  f_feedback : option pyval;
  f_weight : option pyval
}.

(** A normalised check. *)
Record item := {
  condition : Z;
  is_required : bool;
  description : str;
  check_type : str;
  passed : bool;
  feedback : str;
  weight : Q
}.

(** The loop of [normalize_condition_checks], from position [idx]. *)
Fixpoint normalize_from (P : py_numbers) (idx : nat)
  (checks : list raw_check) : result (list item) :=
  match checks with
  | [] => Ok []
  | raw :: rest =>
      let cond_raw := _get_field (f_condition raw) VNone in
      let desc_raw := _get_field (f_description raw) VNone in
      let req_raw := _get_field (f_is_required raw) (VBool true) in
      let type_raw :=
        _get_field (f_check_type raw) (VStr (lit "code_analysis")) in
      let pass_raw := _get_field (f_passed raw) (VBool false) in
      let fb_raw := _get_field (f_feedback raw) (VStr []) in
      let wt_raw := _get_field (f_weight raw) (VFloat 1) in
      let desc :=
        _to_str_or_default desc_raw
          (_to_str_or_default cond_raw (condition_label idx)) in
      (w <- _to_float P wt_raw 1 ;;
       let it :=
         {| condition := _to_int P cond_raw (Z.of_nat idx);
            is_required := truth req_raw;
            description := desc;
            check_type := _to_str_or_default type_raw (lit "code_analysis");
            passed := truth pass_raw;
            feedback := _to_str_or_default fb_raw [];
            weight := w |} in
       items <- normalize_from P (S idx) rest ;;
       Ok (it :: items))%py
  end.

Definition normalize_condition_checks (P : py_numbers)
  (checks : list raw_check) : result (list item) :=
  normalize_from P 1 checks.

(** A normalised check as the dictionary it is. *)
Definition as_raw (it : item) : raw_check :=
  {| f_condition := Some (VInt (condition it));
     f_description := Some (VStr (description it));
     f_is_required := Some (VBool (is_required it));
     f_check_type := Some (VStr (check_type it));
     f_passed := Some (VBool (passed it));
     f_feedback := Some (VStr (feedback it));
     f_weight := Some (VFloat (weight it)) |}.

(** The keys of a normalised check that the score distribution and the
    aggregation read. *)
Definition to_cond_dict (it : item) : Dict.cond_dict :=
  {| Dict.is_required := Some (is_required it);
     Dict.passed := Some (passed it);
     Dict.weight := Some (weight it);
     Dict.score := None |}.

(** The checks whose weight is an [int] that [float] refuses. *)
Definition overflowing (raw : raw_check) : bool :=
  match f_weight raw with
  | Some (VInt z) => negb (Z.abs z <? FLOAT_OVERFLOW)%Z
  | _ => false
  end.

(** The checks for which [_to_int] falls back on the position: no
    [condition], [None], or a truth value. *)
Definition unnumbered (raw : raw_check) : bool :=
  match f_condition raw with
  | None | Some VNone | Some (VBool _) => true
  | _ => false
  end.

(** A text without white space at either end, and not empty. *)
Definition trimmed (s : str) : Prop := strip s = s /\ s <> [].

(** A library of numbers for examples: digits only. *)
Definition digits_only : py_numbers :=
  {| int_of_str := fun s =>
       if Checker.str_isdigit s then Some (Z.of_N (dec_value 0 s)) else None;
     float_of_str := fun s => Checker.py_float s |}.

End CondUtils.

(* ================================================================== *)
(** * The condition stage of grading (crud/submission.py) *)
(* ================================================================== *)

(** The part of [grade_and_save] between the two checkers and the
    aggregation: the checks of the rule-based checker and of the
    language model are merged index by index, normalised, scored and
    handed to [generate_for_problem_type]. *)
Module Orchestrator.

Import Num CondUtils.

(** [model_dump()] of a [ConditionCheckResult]. *)
Record check_dump := {
  cd_condition : str;
  cd_is_required : bool;
  cd_check_type : str;
  cd_description : option str;
  cd_passed : bool;
  cd_feedback : option str
}.

(** An entry of [problem_conditions_raw]: a text, or a dictionary, of
    which the merge reads the key [weight]. *)
Inductive raw_condition :=
| RText (c : str)
| RDict (weight : option pyval).

(** [float(x)] inside a [try]: [None] when it raises. *)
Definition float_conv (P : py_numbers) (x : pyval) : option Q :=
  match x with
  | VNone => None
  | VBool b => Some (if b then 1%Q else 0%Q)
  | VInt z =>
      match float_of_int z with
      | Ok q => Some q
      | Raise _ => None
      end
  | VFloat q => Some q
  | VStr s => float_of_str P s
  | VOther _ _ f => f
  end.

(** The weight of the condition at index [i]. *)
Definition weight_at (P : py_numbers) (raws : list raw_condition) (i : nat)
  : Q :=
  match nth_error raws i with
  | Some (RDict w) =>
      match float_conv P (_get_field w (VFloat 1)) with
      | Some q => q
      | None => 1%Q
      end
  | _ => 1%Q
  end.

Definition opt_str (o : option str) : pyval :=
  match o with
  | Some t => VStr t
  | None => VNone
  end.

(** The dictionary of a dumped check. *)
Definition dict_of (d : check_dump) : raw_check :=
  {| f_condition := Some (VStr (cd_condition d));
     f_description := Some (opt_str (cd_description d));
     f_is_required := Some (VBool (cd_is_required d));
     f_check_type := Some (VStr (cd_check_type d));
     f_passed := Some (VBool (cd_passed d));
     f_feedback := Some (opt_str (cd_feedback d));
     f_weight := None |}.

(** [{}] *)
Definition empty_dict : raw_check :=
  {| f_condition := None; f_description := None; f_is_required := None;
     f_check_type := None; f_passed := None; f_feedback := None;
     f_weight := None |}.

(** [a or b] *)
Definition py_or (a b : pyval) : pyval := if truth a then a else b.

(** [d.setdefault(key, v)] on one key. *)
Definition setdefault (field : option pyval) (v : pyval) : option pyval :=
  match field with
  | Some x => Some x
  | None => Some v
  end.

(** The four [setdefault] calls on [base], in their order. *)
Definition with_defaults (i : nat) (base : raw_check) : raw_check :=
  let cnd := setdefault (f_condition base) (VInt (Z.of_nat (i + 1))) in
  let req := setdefault (f_is_required base) (VBool true) in
  let desc :=
    setdefault (f_description base)
      (py_or (_get_field (f_description base) VNone)
         (py_or (_get_field cnd VNone) (VStr (condition_label (i + 1))))) in
  let ct :=
    setdefault (f_check_type base)
      (py_or (_get_field (f_check_type base) VNone)
         (VStr (lit "code_analysis"))) in
  {| f_condition := cnd; f_description := desc; f_is_required := req;
     f_check_type := ct; f_passed := f_passed base;
     f_feedback := f_feedback base; f_weight := f_weight base |}.

(** [str(d.get("feedback") or "")] on a dumped check. *)
Definition feedback_text (d : check_dump) : str := or_empty (cd_feedback d).

Definition with_verdict (base : raw_check) (ok : bool) (fb : str) (w : Q)
  : raw_check :=
  {| f_condition := f_condition base;
     f_description := f_description base;
     f_is_required := f_is_required base;
     f_check_type := f_check_type base;
     f_passed := Some (VBool ok);
     f_feedback := Some (VStr fb);
     f_weight := Some (VFloat w) |}.

Definition with_weight (base : raw_check) (w : Q) : raw_check :=
  {| f_condition := f_condition base;
     f_description := f_description base;
     f_is_required := f_is_required base;
     f_check_type := f_check_type base;
     f_passed := f_passed base;
     f_feedback := f_feedback base;
     f_weight := Some (VFloat w) |}.

(** One round of the merge loop. *)
Definition merge_at (P : py_numbers) (rule_checks gpt_checks : list check_dump)
  (raws : list raw_condition) (i : nat) : raw_check :=
  let w := weight_at P raws i in
  match nth_error rule_checks i, nth_error gpt_checks i with
  | Some r, Some g =>
      let ok := cd_passed r && cd_passed g in
      let fb_r := feedback_text r in
      let fb_g := feedback_text g in
      with_verdict (with_defaults i (dict_of r)) ok
        (if ok then fb_r else match fb_g with [] => fb_r | _ => fb_g end) w
  | Some r, None =>
      with_verdict (with_defaults i (dict_of r)) (cd_passed r)
        (feedback_text r) w
  | None, Some g =>
      with_verdict (with_defaults i (dict_of g)) (cd_passed g)
        (feedback_text g) w
  | None, None => with_weight (with_defaults i empty_dict) w
  end.

(** [merged], for [i] in [range(max(len(rule_checks), len(gpt_checks)))]. *)
Definition merge (P : py_numbers) (rule_checks gpt_checks : list check_dump)
  (raws : list raw_condition) : list raw_check :=
  List.map (merge_at P rule_checks gpt_checks raws)
    (seq 0 (Nat.max (List.length rule_checks) (List.length gpt_checks))).

(** Merge, normalise, distribute the condition points, aggregate.  The
    percent of the test cases and the text of the language model are
    inputs here, as in [Feedback.generate_for_problem_type]. *)
Definition condition_stage (P : py_numbers)
  (rule_checks gpt_checks : list check_dump) (raws : list raw_condition)
  (condition_points pct max_points : Q) (fb by_ : str)
  : result Feedback.outcome :=
  (cond_items <- normalize_condition_checks P
                   (merge P rule_checks gpt_checks raws) ;;
   let '(cond_items, _) :=
     Scores.distribute_condition_scores
       (List.map to_cond_dict cond_items) condition_points in
   Ok (Feedback.generate_for_problem_type pct fb by_ max_points
         (Some cond_items)))%py.

(** The check that decides whether condition [i] is required. *)
Definition base_at (rule_checks gpt_checks : list check_dump) (i : nat)
  : option check_dump :=
  match nth_error rule_checks i with
  | Some r => Some r
  | None => nth_error gpt_checks i
  end.

(** The verdict on condition [i]: every checker that has an answer for
    it passed it. *)
Definition both_passed (rule_checks gpt_checks : list check_dump) (i : nat)
  : bool :=
  match nth_error rule_checks i with
  | Some r => cd_passed r
  | None => true
  end
  && match nth_error gpt_checks i with
     | Some g => cd_passed g
     | None => true
     end.

(** Whether condition [i] is required. *)
Definition required_at (rule_checks gpt_checks : list check_dump) (i : nat)
  : bool :=
  match base_at rule_checks gpt_checks i with
  | Some d => cd_is_required d
  | None => true
  end.

(** The keys of the merged and normalised check [i] that the score
    distribution and the aggregation read. *)
Definition verdict_dict (P : py_numbers)
  (rule_checks gpt_checks : list check_dump) (raws : list raw_condition)
  (i : nat) : Dict.cond_dict :=
  {| Dict.is_required := Some (required_at rule_checks gpt_checks i);
     Dict.passed := Some (both_passed rule_checks gpt_checks i);
     Dict.weight := Some (weight_at P raws i);
     Dict.score := None |}.

(** Three dumped checks for examples. *)
Definition dump (text : string) (required ok : bool) : check_dump :=
  {| cd_condition := lit text; cd_is_required := required;
     cd_check_type := lit "code_analysis"; cd_description := None;
     cd_passed := ok; cd_feedback := None |}.

End Orchestrator.

(* ================================================================== *)
(** * Rating mode of a coding problem (crud/submission.py) *)
(* ================================================================== *)

Module RatingModes.

(** The members of the runner's [RatingMode], by name. *)
Module RunnerRatingMode.
Inductive t := HARD | SPACE | REGEX | NONE.
End RunnerRatingMode.

Import RunnerRatingMode.

(** [(m or "none").strip().lower()], looked up in the table of the
    four modes. *)
Definition _map_rating_mode (m : option str) : RunnerRatingMode.t :=
  let m' :=
    match m with
    | None | Some [] => lit "none"
    | Some s => s
    end in
  let val := Checker.lower (strip m') in
  if str_eqb val (lit "hard") then HARD
  else if str_eqb val (lit "space") then SPACE
  else if str_eqb val (lit "regex") then REGEX
  else if str_eqb val (lit "none") then NONE
  else NONE.

(** [_decide_rating_mode_for_coding], on the list of the expected
    outputs of the problem's test cases ([None]: the test case has no
    expected output, or it holds [None]).  A list stored as a JSON
    text is outside the model. *)
Definition _decide_rating_mode_for_coding (expected : list (option str))
  (requested : option str) : RunnerRatingMode.t :=
  let has_any_expected :=
    existsb (fun e => negb (str_eqb (or_empty e) [])) expected in
  if has_any_expected then _map_rating_mode requested else NONE.

End RatingModes.

(* ================================================================== *)
(** * Short answers in the earlier grader
      (aprofi_backend-jy__v0_test, crud/submission.py) *)
(* ================================================================== *)

Module ShortAnswers.

Import Judge.

(** [_grade_short_answer]: (is_correct, score), on the text
    [str(rating_mode)] of the problem's mode.  The ratio of
    [difflib.SequenceMatcher] is a parameter.  The
    [problem_Normalization] of this tree writes the class of brackets
    as [[[\](){}]], the same set of characters, and has the same
    [normalize_space], [compare_hard] and [compare_space]. *)
Definition _grade_short_answer (ratio : str -> str -> Q)
  (answer_text : option str) (answers : list str) (rating_mode : str)
  : bool * Q :=
  let mode := Checker.lower rating_mode in
  if str_eqb mode (lit "none") then (false, 0%Q)
  else
    match answers with
    | [] => (false, 0%Q)
    | _ =>
        let txt := strip (or_empty answer_text) in
        let normalized_txt := normalize_space (Some txt) in
        let exact_ok := fun ans =>
          compare_hard (Some normalized_txt)
            (Some (normalize_space (Some ans))) in
        let partial_ok := fun ans =>
          let a := Checker.lower normalized_txt in
          let b := Checker.lower (normalize_space (Some ans)) in
          contains a b || contains b a in
        let soft_ok := fun ans =>
          let a := Checker.lower normalized_txt in
          let b := Checker.lower (normalize_space (Some ans)) in
          Qle_bool (8 # 10) (ratio a b) in
        let matcher :=
          if str_eqb mode (lit "exact") then exact_ok
          else if str_eqb mode (lit "partial") then partial_ok
          else if str_eqb mode (lit "soft") then soft_ok
          else exact_ok in
        let ok := existsb matcher answers in
        (ok, if ok then 100%Q else 0%Q)
    end.

End ShortAnswers.

(* ================================================================== *)
(** * Properties of the output judge *)
(* ================================================================== *)

Module JudgeProofs.

Import Judge.

Lemma str_eqb_refl (a : str) : str_eqb a a = true.
Proof.
  induction a as [|x a IH]; simpl; [reflexivity|].
  now rewrite N.eqb_refl, IH.
Qed.

Lemma str_eqb_eq (a b : str) : str_eqb a b = true <-> a = b.
Proof.
  split.
  - revert b; induction a as [|x a IH]; intros [|y b]; simpl;
      try discriminate; try reflexivity.
    intros H. apply andb_true_iff in H as [H1 H2].
    apply N.eqb_eq in H1. apply IH in H2. congruence.
  - intros ->. apply str_eqb_refl.
Qed.

(** SPACE mode on the texts [1  2\n3] and [1 2 3]. *)
Example compare_space_scenario :
  compare literal_re (Some [49; 32; 32; 50; 10; 51]%N) (Some (lit "1 2 3"))
    SPACE = Ok true.
Proof. reflexivity. Qed.

(** NONE mode compares nothing. *)
Lemma compare_none (L : re_lib) (output expected : option str) :
  compare L output expected NONE = Ok true.
Proof. reflexivity. Qed.

(** HARD mode accepts a text against itself. *)
Lemma compare_hard_refl (L : re_lib) (s : option str) :
  compare L s s HARD = Ok true.
Proof.
  unfold compare. rewrite str_eqb_refl. unfold compare_hard.
  now rewrite str_eqb_refl.
Qed.

(** What [compare] does in REGEX mode when the library compiles the
    pattern text or rejects it with [re.error]. *)
Lemma compare_regex_compiled (L : re_lib) (output expected : option str) :
  (forall p, re_compile L (strip (or_empty expected)) true true = Ok p ->
     compare L output expected REGEX
     = Ok (re_fullmatch L p (strip (or_empty output))))
  /\ (forall m, re_compile L (strip (or_empty expected)) true true
                = Raise (ReError m) ->
     compare L output expected REGEX = Ok false).
Proof.
  unfold compare.
  replace (str_eqb REGEX HARD) with false by reflexivity.
  replace (str_eqb REGEX SPACE) with false by reflexivity.
  rewrite str_eqb_refl. unfold compare_regex.
  split; intros ? H; rewrite H; reflexivity.
Qed.

(** C9.  [compare] in REGEX mode does raise: an exception of
    [re.compile] that is not [re.error] passes the handler of
    [compare_regex] and leaves [compare]. *)
Theorem compare_regex_lets_other_errors_through
  (L : re_lib) (output expected : option str) (e : exn) :
  re_compile L (strip (or_empty expected)) true true = Raise e ->
  is_re_error e = false ->
  compare L output expected REGEX = Raise e.
Proof.
  intros H He. unfold compare.
  replace (str_eqb REGEX HARD) with false by reflexivity.
  replace (str_eqb REGEX SPACE) with false by reflexivity.
  rewrite str_eqb_refl. unfold compare_regex. rewrite H.
  destruct e; simpl in *; try reflexivity; discriminate.
Qed.

(** The pattern text [a{4294967296}] against the output [a]. *)
Lemma compare_regex_lets_other_errors_through_witness :
  compare literal_re (Some (lit "a")) (Some (lit "a{4294967296}")) REGEX
  = Raise (OverflowError (lit "the repetition number is too large")).
Proof.
  apply (@compare_regex_lets_other_errors_through literal_re
           (Some (lit "a")) (Some (lit "a{4294967296}"))
           (OverflowError (lit "the repetition number is too large")));
    vm_compute; reflexivity.
Defined.

End JudgeProofs.

(* ================================================================== *)
(** * SPACE normalisation *)
(* ================================================================== *)

Module NormalizeProofs.

Import Judge.

(** ** The matcher on the three patterns *)

Lemma length_dropWhile (p : char -> bool) (s : str) :
  List.length (dropWhile p s) <= List.length s.
Proof.
  induction s as [|c s IH]; simpl; [lia|].
  destruct (p c); simpl; lia.
Qed.

Lemma dropWhile_head (p : char -> bool) (s : str) (x : char) (t : str) :
  dropWhile p s = x :: t -> p x = false.
Proof.
  induction s as [|c s IH]; simpl; [discriminate|].
  destruct (p c) eqn:Hc; [exact IH|].
  intros H. injection H as <- _. exact Hc.
Qed.

Lemma dropWhile_fix (p : char -> bool) (s : str) :
  match s with [] => True | c :: _ => p c = false end ->
  dropWhile p s = s.
Proof.
  destruct s as [|c s]; simpl; [reflexivity|]. now intros ->.
Qed.

(** A continuation that accepts everything gets the longest run. *)
Lemma star_greedy {A} (p : char -> bool) (f : str -> A) (s : str) :
  Re.star p (fun rest => Some (f rest)) s = Some (f (dropWhile p s)).
Proof.
  induction s as [|c s IH]; simpl; [reflexivity|].
  destruct (p c); [now rewrite IH | reflexivity].
Qed.

(** A continuation that refuses every text starting in the class gets
    the longest run or nothing: backtracking finds no other match. *)
Lemma star_backtrack {A} (p : char -> bool) (k : str -> option A) (s : str) :
  (forall c t, p c = true -> k (c :: t) = None) ->
  Re.star p k s = k (dropWhile p s).
Proof.
  intros Hk. induction s as [|c s IH]; simpl; [reflexivity|].
  destruct (p c) eqn:Hc; [|reflexivity].
  rewrite IH. destruct (k (dropWhile p s)) eqn:Hd; [reflexivity|].
  now apply Hk.
Qed.

Lemma bracket_not_space (c : char) : isbracket c = true -> isspace c = false.
Proof.
  unfold isbracket. intros H.
  repeat (apply orb_true_iff in H as [H|H]);
    apply N.eqb_eq in H; subst c; reflexivity.
Qed.

Lemma comma_not_space (c : char) : iscomma c = true -> isspace c = false.
Proof.
  unfold iscomma. intros H. apply N.eqb_eq in H. subst c. reflexivity.
Qed.

Lemma comma_not_bracket (c : char) : iscomma c = true -> isbracket c = false.
Proof.
  unfold iscomma. intros H. apply N.eqb_eq in H. subst c. reflexivity.
Qed.

Lemma match_ws_run (s : str) :
  Re.match_at ws_run s =
  match s with
  | [] => None
  | c :: t => if isspace c then Some ([], dropWhile isspace t) else None
  end.
Proof.
  unfold Re.match_at, ws_run. simpl. destruct s as [|c t]; [reflexivity|].
  destruct (isspace c); [|reflexivity].
  apply (star_greedy isspace (fun rest => (@nil (nat * str), rest))).
Qed.

Lemma match_around_bracket (s : str) :
  Re.match_at around_bracket s =
  match dropWhile isspace s with
  | [] => None
  | b :: t =>
      if isbracket b then Some ([(1, [b])], dropWhile isspace t) else None
  end.
Proof.
  unfold Re.match_at, around_bracket. simpl.
  rewrite star_backtrack.
  - destruct (dropWhile isspace s) as [|b t]; [reflexivity|].
    destruct (isbracket b); [|reflexivity].
    change (List.length (b :: t)) with (S (List.length t)).
    replace (S (List.length t) - List.length t) with 1 by lia.
    simpl.
    apply (star_greedy isspace (fun rest => ([(1, [b])], rest))).
  - intros c t Hc.
    destruct (isbracket c) eqn:Hb; [|reflexivity].
    apply bracket_not_space in Hb. congruence.
Qed.

Lemma match_after_comma (s : str) :
  Re.match_at after_comma s =
  match s with
  | [] => None
  | c :: t => if iscomma c then Some ([], dropWhile isspace t) else None
  end.
Proof.
  unfold Re.match_at, after_comma. simpl. destruct s as [|c t]; [reflexivity|].
  destruct (iscomma c); [|reflexivity].
  apply (star_greedy isspace (fun rest => (@nil (nat * str), rest))).
Qed.

(** ** [re.sub] does not depend on its fuel *)

Lemma sub_fuel_enough (r : Re.regex) (repl : Re.caps -> str) :
  forall n m s,
    List.length s < n -> List.length s < m ->
    Re.sub_fuel n r repl s = Re.sub_fuel m r repl s.
Proof.
  induction n as [|n IH]; intros m s Hn Hm; [lia|].
  destruct m as [|m]; [lia|]. simpl.
  assert (Hstep :
    match s with [] => [] | c :: s' => c :: Re.sub_fuel n r repl s' end
    = match s with [] => [] | c :: s' => c :: Re.sub_fuel m r repl s' end).
  { destruct s as [|c s']; [reflexivity|]. simpl in Hn, Hm.
    f_equal. apply IH; lia. }
  destruct (Re.match_at r s) as [[g rest]|]; [|exact Hstep].
  destruct (Nat.ltb (List.length rest) (List.length s)) eqn:Hlt.
  - apply Nat.ltb_lt in Hlt. f_equal. apply IH; lia.
  - now rewrite Hstep.
Qed.

Lemma sub_fuel_S (n : nat) (r : Re.regex) (repl : Re.caps -> str) (s : str) :
  Re.sub_fuel (S n) r repl s =
  match Re.match_at r s with
  | Some (g, rest) =>
      if Nat.ltb (List.length rest) (List.length s)
      then repl g ++ Re.sub_fuel n r repl rest
      else repl g ++ match s with
                     | [] => []
                     | c :: s' => c :: Re.sub_fuel n r repl s'
                     end
  | None => match s with
            | [] => []
            | c :: s' => c :: Re.sub_fuel n r repl s'
            end
  end.
Proof. reflexivity. Qed.

Lemma sub_nil (r : Re.regex) (repl : Re.caps -> str) :
  Re.match_at r [] = None -> Re.sub r repl [] = [].
Proof. unfold Re.sub. simpl. now intros ->. Qed.

Lemma sub_skip (r : Re.regex) (repl : Re.caps -> str) (c : char) (s : str) :
  Re.match_at r (c :: s) = None ->
  Re.sub r repl (c :: s) = c :: Re.sub r repl s.
Proof.
  intros H. unfold Re.sub. cbn [Re.sub_fuel]. now rewrite H.
Qed.

Lemma sub_match (r : Re.regex) (repl : Re.caps -> str) (s : str)
  (g : Re.caps) (rest : str) :
  Re.match_at r s = Some (g, rest) ->
  List.length rest < List.length s ->
  Re.sub r repl s = repl g ++ Re.sub r repl rest.
Proof.
  intros H Hlt. unfold Re.sub. rewrite (sub_fuel_S (List.length s)), H.
  apply Nat.ltb_lt in Hlt as Hb. rewrite Hb. f_equal.
  apply sub_fuel_enough; lia.
Qed.

(** ** The three substitutions as equations *)

Lemma collapse_nil : collapse [] = [].
Proof. reflexivity. Qed.

Lemma collapse_cons (c : char) (s : str) :
  collapse (c :: s) =
  if isspace c then sp :: collapse (dropWhile isspace s)
  else c :: collapse s.
Proof.
  unfold collapse. destruct (isspace c) eqn:Hc.
  - rewrite (@sub_match _ _ (c :: s) [] (dropWhile isspace s)).
    + reflexivity.
    + now rewrite match_ws_run, Hc.
    + pose proof (length_dropWhile isspace s). simpl. lia.
  - apply sub_skip. now rewrite match_ws_run, Hc.
Qed.

Lemma debracket_nil : debracket [] = [].
Proof. reflexivity. Qed.

Lemma debracket_cons (c : char) (s : str) :
  debracket (c :: s) =
  match dropWhile isspace (c :: s) with
  | [] => c :: debracket s
  | b :: t =>
      if isbracket b then b :: debracket (dropWhile isspace t)
      else c :: debracket s
  end.
Proof.
  unfold debracket.
  pose proof (match_around_bracket (c :: s)) as Hm.
  pose proof (length_dropWhile isspace (c :: s)) as Hlen.
  destruct (dropWhile isspace (c :: s)) as [|b t] eqn:Hd.
  - now apply sub_skip.
  - destruct (isbracket b) eqn:Hb.
    + rewrite (@sub_match _ group1 _ _ _ Hm); [reflexivity|].
      pose proof (length_dropWhile isspace t). simpl in *. lia.
    + now apply sub_skip.
Qed.

Lemma decomma_nil : decomma [] = [].
Proof. reflexivity. Qed.

Lemma decomma_cons (c : char) (s : str) :
  decomma (c :: s) =
  if iscomma c then comma :: decomma (dropWhile isspace s)
  else c :: decomma s.
Proof.
  unfold decomma. destruct (iscomma c) eqn:Hc.
  - rewrite (@sub_match _ _ (c :: s) [] (dropWhile isspace s)).
    + reflexivity.
    + now rewrite match_after_comma, Hc.
    + pose proof (length_dropWhile isspace s). simpl. lia.
  - apply sub_skip. now rewrite match_after_comma, Hc.
Qed.

(** ** Neighbours *)

Lemma no_adj_tail (bad : char -> char -> bool) (x : char) (s : str) :
  no_adj bad (x :: s) -> no_adj bad s.
Proof. simpl. tauto. Qed.

Lemma no_adj_dropWhile (bad : char -> char -> bool) (p : char -> bool)
  (s : str) : no_adj bad s -> no_adj bad (dropWhile p s).
Proof.
  induction s as [|c s IH]; simpl; [tauto|].
  intros [H1 H2]. destruct (p c); [now apply IH|]. simpl. tauto.
Qed.

Lemma in_dropWhile (p : char -> bool) (x : char) (s : str) :
  In x (dropWhile p s) -> In x s.
Proof.
  induction s as [|c s IH]; simpl; [tauto|].
  destruct (p c); simpl; tauto.
Qed.

Lemma plain_incl (s t : str) :
  (forall x, In x t -> In x s) -> plain s -> plain t.
Proof.
  unfold plain. rewrite !Forall_forall. intros Hi H x Hx. apply H, Hi, Hx.
Qed.

Lemma head_ok_dropWhile (p : char -> bool) (s : str) :
  head_ok p (dropWhile p s).
Proof.
  destruct (dropWhile p s) as [|x t] eqn:H; simpl; [exact I|].
  exact (dropWhile_head _ _ H).
Qed.

(** ** What each step establishes *)

Lemma collapse_props (n : nat) :
  forall s, List.length s <= n ->
    plain (collapse s) /\ no_adj ws_ws (collapse s)
    /\ (head_ok isspace s -> head_ok isspace (collapse s)).
Proof.
  induction n as [|n IH]; intros [|c s] Hlen; simpl in Hlen;
    try (rewrite collapse_nil; repeat split; constructor); try lia.
  rewrite collapse_cons. destruct (isspace c) eqn:Hc.
  - pose proof (length_dropWhile isspace s) as Hd.
    destruct (IH (dropWhile isspace s) ltac:(lia)) as (Hp & Ha & Hh).
    specialize (Hh (head_ok_dropWhile isspace s)).
    repeat split.
    + constructor; [reflexivity | exact Hp].
    + destruct (collapse (dropWhile isspace s)) as [|y u]; [exact I|].
      simpl in Hh. unfold ws_ws. now rewrite Hh, andb_false_r.
    + exact Ha.
    + simpl. congruence.
  - destruct (IH s ltac:(lia)) as (Hp & Ha & _).
    repeat split.
    + constructor; [congruence | exact Hp].
    + destruct (collapse s) as [|y u]; [exact I|].
      unfold ws_ws. now rewrite Hc.
    + exact Ha.
    + simpl. tauto.
Qed.

(** The first character of [debracket s] is the bracket that the
    leading white space of [s] runs into, or the first of [s]. *)
Lemma debracket_head (s : str) (x : char) (u : str) :
  debracket s = x :: u ->
  (isbracket x = true /\ exists t, dropWhile isspace s = x :: t)
  \/ (isbracket x = false /\ exists t, s = x :: t).
Proof.
  destruct s as [|c s]; [rewrite debracket_nil; discriminate|].
  rewrite debracket_cons.
  destruct (dropWhile isspace (c :: s)) as [|b t] eqn:Hd.
  - intros H. injection H as <- _.
    destruct (isbracket c) eqn:Hb; [|right; eauto].
    apply bracket_not_space in Hb. simpl in Hd. rewrite Hb in Hd.
    discriminate.
  - destruct (isbracket b) eqn:Hb; intros H; injection H as <- _.
    + left. eauto.
    + destruct (isbracket c) eqn:Hc; [|right; eauto].
      pose proof (bracket_not_space _ Hc) as Hs. simpl in Hd.
      rewrite Hs in Hd. injection Hd as -> _. congruence.
Qed.

Lemma debracket_head_not_space (s : str) :
  head_ok isspace s -> head_ok isspace (debracket s).
Proof.
  intros Hs. destruct (debracket s) as [|x u] eqn:H; simpl; [exact I|].
  destruct (debracket_head _ H) as [[Hb _]|[_ [t ->]]].
  - now apply bracket_not_space.
  - exact Hs.
Qed.

Lemma debracket_props (n : nat) :
  forall s, List.length s <= n ->
    (forall x, In x (debracket s) -> In x s)
    /\ no_adj ws_br (debracket s)
    /\ (no_adj ws_ws s -> no_adj ws_ws (debracket s)).
Proof.
  induction n as [|n IH]; intros [|c s] Hlen; simpl in Hlen;
    try (rewrite debracket_nil; repeat split; simpl; tauto); try lia.
  rewrite debracket_cons.
  pose proof (length_dropWhile isspace (c :: s)) as Hdl.
  destruct (IH s ltac:(lia)) as (Hi & Hc & Hw).
  assert (Hkeep :
    (match dropWhile isspace (c :: s) with
     | b :: _ => isbracket b = false
     | [] => True
     end) ->
    (forall x, In x (c :: debracket s) -> In x (c :: s))
    /\ no_adj ws_br (c :: debracket s)
    /\ (no_adj ws_ws (c :: s) -> no_adj ws_ws (c :: debracket s))).
  { intros Hnb. split; [|split; [split|intros Hin; split]].
    - intros x [->|Hx]; simpl; auto.
    - destruct (debracket s) as [|y u] eqn:Hy; [exact I|].
      unfold ws_br.
      assert (Hcb : isbracket c = false).
      { destruct (isbracket c) eqn:Hcb; [|reflexivity].
        pose proof (bracket_not_space _ Hcb) as Hcs.
        simpl in Hnb. rewrite Hcs in Hnb. congruence. }
      rewrite Hcb. simpl. rewrite orb_false_r.
      destruct (isspace c) eqn:Hcs; [|reflexivity]. simpl.
      destruct (debracket_head _ Hy) as [[Hb [t Ht]]|[Hb _]];
        [|exact Hb].
      simpl in Hnb. rewrite Hcs, Ht in Hnb. congruence.
    - exact Hc.
    - destruct (debracket s) as [|y u] eqn:Hy; [exact I|].
      destruct (debracket_head _ Hy) as [[Hb _]|[_ [t ->]]].
      + unfold ws_ws. rewrite (bracket_not_space _ Hb).
        apply andb_false_r.
      + simpl in Hin. tauto.
    - apply Hw. exact (@no_adj_tail _ _ _ Hin). }
  destruct (dropWhile isspace (c :: s)) as [|b t] eqn:Hd;
    [apply Hkeep; exact I|].
  destruct (isbracket b) eqn:Hb; [|apply Hkeep; reflexivity].
  clear Hkeep.
  pose proof (length_dropWhile isspace t) as Htl. simpl in Hdl.
  destruct (IH (dropWhile isspace t) ltac:(lia)) as (Hi' & Hc' & Hw').
  pose proof (debracket_head_not_space _ (head_ok_dropWhile isspace t))
    as Hh.
  split; [|split; [split|intros Hin; split]].
  - intros x [<-|Hx].
    + apply (in_dropWhile isspace). rewrite Hd. now left.
    + apply (in_dropWhile isspace). rewrite Hd. right.
      apply (in_dropWhile isspace). now apply Hi'.
  - destruct (debracket (dropWhile isspace t)) as [|y u]; [exact I|].
    simpl in Hh. unfold ws_br. rewrite Hh, (bracket_not_space _ Hb).
    simpl. apply andb_false_r.
  - exact Hc'.
  - destruct (debracket (dropWhile isspace t)) as [|y u]; [exact I|].
    unfold ws_ws. now rewrite (bracket_not_space _ Hb).
  - apply Hw'. apply no_adj_dropWhile.
    apply (no_adj_dropWhile _ isspace) in Hin. rewrite Hd in Hin.
    exact (@no_adj_tail _ _ _ Hin).
Qed.

Lemma iscomma_eq (c : char) : iscomma c = true -> c = comma.
Proof. unfold iscomma. apply N.eqb_eq. Qed.

(** [decomma] keeps the first character. *)
Lemma decomma_head (c : char) (s : str) :
  exists u, decomma (c :: s) = c :: u.
Proof.
  rewrite decomma_cons. destruct (iscomma c) eqn:Hc; [|eauto].
  apply iscomma_eq in Hc. subst c. eauto.
Qed.

Lemma decomma_props (n : nat) :
  forall s, List.length s <= n ->
    (forall x, In x (decomma s) -> In x s)
    /\ no_adj comma_ws (decomma s)
    /\ (forall bad, (forall y, bad comma y = false) ->
          no_adj bad s -> no_adj bad (decomma s)).
Proof.
  induction n as [|n IH]; intros [|c s] Hlen; simpl in Hlen;
    try (rewrite decomma_nil; repeat split; simpl; tauto); try lia.
  rewrite decomma_cons. destruct (iscomma c) eqn:Hc.
  - apply iscomma_eq in Hc as Hce. subst c.
    pose proof (length_dropWhile isspace s) as Hdl.
    destruct (IH (dropWhile isspace s) ltac:(lia)) as (Hi & Hd & Hb).
    pose proof (head_ok_dropWhile isspace s) as Hh.
    split; [|split; [split|intros bad Hbad Hin; split]].
    + intros x [<-|Hx]; [now left|]. right.
      apply (in_dropWhile isspace). now apply Hi.
    + destruct (dropWhile isspace s) as [|y t] eqn:Hds;
        [rewrite decomma_nil; exact I|].
      destruct (decomma_head y t) as [u ->]. simpl in Hh.
      unfold comma_ws. now rewrite Hh, andb_false_r.
    + exact Hd.
    + destruct (decomma (dropWhile isspace s)); [exact I | apply Hbad].
    + apply Hb; [exact Hbad|]. apply no_adj_dropWhile.
      exact (@no_adj_tail _ _ _ Hin).
  - destruct (IH s ltac:(lia)) as (Hi & Hd & Hb).
    split; [|split; [split|intros bad Hbad Hin; split]].
    + intros x [<-|Hx]; simpl; auto.
    + destruct (decomma s); [exact I|]. unfold comma_ws. now rewrite Hc.
    + exact Hd.
    + destruct s as [|y t]; [rewrite decomma_nil; exact I|].
      destruct (decomma_head y t) as [u ->]. simpl in Hin. tauto.
    + apply Hb; [exact Hbad|]. exact (@no_adj_tail _ _ _ Hin).
Qed.

(** ** [strip] *)

Lemma rstrip_head (s : str) (y : char) (r : str) :
  rstrip s = y :: r -> exists t, s = y :: t.
Proof.
  destruct s as [|c s]; simpl; [discriminate|].
  destruct (rstrip s) as [|z r'].
  - destruct (isspace c); [discriminate|].
    intros H. injection H as <- _. eauto.
  - intros H. injection H as <- _. eauto.
Qed.

Lemma in_rstrip (s : str) (x : char) : In x (rstrip s) -> In x s.
Proof.
  induction s as [|c s IH]; simpl; [tauto|].
  destruct (rstrip s) as [|z r].
  - destruct (isspace c); simpl; tauto.
  - intros [->|H]; auto.
Qed.

Lemma no_adj_rstrip (bad : char -> char -> bool) (s : str) :
  no_adj bad s -> no_adj bad (rstrip s).
Proof.
  induction s as [|c s IH]; simpl; [tauto|].
  intros [H1 H2]. specialize (IH H2).
  destruct (rstrip s) as [|z r] eqn:Hr.
  - destruct (isspace c); simpl; tauto.
  - destruct (rstrip_head _ Hr) as [t ->]. simpl in H1.
    split; [exact H1 | exact IH].
Qed.

Lemma rstrip_idem (s : str) : rstrip (rstrip s) = rstrip s.
Proof.
  induction s as [|c s IH]; simpl; [reflexivity|].
  destruct (rstrip s) as [|z r] eqn:Hr.
  - destruct (isspace c) eqn:Hc; simpl; [reflexivity|]. now rewrite Hc.
  - simpl in *. now rewrite IH.
Qed.

Lemma head_ok_rstrip (p : char -> bool) (s : str) :
  head_ok p s -> head_ok p (rstrip s).
Proof.
  intros H. destruct (rstrip s) as [|y r] eqn:Hr; [exact I|].
  destruct (rstrip_head _ Hr) as [t ->]. exact H.
Qed.

(** ** The result of [normalize_space] is normal *)

Lemma normalize_space_normal (text : option str) :
  normal (normalize_space text).
Proof.
  unfold normalize_space.
  set (s1 := replace1 nl sp (or_empty text)).
  destruct (@collapse_props _ s1 (le_n _)) as (Hp2 & Hw2 & _).
  set (s2 := collapse s1) in *.
  destruct (@debracket_props _ s2 (le_n _)) as (Hi3 & Hb3 & Hw3).
  set (s3 := debracket s2) in *.
  destruct (@decomma_props _ s3 (le_n _)) as (Hi4 & Hc4 & Hk4).
  set (s4 := decomma s3) in *.
  assert (Hp4 : plain s4).
  { apply (plain_incl (s := s3)); [exact Hi4|].
    apply (plain_incl (s := s2)); assumption. }
  assert (Hw4 : no_adj ws_ws s4).
  { apply Hk4; [reflexivity | now apply Hw3]. }
  assert (Hb4 : no_adj ws_br s4).
  { apply Hk4; [reflexivity | exact Hb3]. }
  unfold normal, strip, lstrip.
  repeat split.
  - apply (plain_incl (s := s4)); [|exact Hp4].
    intros x Hx. apply (in_dropWhile isspace). now apply in_rstrip.
  - now apply no_adj_rstrip, no_adj_dropWhile.
  - now apply no_adj_rstrip, no_adj_dropWhile.
  - now apply no_adj_rstrip, no_adj_dropWhile.
  - apply dropWhile_fix. apply (head_ok_rstrip isspace).
    apply head_ok_dropWhile.
  - apply rstrip_idem.
Qed.

(** ** A normal text is a fixed point of every step *)

Lemma no_adj_head (bad : char -> char -> bool) (c : char) (s : str) :
  no_adj bad (c :: s) -> (forall y, bad c y = false -> isspace y = false) ->
  dropWhile isspace s = s.
Proof.
  intros [H _] Hb. apply dropWhile_fix.
  destruct s as [|y t]; simpl; [exact I|]. now apply Hb.
Qed.

Lemma replace1_plain (s : str) : plain s -> replace1 nl sp s = s.
Proof.
  unfold plain, replace1. induction 1 as [|c s Hc _ IH]; simpl;
    [reflexivity|].
  rewrite IH. destruct (N.eqb_spec c nl) as [->|_]; [|reflexivity].
  specialize (Hc eq_refl). discriminate Hc.
Qed.

Lemma collapse_fixed (s : str) :
  plain s -> no_adj ws_ws s -> collapse s = s.
Proof.
  induction s as [|c s IH]; intros Hp Hw; [apply collapse_nil|].
  rewrite collapse_cons. inversion Hp as [|? ? Hc Hp']; subst.
  destruct (isspace c) eqn:Hs.
  - rewrite (no_adj_head Hw).
    + rewrite (IH Hp' (@no_adj_tail _ _ _ Hw)).
      now rewrite (Hc eq_refl).
    + intros y. unfold ws_ws. now rewrite Hs.
  - now rewrite (IH Hp' (@no_adj_tail _ _ _ Hw)).
Qed.

Lemma debracket_fixed (s : str) :
  no_adj ws_ws s -> no_adj ws_br s -> debracket s = s.
Proof.
  induction s as [|c s IH]; intros Hw Hb; [apply debracket_nil|].
  rewrite debracket_cons.
  specialize (IH (@no_adj_tail _ _ _ Hw) (@no_adj_tail _ _ _ Hb)).
  destruct (isspace c) eqn:Hs.
  - simpl. rewrite Hs.
    rewrite (no_adj_head Hw) by (intros y; unfold ws_ws; now rewrite Hs).
    destruct s as [|y t]; [now rewrite IH|].
    destruct Hb as [Hb _]. unfold ws_br in Hb. rewrite Hs in Hb.
    simpl in Hb. apply orb_false_iff in Hb as [Hb _].
    now rewrite Hb, IH.
  - simpl. rewrite Hs. destruct (isbracket c) eqn:Hc; [|now rewrite IH].
    rewrite (no_adj_head Hb); [now rewrite IH|].
    intros y. unfold ws_br. rewrite Hs, Hc. simpl. tauto.
Qed.

Lemma decomma_fixed (s : str) : no_adj comma_ws s -> decomma s = s.
Proof.
  induction s as [|c s IH]; intros Hc; [apply decomma_nil|].
  rewrite decomma_cons. specialize (IH (@no_adj_tail _ _ _ Hc)).
  destruct (iscomma c) eqn:Hk; [|now rewrite IH].
  rewrite (no_adj_head Hc).
  - rewrite IH. now rewrite (iscomma_eq _ Hk).
  - intros y. unfold comma_ws. now rewrite Hk.
Qed.

Lemma normalize_space_fixed (s : str) :
  normal s -> normalize_space (Some s) = s.
Proof.
  intros (Hp & Hw & Hb & Hc & Hl & Hr).
  unfold normalize_space. simpl.
  rewrite replace1_plain by exact Hp.
  rewrite collapse_fixed by assumption.
  rewrite debracket_fixed by assumption.
  rewrite decomma_fixed by exact Hc.
  unfold strip. now rewrite Hl, Hr.
Qed.

(** C10.  [normalize_space] is idempotent: normalising a normalised
    text gives the same text. *)
Theorem normalize_space_idempotent (text : option str) :
  normalize_space (Some (normalize_space text)) = normalize_space text.
Proof.
  apply normalize_space_fixed, normalize_space_normal.
Qed.

End NormalizeProofs.

(* ================================================================== *)
(** * Properties of the aggregation *)
(* ================================================================== *)

Module FeedbackProofs.

Import Dict Feedback.

Lemma all_required_ok_spec (cs : list cond_dict) :
  all_required_ok cs = true <->
  (forall it, In it cs ->
     get (is_required it) true = true -> get (passed it) false = true).
Proof.
  unfold all_required_ok. rewrite forallb_forall.
  split; intros H it Hin.
  - intros Hreq. specialize (H it Hin). rewrite Hreq in H. exact H.
  - specialize (H it Hin).
    destruct (get (is_required it) true); simpl; auto.
Qed.

Lemma all_required_ok_rescored (f : cond_dict -> Q) (cs : list cond_dict) :
  all_required_ok (List.map (fun it => with_score it (f it)) cs)
  = all_required_ok cs.
Proof.
  unfold all_required_ok. induction cs as [|it cs IH]; simpl; [reflexivity|].
  now rewrite IH.
Qed.

(** C8.  [all_status] is success exactly when every condition that is
    required (also by default) has passed; it is success on an empty or
    absent list; and it is the same whatever the percent, the maximum
    points and the scores written in the conditions are. *)
Theorem all_status_required_conditions
  (pct max_points : Q) (fb by_ : str) (cs : option (list cond_dict)) :
  let o := generate_for_problem_type pct fb by_ max_points cs in
  (all_status o = success <->
   (forall it, In it (get cs []) ->
      get (is_required it) true = true -> get (passed it) false = true))
  /\ all_status (generate_for_problem_type pct fb by_ max_points (Some []))
     = success
  /\ all_status (generate_for_problem_type pct fb by_ max_points None)
     = success
  /\ (forall (pct' max_points' : Q) (fb' by' : str) (f : cond_dict -> Q),
        all_status
          (generate_for_problem_type pct' fb' by' max_points'
             (option_map (List.map (fun it => with_score it (f it))) cs))
        = all_status o).
Proof.
  simpl. repeat split.
  - intros H. apply all_required_ok_spec.
    destruct (all_required_ok (get cs [])); [reflexivity|discriminate].
  - intros H. apply all_required_ok_spec in H. now rewrite H.
  - intros pct' max' fb' by' f. destruct cs as [cs|]; simpl;
      [now rewrite all_required_ok_rescored | reflexivity].
Qed.

End FeedbackProofs.

(* ================================================================== *)
(** * Properties of the score distribution *)
(* ================================================================== *)

Module ScoresProofs.

Import Num Dict Scores.
Local Open Scope Q_scope.

(** ** Rounding to hundredths *)











(** ** Sums *)

Lemma fold_left_Qplus (xs : list Q) (a : Q) :
  fold_left Qplus xs a == a + qsum xs.
Proof.
  unfold qsum. revert a. induction xs as [|x xs IH]; intros a; simpl.
  - lra.
  - rewrite (IH (a + x)), (IH (0 + x)). lra.
Qed.

Lemma qsum_cons (x : Q) (xs : list Q) : qsum (x :: xs) == x + qsum xs.
Proof.
  unfold qsum at 1. simpl. rewrite fold_left_Qplus. lra.
Qed.


(** ** The two loops *)







(** C2.  On the items (passed, 1), (failed, 1), (passed, 2) and 40
    points the allocations are 10, 10 and 20, but the scores returned
    are 20, 0 and 20 and the earned total is 40: the gap of 10 that the
    failed item leaves goes to the first passing item. *)
Theorem distribute_scenario_moves_failed_share :
  let items := [item true 1; item false 1; item true 2] in
  let r := distribute_condition_scores items 40 in
  List.map (allocated (per_unit items 40)) items = [10; 10; 20]
  /\ List.map score (fst r) = [Some 20; Some 0; Some 20]
  /\ snd r = 40.
Proof.
  vm_compute. repeat split; reflexivity.
Qed.

End ScoresProofs.

(* ================================================================== *)
(** * Properties of the condition checker *)
(* ================================================================== *)

Module CheckerProofs.

Import Checker.

(** The pattern of the recursion check does not compile. *)
Lemma recursion_pattern_rejected :
  Re.compile recursion_pattern = Raise (ReError (lit "invalid group reference")).
Proof. reflexivity. Qed.

(** A performance condition with a number in its text is evaluated. *)
Example time_limit_with_number :
  check_all_conditions [condition_of "Time limit 200.5 ms" performance]
    [] None None 100%Q
  = Ok [mk_result (condition_of "Time limit 200.5 ms" performance) true
          (FbTime 100%Q (Qplus (inject_Z 200) (Qmake 5 10)) true)].
Proof. reflexivity. Qed.

(** C4.  [check_all_conditions] raises on two kinds of condition,
    whatever the code, the outputs and the execution time are: a
    performance condition whose text has "time limit" and no number
    ([re.search] gives [None], whose [group] is looked up), and a
    code_analysis condition that reaches the recursion check (its
    pattern refers to a group it does not have). *)
Theorem check_all_conditions_raises
  (code : str) (output expected_output : option str) (execution_time : Q) :
  check_all_conditions [condition_of "time limit" performance]
    code output expected_output execution_time
  = Raise (AttributeError (lit "'NoneType' object has no attribute 'group'"))
  /\ check_all_conditions [condition_of "recursion" code_analysis]
       code output expected_output execution_time
     = Raise (ReError (lit "invalid group reference")).
Proof.
  split; reflexivity.
Qed.

End CheckerProofs.

(* ================================================================== *)
(** * Properties of the code runner *)
(* ================================================================== *)

Module RunnerProofs.

Import Judge Runner.

(** The command templates of every language format without error. *)
Lemma run_command_ok (file_path base_name : str) (l : language) :
  exists cmd, run_command file_path l base_name = Ok cmd.
Proof.
  destruct l; eexists; reflexivity.
Qed.

Lemma compile_command_ok (file_path base_name : str) (l : language) :
  exists cmd, compile_command file_path l base_name = Ok cmd.
Proof.
  destruct l; eexists; reflexivity.
Qed.

(** The runtime check never raises on the five languages. *)
Lemma _check_runtime_total (env : os_env) (l : language) :
  _check_runtime env l = Ok (true, [])
  \/ exists msg, _check_runtime env l = Ok (false, msg).
Proof.
  destruct l; unfold _check_runtime, check_bins; simpl;
    repeat match goal with
    | |- context [which env ?b] => destruct (which env b)
    end; simpl; eauto.
Qed.

Ltac run_monad :=
  unfold bind, lift, catch, finally, ret, raise, Popen, psutil_Process,
    communicate, call_set, call_join, index0, _sample_peak_rss; simpl.

Ltac settle_case :=
  eexists; eexists; split;
  [ reflexivity
  | split; [ intros [H|H]; try discriminate H; reflexivity | reflexivity ] ].

(** A test case always gets a result: no exception leaves
    [_run_test_case]. *)
Lemma _run_test_case_total (env : os_env) (L : re_lib) (file_path : str)
  (l : language) (base_name : str) (tc : TestCaseInput) (idx : nat)
  (rating_mode : str) (st : os_state) :
  exists r st',
    _run_test_case env L file_path l base_name tc idx rating_mode st
    = (Ok r, st')
    /\ failure_not_passed r /\ test_case_index r = idx.
Proof.
  destruct (run_command_ok file_path base_name l) as [cmd Hcmd].
  unfold run_command in Hcmd. unfold _run_test_case, failure_not_passed.
  rewrite Hcmd. run_monad.
  destruct (spawn env (calls st) cmd) as [e|d pe pk o]; simpl.
  { destruct e; settle_case. }
  destruct pe as [e|]; simpl.
  { destruct e; settle_case. }
  destruct o as [out err rc ms| |e]; simpl.
  - destruct (_judge L (strip out) (expected_output tc) rating_mode)
      as [b|e]; simpl; [settle_case | destruct e; settle_case].
  - settle_case.
  - destruct e; settle_case.
Qed.

Lemma run_cases_total (env : os_env) (L : re_lib) (file_path : str)
  (l : language) (base_name : str) (rating_mode : str)
  (tcs : list TestCaseInput) :
  forall (i : nat) (st : os_state),
  exists rs st',
    run_cases env L file_path l base_name rating_mode i tcs st = (Ok rs, st')
    /\ List.length rs = List.length tcs
    /\ Forall failure_not_passed rs.
Proof.
  induction tcs as [|tc tcs IH]; intros i st; simpl.
  - exists [], st. repeat split. constructor.
  - destruct (_run_test_case_total env L file_path l base_name tc i
                rating_mode st) as (r & st1 & Hr & Hp & _).
    destruct (IH (S i) st1) as (rs & st2 & Hrs & Hlen & Hall).
    exists (r :: rs), st2. unfold bind. rewrite Hr, Hrs. simpl.
    repeat split; [now rewrite Hlen | now constructor].
Qed.

Lemma missing_runtime_results_uniform (msg : str)
  (tcs : list TestCaseInput) :
  forall i : nat,
  List.length (missing_runtime_results msg i tcs) = List.length tcs
  /\ Forall (fun r => status r = ES.ERROR /\ error r = Some msg
                       /\ passed r = false)
       (missing_runtime_results msg i tcs).
Proof.
  induction tcs as [|tc tcs IH]; intros i; simpl.
  - split; [reflexivity | constructor].
  - destruct (IH (S i)) as [Hlen Hall]. split; [now rewrite Hlen|].
    constructor; [repeat split | exact Hall].
Qed.

(** The compilation of a compiled language fails on every machine: the
    three values of [_sample_peak_rss] are bound in the wrong order, so
    once the compiler runs, [stop.set()] is called on the thread. *)
Lemma _compile_code_fails (env : os_env) (file_path : str) (l : language)
  (base_name : str) (st : os_state) :
  is_compiled l = true ->
  exists err st',
    _compile_code env file_path l base_name st = (Ok (false, err, PInt 0), st')
    /\ (forall cmd d pk o,
          compile_command file_path l base_name = Ok cmd ->
          spawn env (calls st) cmd = Spawned d None pk o ->
          err = thread_has_no_set).
Proof.
  intros Hl.
  destruct (compile_command_ok file_path base_name l) as [cmd Hcmd].
  unfold compile_command in Hcmd. unfold _compile_code.
  destruct l; try discriminate Hl; simpl in Hcmd |- *;
    unfold compile_command; simpl; rewrite Hcmd; run_monad;
    (destruct (spawn env (calls st) cmd) as [e|d pe pk o] eqn:Hs; simpl;
     [ destruct e; eexists; eexists; (split; [reflexivity|]);
       intros ? ? ? ? Hc Hs'; injection Hc as <-; congruence
     | destruct pe as [e|]; simpl;
       [ destruct e; eexists; eexists; (split; [reflexivity|]);
         intros ? ? ? ? Hc Hs'; injection Hc as <-; congruence
       | destruct o as [out err rc ms| |e]; simpl;
         eexists; eexists; (split; [reflexivity|]); reflexivity ] ]).
Qed.

(** A Python program that prints [hi], one test case, HARD mode: one
    SUCCESS result that passed. *)
Example run_code_prints_hi :
  exists out st',
    run_code env_no_gcc literal_re (lit "print('hi')") python [tc_hi] HARD
      boot = (Ok out, st')
    /\ List.map (fun r => (status r, passed r)) (results out)
       = [(ES.SUCCESS, true)]
    /\ overall_status out = success.
Proof.
  eexists; eexists; split; [reflexivity | split; reflexivity].
Qed.

(** C7.  Every result of [run_code], on every path, has not passed
    when its status is TIMEOUT or ERROR; so has every result of
    [_run_test_case], in every language. *)
Theorem timeout_and_error_never_pass (env : os_env) (L : re_lib)
  (code : str) (l : language) (tcs : list TestCaseInput)
  (rating_mode : str) (st : os_state) :
  (exists out st',
     run_code env L code l tcs rating_mode st = (Ok out, st')
     /\ Forall failure_not_passed (results out))
  /\ (forall file_path base_name tc idx,
        exists r st',
          _run_test_case env L file_path l base_name tc idx rating_mode st
          = (Ok r, st')
          /\ failure_not_passed r).
Proof.
  split.
  - unfold run_code.
    destruct (_check_runtime_total env l) as [Hrt|[msg Hrt]];
      rewrite Hrt; unfold bind at 1; unfold lift; simpl.
    + destruct (compile_step env (tmp_base env ++ file_ext (language_configs l))
                  l (tmp_base env) st) as [[[[okc errc] pkc]|e] st1] eqn:Hc.
      * unfold bind at 1. rewrite Hc. destruct okc; simpl.
        -- destruct (run_cases_total env L
                       (tmp_base env ++ file_ext (language_configs l)) l
                       (tmp_base env) rating_mode tcs 0 st1)
             as (rs & st2 & Hrs & _ & Hall).
           unfold bind. rewrite Hrs. simpl. eexists; eexists; split;
             [reflexivity | exact Hall].
        -- eexists; eexists; split; [reflexivity|]. simpl.
           constructor; [intros _; reflexivity | constructor].
      * exfalso. unfold compile_step in Hc.
        destruct l; simpl in Hc; try discriminate Hc;
          match type of Hc with
          | _compile_code ?e ?f ?l ?b ?s = _ =>
              destruct (_compile_code_fails e f l b s eq_refl)
                as (? & ? & H & _); rewrite H in Hc; discriminate Hc
          end.
    + eexists; eexists; split; [reflexivity|]. simpl.
      destruct (missing_runtime_results_uniform msg tcs 0) as [_ Hall].
      eapply Forall_impl; [|exact Hall].
      intros r (_ & _ & Hp) _. exact Hp.
  - intros file_path base_name tc idx.
    destruct (_run_test_case_total env L file_path l base_name tc idx
                rating_mode st) as (r & st' & Hr & Hp & _).
    eauto.
Qed.

(** C6.  [run_code] returns, and the number of its results is: one per
    test case, all ERROR with the one message of the runtime check, when
    a binary is missing; else exactly the one ERROR result of the failed
    compilation when the compilation step fails; else one per test
    case. *)
Theorem run_code_result_count (env : os_env) (L : re_lib)
  (code : str) (l : language) (tcs : list TestCaseInput)
  (rating_mode : str) (st : os_state) :
  exists out st',
    run_code env L code l tcs rating_mode st = (Ok out, st')
    /\ match _check_runtime env l with
       | Ok (false, msg) =>
           List.length (results out) = List.length tcs
           /\ Forall (fun r => status r = ES.ERROR /\ error r = Some msg
                                /\ passed r = false) (results out)
       | _ =>
           let '(file_path, base_name, _) := _prepare_code_file env code l in
           match compile_step env file_path l base_name st with
           | (Ok (false, error_c, compile_peak), _) =>
               results out = [compile_error_result error_c compile_peak]
           | _ => List.length (results out) = List.length tcs
           end
       end.
Proof.
  unfold run_code.
  destruct (_check_runtime_total env l) as [Hrt|[msg Hrt]];
    rewrite Hrt; unfold bind at 1; unfold lift; simpl.
  - destruct (compile_step env (tmp_base env ++ file_ext (language_configs l))
                l (tmp_base env) st) as [[[[okc errc] pkc]|e] st1] eqn:Hc.
    + unfold bind at 1. rewrite Hc. destruct okc; simpl.
      * destruct (run_cases_total env L
                    (tmp_base env ++ file_ext (language_configs l)) l
                    (tmp_base env) rating_mode tcs 0 st1)
          as (rs & st2 & Hrs & Hlen & _).
        unfold bind. rewrite Hrs. simpl. eexists; eexists; split;
          [reflexivity | exact Hlen].
      * eexists; eexists; split; reflexivity.
    + exfalso. unfold compile_step in Hc.
      destruct l; simpl in Hc; try discriminate Hc;
        match type of Hc with
        | _compile_code ?e ?f ?l ?b ?s = _ =>
            destruct (_compile_code_fails e f l b s eq_refl)
              as (? & ? & H & _); rewrite H in Hc; discriminate Hc
        end.
  - eexists; eexists; split; [reflexivity|]. simpl.
    apply missing_runtime_results_uniform.
Qed.

(** C3.  For a compiled language [_compile_code] reports failure on
    every machine, with the text of the AttributeError once the
    compiler process is running; and when the runtime check passes,
    [run_code] returns the one result of a failed compilation. *)
Theorem compile_code_never_succeeds (env : os_env) (L : re_lib)
  (code : str) (l : language) (tcs : list TestCaseInput)
  (rating_mode : str) (st : os_state) :
  is_compiled l = true ->
  (forall file_path base_name st0,
     exists err st1,
       _compile_code env file_path l base_name st0
       = (Ok (false, err, PInt 0), st1)
       /\ (forall cmd d pk o,
             compile_command file_path l base_name = Ok cmd ->
             spawn env (calls st0) cmd = Spawned d None pk o ->
             err = thread_has_no_set))
  /\ (_check_runtime env l = Ok (true, []) ->
      exists err st',
        run_code env L code l tcs rating_mode st
        = (Ok (compile_failure err), st')).
Proof.
  intros Hl. split.
  - intros file_path base_name st0.
    apply _compile_code_fails; exact Hl.
  - intros Hrt. unfold run_code. rewrite Hrt.
    unfold bind at 1; unfold lift; simpl.
    destruct (_compile_code_fails env
                (tmp_base env ++ file_ext (language_configs l)) l
                (tmp_base env) st Hl) as (err & st1 & Hc & _).
    assert (Hstep : compile_step env
                      (tmp_base env ++ file_ext (language_configs l)) l
                      (tmp_base env) st = (Ok (false, err, PInt 0), st1)).
    { unfold compile_step. destruct l; try discriminate Hl; exact Hc. }
    unfold bind. rewrite Hstep. simpl. eexists; eexists; reflexivity.
Qed.

(** On the machine [env_hang] the C compiler starts and never ends. *)
Lemma compile_code_never_succeeds_witness :
  exists err st',
    run_code env_hang literal_re (lit "int main(){}") c [tc_hi; tc_hi]
      HARD boot
    = (Ok (compile_failure err), st').
Proof.
  apply (proj2 (@compile_code_never_succeeds env_hang literal_re
                  (lit "int main(){}") c [tc_hi; tc_hi] HARD boot
                  eq_refl)).
  reflexivity.
Defined.

(** C3, as stated, fails: without [gcc] on the machine, [run_code] on a
    C program and two test cases does not return the single result of
    a failed compilation; it returns one ERROR result per test case. *)
Lemma run_code_missing_compiler_counterexample :
  ~ (exists err st',
       run_code env_no_gcc literal_re (lit "int main(){}") c [tc_hi; tc_hi]
         HARD boot
       = (Ok (compile_failure err), st')).
Proof.
  intros (err & st' & H). vm_compute in H. discriminate H.
Qed.

(** What [run_code] returns there. *)
Example run_code_missing_compiler :
  exists out,
    run_code env_no_gcc literal_re (lit "int main(){}") c [tc_hi; tc_hi]
      HARD boot = (Ok out, boot)
    /\ List.map error (results out)
       = [Some (lit "Required runtime 'gcc' is not installed on server.");
          Some (lit "Required runtime 'gcc' is not installed on server.")].
Proof.
  eexists; split; reflexivity.
Qed.

(** C1.  When the process of a test case is still running at the
    timeout, [_run_test_case] returns a TIMEOUT result that has not
    passed, with the whole budget of 5000 ms as execution time and a
    memory usage of 0; the process table only gains the process and
    the processes it forked: nothing is terminated. *)
Theorem timeout_result_leaves_process_running (env : os_env) (L : re_lib)
  (file_path : str) (l : language) (base_name : str) (tc : TestCaseInput)
  (idx : nat) (rating_mode : str) (st : os_state)
  (cmd : list str) (d : nat) (pk : Z) :
  run_command file_path l base_name = Ok cmd ->
  spawn env (calls st) cmd = Spawned d None pk Hangs ->
  exists r st',
    _run_test_case env L file_path l base_name tc idx rating_mode st
    = (Ok r, st')
    /\ status r = ES.TIMEOUT
    /\ passed r = false
    /\ execution_time r = 5000%Q
    /\ memory_usage r = PInt 0
    /\ live st' = live st ++ seq (next_pid st) (S d).
Proof.
  intros Hcmd Hs. unfold run_command in Hcmd. unfold _run_test_case.
  rewrite Hcmd. run_monad. rewrite Hs. simpl.
  eexists; eexists; split; [reflexivity|]. simpl. repeat split.
Qed.

(** On the machine [env_hang], a Python test case. *)
Lemma timeout_result_leaves_process_running_witness :
  exists r st',
    _run_test_case env_hang literal_re (lit "/tmp/tmpq1w2e3.py") python
      (lit "/tmp/tmpq1w2e3") tc_hi 0 HARD boot
    = (Ok r, st')
    /\ status r = ES.TIMEOUT
    /\ passed r = false
    /\ execution_time r = 5000%Q
    /\ memory_usage r = PInt 0
    /\ live st' = live boot ++ seq (next_pid boot) 2.
Proof.
  apply (@timeout_result_leaves_process_running env_hang literal_re
           (lit "/tmp/tmpq1w2e3.py") python (lit "/tmp/tmpq1w2e3") tc_hi 0
           HARD boot [lit "python"; lit "/tmp/tmpq1w2e3.py"] 1 4096%Z);
    reflexivity.
Defined.

(** C1, as stated, fails: on the machine [env_hang] the test process
    100 and its child 101 exceed the timeout, the result is the TIMEOUT
    result, and both processes are still running afterwards. *)
Lemma timeout_does_not_terminate_counterexample :
  ~ (exists r st',
       _run_test_case env_hang literal_re (lit "/tmp/tmpq1w2e3.py") python
         (lit "/tmp/tmpq1w2e3") tc_hi 0 HARD boot
       = (Ok r, st')
       /\ status r = ES.TIMEOUT
       /\ passed r = false
       /\ execution_time r = 5000%Q
       /\ memory_usage r = PInt 0
       /\ terminated [100; 101] st').
Proof.
  intros (r & st' & H & _ & _ & _ & _ & Hterm).
  vm_compute in H. injection H as _ <-.
  apply (Hterm 100); simpl; auto.
Qed.

End RunnerProofs.

(* ================================================================== *)
(** * Further properties of the code runner *)
(* ================================================================== *)

Module RunnerFacts.

Import Judge Runner RunnerTerms.

Ltac run_monad :=
  unfold bind, lift, catch, finally, ret, raise, Popen, psutil_Process,
    communicate, call_set, call_join, index0, _sample_peak_rss; simpl.

Ltac settle_facts :=
  eexists; eexists; split;
  [ reflexivity
  | split;
    [ repeat split
    | split;
      [ reflexivity
      | intros H; discriminate H ] ] ].

Lemma _run_test_case_facts (env : os_env) (L : re_lib) (file_path : str)
  (l : language) (base_name : str) (tc : TestCaseInput) (idx : nat)
  (rating_mode : str) (st : os_state) :
  exists r st',
    _run_test_case env L file_path l base_name tc idx rating_mode st
    = (Ok r, st')
    /\ echoes tc idx r
    /\ calls st' = S (calls st)
    /\ passed_by_judge L rating_mode r.
Proof.
  destruct (RunnerProofs.run_command_ok file_path base_name l) as [cmd Hcmd].
  unfold run_command in Hcmd.
  unfold _run_test_case, echoes, passed_by_judge.
  rewrite Hcmd. run_monad.
  destruct (spawn env (calls st) cmd) as [e|d pe pk o]; simpl.
  { destruct e; settle_facts. }
  destruct pe as [e|]; simpl.
  { destruct e; settle_facts. }
  destruct o as [out err rc ms| |e]; simpl.
  - destruct (_judge L (strip out) (expected_output tc) rating_mode)
      as [b|e] eqn:Hj; simpl; [|destruct e; settle_facts].
    eexists; eexists; split; [reflexivity|]. simpl.
    split; [repeat split|]. split; [reflexivity|].
    intros ->. split; [reflexivity | exact Hj].
  - settle_facts.
  - destruct e; settle_facts.
Qed.

Lemma run_cases_facts (env : os_env) (L : re_lib) (file_path : str)
  (l : language) (base_name : str) (rating_mode : str)
  (tcs : list TestCaseInput) :
  forall (i : nat) (st : os_state),
  exists rs st',
    run_cases env L file_path l base_name rating_mode i tcs st = (Ok rs, st')
    /\ List.map test_case_index rs = seq i (List.length tcs)
    /\ List.map r_input rs = List.map input tcs
    /\ List.map r_expected_output rs = List.map expected_output tcs
    /\ calls st' = calls st + List.length tcs
    /\ Forall (passed_by_judge L rating_mode) rs.
Proof.
  induction tcs as [|tc tcs IH]; intros i st; simpl.
  - exists [], st. repeat split; [lia | constructor].
  - destruct (_run_test_case_facts env L file_path l base_name tc i
                rating_mode st) as (r & st1 & Hr & (Hi & Hin & Hex) & Hc & Hp).
    destruct (IH (S i) st1) as (rs & st2 & Hrs & Hix & Hins & Hexs & Hcs & Hps).
    exists (r :: rs), st2. unfold bind. rewrite Hr, Hrs. simpl.
    rewrite Hi, Hin, Hex, Hix, Hins, Hexs.
    repeat split; [lia | now constructor].
Qed.

Lemma length_map_eq {A B C} (f : A -> C) (g : B -> C) (xs : list A)
  (ys : list B) :
  List.map f xs = List.map g ys -> List.length xs = List.length ys.
Proof.
  intros H. rewrite <- (length_map f xs), H. apply length_map.
Qed.

(** The look-ups of [_check_runtime], language by language. *)
Lemma _check_runtime_bins (env : os_env) (l : language) :
  _check_runtime env l =
  match first_missing env (runtime_bins l) with
  | None => Ok (true, [])
  | Some b => Ok (false, not_installed b)
  end.
Proof.
  destruct env as [w tb sp]. destruct l; cbv;
    repeat match goal with
    | |- context [w ?b] => destruct (w b)
    end; reflexivity.
Qed.

(** The compilation of a compiled language spawns one process. *)
Lemma _compile_code_spawns_once (env : os_env) (file_path : str)
  (l : language) (base_name : str) (st : os_state) :
  is_compiled l = true ->
  exists err st',
    _compile_code env file_path l base_name st = (Ok (false, err, PInt 0), st')
    /\ calls st' = S (calls st).
Proof.
  intros Hl.
  destruct (RunnerProofs.compile_command_ok file_path base_name l)
    as [cmd Hcmd].
  unfold compile_command in Hcmd. unfold _compile_code.
  destruct l; try discriminate Hl; simpl in Hcmd |- *;
    rewrite Hcmd; run_monad;
    (destruct (spawn env (calls st) cmd) as [e|d pe pk o]; simpl;
     [ destruct e; eexists; eexists; split; reflexivity
     | destruct pe as [e|]; simpl;
       [ destruct e; eexists; eexists; split; reflexivity
       | destruct o as [out err rc ms| |e]; simpl;
         eexists; eexists; split; reflexivity ] ]).
Qed.

Lemma run_code_paths (env : os_env) (L : re_lib) (code : str) (l : language)
  (tcs : list TestCaseInput) (rating_mode : str) (st : os_state) :
  exists out st',
    run_code env L code l tcs rating_mode st = (Ok out, st')
    /\ run_path env L code l tcs rating_mode st out st'.
Proof.
  unfold run_code. rewrite _check_runtime_bins.
  destruct (first_missing env (runtime_bins l)) as [b|] eqn:Hb;
    unfold bind at 1; unfold lift; simpl.
  - eexists; eexists; split; [reflexivity|]. now apply MissingRuntime.
  - destruct (is_compiled l) eqn:Hl.
    + destruct (_compile_code_spawns_once env
                  (tmp_base env ++ file_ext (language_configs l)) l
                  (tmp_base env) st Hl) as (err & st1 & Hc & Hcalls).
      assert (Hstep : compile_step env
                        (tmp_base env ++ file_ext (language_configs l)) l
                        (tmp_base env) st = (Ok (false, err, PInt 0), st1)).
      { unfold compile_step. destruct l; try discriminate Hl; exact Hc. }
      unfold bind. rewrite Hstep. simpl.
      eexists; eexists; split; [reflexivity|].
      now apply CompileFailed.
    + assert (Hstep : compile_step env
                        (tmp_base env ++ file_ext (language_configs l)) l
                        (tmp_base env) st = (Ok (true, [], PInt 0), st)).
      { destruct l; try discriminate Hl; reflexivity. }
      unfold bind at 1. rewrite Hstep. simpl.
      destruct (run_cases_facts env L
                  (tmp_base env ++ file_ext (language_configs l)) l
                  (tmp_base env) rating_mode tcs 0 st)
        as (rs & st2 & Hrs & _).
      unfold bind. rewrite Hrs. simpl.
      eexists; eexists; split; [reflexivity|].
      now apply CasesRun.
Qed.

Lemma missing_runtime_results_echo (msg : str) (tcs : list TestCaseInput) :
  forall i : nat,
    List.map test_case_index (missing_runtime_results msg i tcs)
    = seq i (List.length tcs)
    /\ List.map r_input (missing_runtime_results msg i tcs)
       = List.map input tcs
    /\ List.map r_expected_output (missing_runtime_results msg i tcs)
       = List.map expected_output tcs.
Proof.
  induction tcs as [|tc tcs IH]; intros i; simpl; [auto|].
  destruct (IH (S i)) as (H1 & H2 & H3). now rewrite H1, H2, H3.
Qed.

Lemma filter_all {A} (p : A -> bool) (xs : list A) :
  List.length (List.filter p xs) = List.length xs
  <-> Forall (fun x => p x = true) xs.
Proof.
  induction xs as [|x xs IH]; simpl; [split; [constructor | reflexivity]|].
  pose proof (filter_length_le p xs) as Hle.
  destruct (p x) eqn:Hx; simpl; split; intros H.
  - constructor; [exact Hx | apply IH; lia].
  - inversion H; subst. f_equal. now apply IH.
  - lia.
  - inversion H; subst. congruence.
Qed.

Lemma filter_none {A} (p : A -> bool) (xs : list A) :
  List.length (List.filter p xs) = 0
  <-> Forall (fun x => p x = false) xs.
Proof.
  induction xs as [|x xs IH]; simpl; [split; [constructor | reflexivity]|].
  destruct (p x) eqn:Hx; simpl; split; intros H.
  - discriminate H.
  - inversion H; subst. congruence.
  - constructor; [exact Hx | now apply IH].
  - inversion H; subst. now apply IH.
Qed.

(** Results come in the order of the test cases: whenever [run_code]
    does not return the single result of a failed compilation, the
    i-th result has index i and carries the input and the expected
    output of the i-th test case. *)
Theorem run_code_results_follow_test_cases (env : os_env) (L : re_lib)
  (code : str) (l : language) (tcs : list TestCaseInput)
  (rating_mode : str) (st : os_state) :
  exists out st',
    run_code env L code l tcs rating_mode st = (Ok out, st')
    /\ ((exists err, out = compile_failure err)
        \/ (List.map test_case_index (results out)
            = seq 0 (List.length tcs)
            /\ List.map r_input (results out) = List.map input tcs
            /\ List.map r_expected_output (results out)
               = List.map expected_output tcs)).
Proof.
  destruct (run_code_paths env L code l tcs rating_mode st)
    as (out & st' & Hrun & Hp).
  exists out, st'. split; [exact Hrun|].
  destruct Hp as [b Hb | err st' Hb Hl Hc | rs st' Hb Hl Hrs].
  - right. simpl. apply missing_runtime_results_echo.
  - left. eauto.
  - right. simpl.
    destruct (run_cases_facts env L
                (tmp_base env ++ file_ext (language_configs l)) l
                (tmp_base env) rating_mode tcs 0 st)
      as (rs' & st2 & Hrs' & H1 & H2 & H3 & _).
    rewrite Hrs in Hrs'. injection Hrs' as <- <-. auto.
Qed.

(** The overall status is [success] exactly when the run got as far as
    the test cases and every result passed (so also when there is no
    test case at all); on such a run it is [failed] exactly when no
    result passed and there is a test case. *)
Theorem run_code_overall_status (env : os_env) (L : re_lib)
  (code : str) (l : language) (tcs : list TestCaseInput)
  (rating_mode : str) (st : os_state) :
  exists out st',
    run_code env L code l tcs rating_mode st = (Ok out, st')
    /\ (overall_status out = success
        <-> r_success out = true
            /\ Forall (fun r => passed r = true) (results out))
    /\ (r_success out = true ->
        (overall_status out = failed
         <-> tcs <> [] /\ Forall (fun r => passed r = false) (results out))).
Proof.
  destruct (run_code_paths env L code l tcs rating_mode st)
    as (out & st' & Hrun & Hp).
  exists out, st'. split; [exact Hrun|].
  destruct Hp as [b Hb | err st' Hb Hl Hc | rs st' Hb Hl Hrs]; simpl.
  - split; [|discriminate]. split; [discriminate | intros [H _]; discriminate H].
  - split; [|discriminate]. split; [discriminate | intros [H _]; discriminate H].
  - destruct (run_cases_facts env L
                (tmp_base env ++ file_ext (language_configs l)) l
                (tmp_base env) rating_mode tcs 0 st)
      as (rs' & st2 & Hrs' & H1 & _).
    rewrite Hrs in Hrs'. injection Hrs' as <- <-.
    assert (Hlen : List.length rs = List.length tcs).
    { rewrite <- (length_map test_case_index), H1. apply length_seq. }
    rewrite <- Hlen.
    destruct (Nat.eqb_spec (List.length (List.filter passed rs))
                (List.length rs)) as [He|Hne].
    + split.
      * split; [intros _; split; [reflexivity | now apply filter_all]
               | reflexivity].
      * intros _. split; [discriminate|]. intros [Hn Hall]. exfalso.
        apply filter_none in Hall. rewrite Hall in He.
        destruct tcs; [now apply Hn|]. simpl in Hlen. lia.
    + split.
      * split; [destruct (Nat.eqb _ 0); discriminate|].
        intros [_ Hall]. apply filter_all in Hall. contradiction.
      * intros _.
        destruct (Nat.eqb_spec (List.length (List.filter passed rs)) 0)
          as [H0|H0].
        -- split; [|reflexivity]. intros _. split.
           ++ intros ->. simpl in Hlen. rewrite Hlen in Hne.
              destruct rs; [now apply Hne | discriminate Hlen].
           ++ now apply filter_none.
        -- split; [discriminate|]. intros [_ Hall].
           apply filter_none in Hall. contradiction.
Qed.

(** [run_code] starts no process when a binary is missing, exactly one
    (the compiler) for a compiled language, and exactly one per test
    case for an interpreted language. *)
Theorem run_code_spawn_count (env : os_env) (L : re_lib)
  (code : str) (l : language) (tcs : list TestCaseInput)
  (rating_mode : str) (st : os_state) :
  exists out st',
    run_code env L code l tcs rating_mode st = (Ok out, st')
    /\ calls st' =
       calls st +
       match first_missing env (runtime_bins l) with
       | Some _ => 0
       | None => if is_compiled l then 1 else List.length tcs
       end.
Proof.
  destruct (run_code_paths env L code l tcs rating_mode st)
    as (out & st' & Hrun & Hp).
  exists out, st'. split; [exact Hrun|].
  destruct Hp as [b Hb | err st' Hb Hl Hc | rs st' Hb Hl Hrs];
    rewrite Hb; [lia | rewrite Hl; lia |].
  rewrite Hl.
  destruct (run_cases_facts env L
              (tmp_base env ++ file_ext (language_configs l)) l
              (tmp_base env) rating_mode tcs 0 st)
    as (rs' & st2 & Hrs' & _ & _ & _ & Hc & _).
  rewrite Hrs in Hrs'. injection Hrs' as <- <-. exact Hc.
Qed.

(** When a binary the language needs is not installed, [run_code]
    leaves the process table as it found it and reports failure, with
    one ERROR result per test case that names the first missing binary
    (the interpreter or launcher before the compiler; the executable of
    a C or C++ program is not looked up). *)
Theorem missing_binary_runs_nothing (env : os_env) (L : re_lib)
  (code : str) (l : language) (tcs : list TestCaseInput)
  (rating_mode : str) (st : os_state) (b : str) :
  first_missing env (runtime_bins l) = Some b ->
  exists out,
    run_code env L code l tcs rating_mode st = (Ok out, st)
    /\ r_success out = false
    /\ overall_status out = failed
    /\ List.length (results out) = List.length tcs
    /\ Forall (fun r => status r = ES.ERROR
                        /\ error r = Some (not_installed b)
                        /\ execution_time r = 0%Q)
         (results out).
Proof.
  intros Hb. unfold run_code. rewrite _check_runtime_bins, Hb.
  unfold bind, lift. simpl. eexists; split; [reflexivity|]. simpl.
  split; [reflexivity|]. split; [reflexivity|].
  generalize 0. induction tcs as [|tc tcs IH]; intros i; simpl.
  - split; [reflexivity | constructor].
  - destruct (IH (S i)) as [Hlen Hall]. split; [now rewrite Hlen|].
    constructor; [repeat split | exact Hall].
Qed.

(** Without [gcc], a C program and two test cases. *)
Lemma missing_binary_runs_nothing_witness :
  exists out,
    run_code env_no_gcc literal_re (lit "int main(){}") c [tc_hi; tc_hi]
      HARD boot = (Ok out, boot)
    /\ r_success out = false
    /\ overall_status out = failed
    /\ List.length (results out) = 2
    /\ Forall (fun r => status r = ES.ERROR
                        /\ error r = Some (not_installed (lit "gcc"))
                        /\ execution_time r = 0%Q)
         (results out).
Proof.
  apply (@missing_binary_runs_nothing env_no_gcc literal_re
           (lit "int main(){}") c [tc_hi; tc_hi] HARD boot (lit "gcc")).
  reflexivity.
Defined.

(** A mode that is none of the four strings of [compare] is judged
    [False], whatever the texts are. *)
Lemma _judge_unknown_mode (L : re_lib) (out expected : str)
  (rating_mode : str) :
  str_eqb rating_mode HARD = false ->
  str_eqb rating_mode SPACE = false ->
  str_eqb rating_mode REGEX = false ->
  str_eqb rating_mode NONE = false ->
  _judge L out expected rating_mode = Ok false.
Proof.
  intros H1 H2 H3 H4. unfold _judge, compare.
  now rewrite H1, H2, H3, H4.
Qed.

Lemma _judge_schemas_mode (L : re_lib) (out expected : str)
  (rating_mode : str) :
  In rating_mode Schemas.RatingMode ->
  _judge L out expected rating_mode = Ok false.
Proof.
  intros H. apply _judge_unknown_mode;
    repeat (destruct H as [<-|H]; [reflexivity|]); destruct H.
Qed.

(** With a member of the [RatingMode] of schemas.py as rating mode (the
    class code_compiler.py imports; its values are capitalised, those
    [compare] tests for are lower case), no result of [run_code] has
    passed, whatever the programs print; with at least one test case
    the overall status is [failed]. *)
Theorem schemas_rating_mode_never_passes (env : os_env) (L : re_lib)
  (code : str) (l : language) (tcs : list TestCaseInput)
  (rating_mode : str) (st : os_state) :
  In rating_mode Schemas.RatingMode ->
  exists out st',
    run_code env L code l tcs rating_mode st = (Ok out, st')
    /\ Forall (fun r => passed r = false) (results out)
    /\ (tcs <> [] -> overall_status out = failed).
Proof.
  intros Hm.
  destruct (run_code_paths env L code l tcs rating_mode st)
    as (out & st' & Hrun & Hp).
  exists out, st'. split; [exact Hrun|].
  destruct Hp as [b Hb | err st' Hb Hl Hc | rs st' Hb Hl Hrs]; simpl.
  - split; [|reflexivity].
    destruct (RunnerProofs.missing_runtime_results_uniform
                (not_installed b) tcs 0) as [_ Hall].
    eapply Forall_impl; [|exact Hall]. intros r (_ & _ & H). exact H.
  - split; [|reflexivity]. constructor; [reflexivity | constructor].
  - destruct (run_cases_facts env L
                (tmp_base env ++ file_ext (language_configs l)) l
                (tmp_base env) rating_mode tcs 0 st)
      as (rs' & st2 & Hrs' & H1 & _ & _ & _ & Hj).
    rewrite Hrs in Hrs'. injection Hrs' as <- <-.
    assert (Hall : Forall (fun r => passed r = false) rs).
    { eapply Forall_impl; [|exact Hj]. intros r Hr.
      destruct (passed r) eqn:Hpr; [|reflexivity].
      destruct (Hr Hpr) as [_ Hjr].
      rewrite (_judge_schemas_mode L _ _ Hm) in Hjr. discriminate Hjr. }
    split; [exact Hall|]. intros Hne.
    apply filter_none in Hall. rewrite Hall.
    destruct tcs; [now contradiction Hne | reflexivity].
Qed.

(** The Python program that prints [hi] against the expected output
    [hi], in the mode [RatingMode.HARD] of schemas.py. *)
Lemma schemas_rating_mode_never_passes_witness :
  exists out st',
    run_code env_no_gcc literal_re (lit "print('hi')") python [tc_hi]
      Schemas.HARD boot = (Ok out, st')
    /\ Forall (fun r => passed r = false) (results out)
    /\ ([tc_hi] <> [] -> overall_status out = failed).
Proof.
  apply (@schemas_rating_mode_never_passes env_no_gcc literal_re
           (lit "print('hi')") python [tc_hi] Schemas.HARD boot).
  left. reflexivity.
Defined.

(** [_judge] raises in one situation only: the mode is REGEX, the
    library rejects the expected text with an exception other than
    [re.error] when compiling it with the two flags ([compare] lets it
    through, twice), and rejects it again with such an exception when
    the last stage compiles it without flags. *)
Theorem judge_raises_only_in_regex_mode (L : re_lib) (out expected : str)
  (rating_mode : str) (e : exn) :
  _judge L out expected rating_mode = Raise e
  <-> rating_mode = REGEX
      /\ (exists e1, re_compile L (strip expected) true true = Raise e1
                     /\ is_re_error e1 = false)
      /\ re_compile L (strip expected) false false = Raise e
      /\ is_re_error e = false.
Proof.
  unfold _judge, compare.
  destruct (str_eqb rating_mode HARD) eqn:H1.
  { split; [discriminate|]. intros [-> _]. discriminate H1. }
  destruct (str_eqb rating_mode SPACE) eqn:H2.
  { split; [discriminate|]. intros [-> _]. discriminate H2. }
  destruct (str_eqb rating_mode REGEX) eqn:H3.
  2:{ split.
      - destruct (str_eqb rating_mode NONE); discriminate.
      - intros [-> _]. discriminate H3. }
  apply JudgeProofs.str_eqb_eq in H3. subst rating_mode.
  unfold compare_regex, try_except, rbind. simpl or_empty.
  destruct (re_compile L (strip expected) true true) as [p|e1] eqn:Hc1.
  { split; [discriminate|]. intros (_ & (e1 & He1 & _) & _). discriminate He1. }
  assert (Hlow : contains (lit "regex") (Checker.lower REGEX) = true)
    by reflexivity.
  assert (Hlast :
    forall e2, re_compile L (strip expected) false false = Raise e2 ->
               is_re_error e2 = false ->
               try_except
                 (rbind (re_compile L (strip expected) false false)
                    (fun p => Ok (re_fullmatch L p (strip out))))
                 (fun x => match x with
                           | ReError _ => Some (Ok false)
                           | _ => None
                           end) = Raise e2).
  { intros e2 -> Hn. destruct e2; try reflexivity. discriminate Hn. }
  destruct (is_re_error e1) eqn:Hre.
  { destruct e1; try discriminate Hre. simpl.
    split; [discriminate|].
    intros (_ & (e1 & He1 & Hn) & _). injection He1 as <-. discriminate Hn. }
  assert (Hstage :
    match
      match e1 with
      | ReError _ => Some (Ok false)
      | _ => None
      end
    with
    | Some r => r
    | None => @Raise bool e1
    end = Raise e1).
  { destruct e1; try reflexivity. discriminate Hre. }
  rewrite Hstage, Hlow. unfold try_except, rbind.
  destruct (re_compile L (strip expected) false false) as [p|e2] eqn:Hc2.
  { split; [discriminate|]. intros (_ & _ & H & _). discriminate H. }
  destruct (is_re_error e2) eqn:Hre2.
  - destruct e2; try discriminate Hre2. split; [discriminate|].
    intros (_ & _ & H & Hn). injection H as <-. discriminate Hn.
  - assert (He2 :
      match
        match e2 with
        | ReError _ => Some (Ok false)
        | _ => None
        end
      with
      | Some r => r
      | None => @Raise bool e2
      end = Raise e2).
    { destruct e2; try reflexivity. discriminate Hre2. }
    rewrite He2. split.
    + intros H. injection H as <-. repeat split; eauto.
    + intros (_ & _ & H & _). now injection H as <-.
Qed.

(** The one situation, on the small instance of the library: the
    repetition bound of the expected text overflows with and without
    flags. *)
Example _judge_raises_on_overflow :
  _judge literal_re (lit "a") (lit "a{4294967296}") REGEX
  = Raise (OverflowError (lit "the repetition number is too large")).
Proof. vm_compute. reflexivity. Qed.



End RunnerFacts.

(* ================================================================== *)
(** * Further properties of the output judge *)
(* ================================================================== *)

Module JudgeFacts.

Import Judge JudgeTerms NormalizeProofs.

Lemma nonspace_cons (c : char) (s : str) :
  nonspace (c :: s) = if isspace c then nonspace s else c :: nonspace s.
Proof. unfold nonspace. cbn [List.filter]. now destruct (isspace c). Qed.

Lemma nonspace_dropWhile (s : str) :
  nonspace (dropWhile isspace s) = nonspace s.
Proof.
  induction s as [|c s IH]; [reflexivity|].
  cbn [dropWhile]. rewrite (nonspace_cons c s).
  destruct (isspace c) eqn:Hc; [exact IH|].
  now rewrite nonspace_cons, Hc.
Qed.

Lemma nonspace_rstrip (s : str) : nonspace (rstrip s) = nonspace s.
Proof.
  induction s as [|c s IH]; [reflexivity|].
  cbn [rstrip]. rewrite (nonspace_cons c s), <- IH.
  destruct (rstrip s) as [|z r] eqn:Hr.
  - destruct (isspace c) eqn:Hc; [reflexivity|].
    now rewrite nonspace_cons, Hc.
  - now rewrite (nonspace_cons c (z :: r)).
Qed.

Lemma nonspace_strip (s : str) : nonspace (strip s) = nonspace s.
Proof.
  unfold strip, lstrip. now rewrite nonspace_rstrip, nonspace_dropWhile.
Qed.

Lemma nonspace_replace1 (s : str) : nonspace (replace1 nl sp s) = nonspace s.
Proof.
  induction s as [|c s IH]; [reflexivity|].
  change (replace1 nl sp (c :: s))
    with ((if (c =? nl)%N then sp else c) :: replace1 nl sp s).
  rewrite !nonspace_cons, IH.
  destruct (N.eqb_spec c nl) as [->|_]; reflexivity.
Qed.

Lemma nonspace_collapse (n : nat) :
  forall s, List.length s <= n -> nonspace (collapse s) = nonspace s.
Proof.
  induction n as [|n IH]; intros [|c s] Hlen; cbn [List.length] in Hlen;
    try reflexivity; try lia.
  rewrite collapse_cons, (nonspace_cons c s).
  pose proof (length_dropWhile isspace s) as Hd.
  destruct (isspace c) eqn:Hc; rewrite nonspace_cons.
  - change (isspace sp) with true. cbv iota.
    rewrite IH by lia. apply nonspace_dropWhile.
  - rewrite Hc, IH by lia. reflexivity.
Qed.

Lemma nonspace_debracket (n : nat) :
  forall s, List.length s <= n -> nonspace (debracket s) = nonspace s.
Proof.
  induction n as [|n IH]; intros [|c s] Hlen; cbn [List.length] in Hlen;
    try reflexivity; try lia.
  rewrite debracket_cons.
  pose proof (length_dropWhile isspace (c :: s)) as Hd.
  rewrite <- (nonspace_dropWhile (c :: s)).
  destruct (dropWhile isspace (c :: s)) as [|b t] eqn:Hdw.
  - cbn [dropWhile] in Hdw.
    destruct (isspace c) eqn:Hc; [|discriminate Hdw].
    rewrite nonspace_cons, Hc, IH by lia.
    now rewrite <- (nonspace_dropWhile s), Hdw.
  - cbn [List.length] in Hd.
    pose proof (length_dropWhile isspace t) as Hd2.
    destruct (isbracket b) eqn:Hb.
    + rewrite !nonspace_cons, (bracket_not_space _ Hb), IH by lia.
      now rewrite nonspace_dropWhile.
    + rewrite <- Hdw, nonspace_dropWhile, !nonspace_cons, IH by lia.
      reflexivity.
Qed.

Lemma nonspace_decomma (n : nat) :
  forall s, List.length s <= n -> nonspace (decomma s) = nonspace s.
Proof.
  induction n as [|n IH]; intros [|c s] Hlen; cbn [List.length] in Hlen;
    try reflexivity; try lia.
  rewrite decomma_cons, (nonspace_cons c s).
  pose proof (length_dropWhile isspace s) as Hd.
  destruct (iscomma c) eqn:Hc.
  - rewrite (comma_not_space _ Hc), (iscomma_eq _ Hc), nonspace_cons.
    change (isspace comma) with false. cbv iota.
    rewrite IH by lia. now rewrite nonspace_dropWhile.
  - rewrite nonspace_cons, IH by lia. reflexivity.
Qed.

(** [normalize_space] changes white space only: the other characters of
    the text come out unchanged and in order.  So two texts that SPACE
    mode accepts as equal have the same characters apart from white
    space. *)
Theorem normalize_space_keeps_other_characters :
  (forall text : option str,
     nonspace (normalize_space text) = nonspace (or_empty text))
  /\ (forall output expected : option str,
        compare_space output expected = true ->
        nonspace (or_empty output) = nonspace (or_empty expected)).
Proof.
  assert (H : forall text : option str,
            nonspace (normalize_space text) = nonspace (or_empty text)).
  { intros text. unfold normalize_space.
    rewrite nonspace_strip.
    rewrite (@nonspace_decomma _ _ (le_n _)).
    rewrite (@nonspace_debracket _ _ (le_n _)).
    rewrite (@nonspace_collapse _ _ (le_n _)).
    apply nonspace_replace1. }
  split; [exact H|].
  intros output expected Hc. unfold compare_space in Hc.
  apply JudgeProofs.str_eqb_eq in Hc.
  now rewrite <- (H output), <- (H expected), Hc.
Qed.

(** ** Trimming *)

Lemma rstrip_blank (w : str) : blank w = true -> rstrip w = [].
Proof.
  unfold blank. induction w as [|c w IH]; [reflexivity|].
  cbn [forallb rstrip]. intros H. apply andb_true_iff in H as [Hc Hw].
  now rewrite (IH Hw), Hc.
Qed.

Lemma lstrip_blank (w : str) : blank w = true -> lstrip w = [].
Proof.
  unfold blank, lstrip. induction w as [|c w IH]; [reflexivity|].
  cbn [forallb dropWhile]. intros H. apply andb_true_iff in H as [Hc Hw].
  now rewrite Hc, (IH Hw).
Qed.

Lemma rstrip_app_blank (s w : str) :
  blank w = true -> rstrip (s ++ w) = rstrip s.
Proof.
  intros Hw. induction s as [|c s IH]; [now apply rstrip_blank|].
  change ((c :: s) ++ w) with (c :: (s ++ w)). cbn [rstrip]. now rewrite IH.
Qed.

Lemma lstrip_blank_app (w s : str) :
  blank w = true -> lstrip (w ++ s) = lstrip s.
Proof.
  unfold blank, lstrip. induction w as [|c w IH]; [reflexivity|].
  cbn [forallb]. intros H. apply andb_true_iff in H as [Hc Hw].
  change ((c :: w) ++ s) with (c :: (w ++ s)). cbn [dropWhile].
  now rewrite Hc, (IH Hw).
Qed.

Lemma lstrip_app (s w : str) :
  lstrip (s ++ w) = if blank s then lstrip w else lstrip s ++ w.
Proof.
  unfold blank, lstrip. induction s as [|c s IH]; [reflexivity|].
  change ((c :: s) ++ w) with (c :: (s ++ w)). cbn [dropWhile forallb].
  destruct (isspace c); [exact IH | reflexivity].
Qed.

Lemma strip_blank_l (w s : str) :
  blank w = true -> strip (w ++ s) = strip s.
Proof. intros Hw. unfold strip. now rewrite lstrip_blank_app. Qed.

Lemma strip_blank_r (s w : str) :
  blank w = true -> strip (s ++ w) = strip s.
Proof.
  intros Hw. unfold strip. rewrite lstrip_app.
  destruct (blank s) eqn:Hs.
  - now rewrite (lstrip_blank _ Hw), (lstrip_blank _ Hs).
  - now apply rstrip_app_blank.
Qed.

(** HARD mode does not see white space around either text: adding
    white space (of any kind, line ends included) before or after the
    output or the expected text does not change the verdict. *)
Theorem compare_hard_ignores_outer_space (output expected w1 w2 w3 w4 : str) :
  blank w1 = true -> blank w2 = true -> blank w3 = true -> blank w4 = true ->
  compare_hard (Some (w1 ++ output ++ w2)) (Some (w3 ++ expected ++ w4))
  = compare_hard (Some output) (Some expected).
Proof.
  intros H1 H2 H3 H4. unfold compare_hard, or_empty.
  rewrite (@strip_blank_l w1 _ H1), (@strip_blank_l w3 _ H3).
  now rewrite (@strip_blank_r _ w2 H2), (@strip_blank_r _ w4 H4).
Qed.

(** Output [hi] followed by a line end against [hi] after a tab. *)
Lemma compare_hard_ignores_outer_space_witness :
  compare_hard (Some ([] ++ lit "hi" ++ [nl])) (Some ([9%N] ++ lit "hi" ++ []))
  = compare_hard (Some (lit "hi")) (Some (lit "hi")).
Proof.
  apply (@compare_hard_ignores_outer_space (lit "hi") (lit "hi")
           [] [nl] [9%N] []); reflexivity.
Defined.

(** ** The shape of a normalised text *)

Lemma no_adj_nth (bad : char -> char -> bool) (s : str) :
  no_adj bad s ->
  forall i x y,
    nth_error s i = Some x -> nth_error s (S i) = Some y -> bad x y = false.
Proof.
  induction s as [|c s IH]; intros Hn i x y Hx Hy.
  - destruct i; discriminate Hx.
  - destruct Hn as [H1 H2]. destruct i as [|i].
    + cbn in Hx, Hy. injection Hx as <-.
      destruct s as [|z t]; [discriminate Hy|].
      cbn in Hy. injection Hy as <-. exact H1.
    + exact (IH H2 i x y Hx Hy).
Qed.

Lemma rstrip_fixed_last (s : str) (x : char) :
  rstrip s = s ->
  nth_error s (List.length s - 1) = Some x -> isspace x = false.
Proof.
  induction s as [|c s IH]; [discriminate|].
  cbn [rstrip]. destruct (rstrip s) as [|z r] eqn:Hr.
  - destruct (isspace c) eqn:Hc; [discriminate|].
    intros H. injection H as <-. cbn. intros Hx. now injection Hx as <-.
  - intros H. injection H as H. specialize (IH H). rewrite <- H in *.
    replace (List.length (c :: z :: r) - 1)
      with (S (List.length (z :: r) - 1)) by (cbn [List.length]; lia).
    exact IH.
Qed.

(** What [normalize_space] returns, for every text: its only white
    space is the plain space; a space is never followed by a space or
    a bracket and never preceded by a bracket or a comma; the first
    and the last character are no white space. *)
Theorem normalize_space_shape (text : option str) :
  let r := normalize_space text in
  (forall x, In x r -> isspace x = true -> x = sp)
  /\ (forall i x y,
        nth_error r i = Some x -> nth_error r (S i) = Some y ->
        (isspace x = true -> isspace y = false /\ isbracket y = false)
        /\ (isspace y = true -> isbracket x = false /\ iscomma x = false))
  /\ (forall x,
        nth_error r 0 = Some x \/ nth_error r (List.length r - 1) = Some x ->
        isspace x = false).
Proof.
  intros r. destruct (normalize_space_normal text)
    as (Hp & Hw & Hb & Hc & Hl & Hr). fold r in Hp, Hw, Hb, Hc, Hl, Hr.
  split; [|split].
  - intros x Hx. unfold plain in Hp. rewrite Forall_forall in Hp.
    now apply Hp.
  - intros i x y Hx Hy.
    pose proof (@no_adj_nth _ _ Hw i x y Hx Hy) as H1.
    pose proof (@no_adj_nth _ _ Hb i x y Hx Hy) as H2.
    pose proof (@no_adj_nth _ _ Hc i x y Hx Hy) as H3.
    unfold ws_ws in H1. unfold ws_br in H2. unfold comma_ws in H3.
    split; intros Hs; rewrite Hs in *.
    + rewrite andb_true_l in H1.
      apply orb_false_iff in H2 as [H2 _]. rewrite andb_true_l in H2.
      now split.
    + rewrite andb_true_r in H3.
      apply orb_false_iff in H2 as [_ H2]. rewrite andb_true_r in H2.
      now split.
  - intros x [Hx|Hx].
    + destruct r as [|c r']; [discriminate Hx|]. cbn in Hx.
      injection Hx as <-.
      unfold lstrip in Hl. cbn [dropWhile] in Hl.
      destruct (isspace c) eqn:Hcs; [|reflexivity].
      pose proof (length_dropWhile isspace r') as Hlen.
      rewrite Hl in Hlen. cbn [List.length] in Hlen. lia.
    + exact (@rstrip_fixed_last r x Hr Hx).
Qed.

(** ** White space at the ends of a text, in SPACE mode *)

(** The steps of [normalize_space] after [collapse]. *)
Local Abbreviation tail_steps X := (strip (decomma (debracket X))).

Lemma space_not_comma (w : char) : isspace w = true -> iscomma w = false.
Proof.
  intros Hw. destruct (iscomma w) eqn:Hc; [|reflexivity].
  rewrite (@comma_not_space _ Hc) in Hw. discriminate Hw.
Qed.

Lemma strip_space_cons (w : char) (s : str) :
  isspace w = true -> strip (w :: s) = strip s.
Proof. intros Hw. unfold strip, lstrip. cbn [dropWhile]. now rewrite Hw. Qed.

Lemma head_ok_fix (s : str) : head_ok isspace s -> dropWhile isspace s = s.
Proof. intros H. apply dropWhile_fix. destruct s; [exact I | exact H]. Qed.

Lemma collapse_dropWhile (s : str) :
  collapse (dropWhile isspace s) = lstrip (collapse s).
Proof.
  destruct s as [|x t]; [reflexivity|].
  cbn [dropWhile]. rewrite (collapse_cons x t).
  destruct (isspace x) eqn:Hx.
  - unfold lstrip. cbn [dropWhile]. change (isspace sp) with true. cbv iota.
    symmetry. apply head_ok_fix.
    destruct (@collapse_props _ (dropWhile isspace t) (le_n _))
      as (_ & _ & Hh).
    apply Hh, head_ok_dropWhile.
  - rewrite collapse_cons, Hx. unfold lstrip. cbn [dropWhile].
    now rewrite Hx.
Qed.

Lemma tail_steps_space_cons (w : char) (Y : str) :
  isspace w = true -> head_ok isspace Y ->
  tail_steps (w :: Y) = tail_steps Y.
Proof.
  intros Hw HY. rewrite (debracket_cons w Y).
  cbn [dropWhile]. rewrite Hw, (@head_ok_fix _ HY).
  destruct Y as [|b t].
  - rewrite debracket_nil, decomma_cons, (@space_not_comma _ Hw).
    now rewrite strip_space_cons.
  - rewrite (debracket_cons b t). cbn [dropWhile].
    cbn [head_ok] in HY. rewrite HY.
    destruct (isbracket b); [reflexivity|].
    rewrite decomma_cons, (@space_not_comma _ Hw).
    now rewrite strip_space_cons.
Qed.

Lemma tail_steps_lstrip (X : str) :
  no_adj ws_ws X -> tail_steps X = tail_steps (lstrip X).
Proof.
  intros Hn. destruct X as [|x Y]; [reflexivity|].
  unfold lstrip. cbn [dropWhile]. destruct (isspace x) eqn:Hx; [|reflexivity].
  assert (HY : dropWhile isspace Y = Y).
  { apply (@no_adj_head _ _ _ Hn). intros y Hy. unfold ws_ws in Hy.
    now rewrite Hx in Hy. }
  rewrite HY. apply tail_steps_space_cons; [exact Hx|].
  rewrite <- HY. apply head_ok_dropWhile.
Qed.

Lemma normalize_space_space_cons (w : char) (s : str) :
  isspace w = true ->
  normalize_space (Some (w :: s)) = normalize_space (Some s).
Proof.
  intros Hw. unfold normalize_space, or_empty.
  change (replace1 nl sp (w :: s))
    with ((if (w =? nl)%N then sp else w) :: replace1 nl sp s).
  assert (Hw' : isspace (if (w =? nl)%N then sp else w) = true)
    by (destruct (w =? nl)%N; [reflexivity | exact Hw]).
  rewrite collapse_cons, Hw', collapse_dropWhile.
  destruct (@collapse_props _ (replace1 nl sp s) (le_n _)) as (_ & Hn & _).
  rewrite tail_steps_space_cons;
    [| reflexivity | apply head_ok_dropWhile].
  symmetry. now apply tail_steps_lstrip.
Qed.

Lemma normalize_space_blank_app (w s : str) :
  blank w = true ->
  normalize_space (Some (w ++ s)) = normalize_space (Some s).
Proof.
  unfold blank. induction w as [|c w IH]; [reflexivity|].
  cbn [forallb]. intros H. apply andb_true_iff in H as [Hc Hw].
  change ((c :: w) ++ s) with (c :: (w ++ s)).
  rewrite (@normalize_space_space_cons _ _ Hc). now apply IH.
Qed.

Lemma dropWhile_snoc (s : str) (w : char) :
  isspace w = true ->
  dropWhile isspace (s ++ [w])
  = if blank s then [] else dropWhile isspace s ++ [w].
Proof.
  intros Hw. change (dropWhile isspace (s ++ [w])) with (lstrip (s ++ [w])).
  rewrite lstrip_app. destruct (blank s); [|reflexivity].
  unfold lstrip. cbn [dropWhile]. now rewrite Hw.
Qed.

Lemma blank_dropWhile (s : str) :
  blank s = true -> dropWhile isspace s = [].
Proof. apply lstrip_blank. Qed.

Lemma not_blank_dropWhile (s : str) :
  blank s = false -> exists b t, dropWhile isspace s = b :: t.
Proof.
  unfold blank. induction s as [|c s IH]; [discriminate|].
  cbn [forallb dropWhile]. destruct (isspace c); [exact IH | eauto].
Qed.

Lemma blank_of_dropWhile (s : str) :
  dropWhile isspace s = [] -> blank s = true.
Proof.
  destruct (blank s) eqn:Hb; [reflexivity|].
  destruct (@not_blank_dropWhile _ Hb) as (b & t & H). now rewrite H.
Qed.

(** A white space character appended to a text is absorbed by the
    step or stays the last character. *)
Lemma debracket_snoc (n : nat) (w : char) :
  isspace w = true ->
  forall s, List.length s <= n ->
    debracket (s ++ [w]) = debracket s
    \/ debracket (s ++ [w]) = debracket s ++ [w].
Proof.
  intros Hw. induction n as [|n IH]; intros [|c s] Hlen;
    cbn [List.length] in Hlen; try lia;
    try (right; change ([] ++ [w]) with [w];
         rewrite debracket_cons; cbn [dropWhile]; rewrite Hw;
         now rewrite debracket_nil).
  change ((c :: s) ++ [w]) with (c :: (s ++ [w])).
  rewrite (debracket_cons c (s ++ [w])), (debracket_cons c s).
  change (c :: (s ++ [w])) with ((c :: s) ++ [w]).
  rewrite (@dropWhile_snoc _ _ Hw).
  destruct (blank (c :: s)) eqn:Hb.
  - rewrite (@blank_dropWhile _ Hb). cbv beta iota.
    destruct (IH s ltac:(lia)) as [H|H]; rewrite H; auto.
  - destruct (@not_blank_dropWhile _ Hb) as (b & t & Hd). rewrite Hd.
    change ((b :: t) ++ [w]) with (b :: (t ++ [w])). cbv beta iota.
    assert (Ht : List.length t < List.length (c :: s)).
    { pose proof (length_dropWhile isspace (c :: s)) as H.
      rewrite Hd in H. cbn [List.length] in H |- *. lia. }
    cbn [List.length] in Ht.
    destruct (isbracket b).
    + rewrite (@dropWhile_snoc _ _ Hw).
      destruct (blank t) eqn:Hbt.
      * rewrite (@blank_dropWhile _ Hbt). now left.
      * pose proof (length_dropWhile isspace t) as Hdt.
        destruct (IH (dropWhile isspace t) ltac:(lia)) as [H|H];
          rewrite H; auto.
    + destruct (IH s ltac:(lia)) as [H|H]; rewrite H; auto.
Qed.

Lemma decomma_snoc (n : nat) (w : char) :
  isspace w = true ->
  forall s, List.length s <= n ->
    decomma (s ++ [w]) = decomma s
    \/ decomma (s ++ [w]) = decomma s ++ [w].
Proof.
  intros Hw. induction n as [|n IH]; intros [|c s] Hlen;
    cbn [List.length] in Hlen; try lia;
    try (right; change ([] ++ [w]) with [w];
         rewrite decomma_cons, (@space_not_comma _ Hw);
         now rewrite decomma_nil).
  change ((c :: s) ++ [w]) with (c :: (s ++ [w])).
  rewrite (decomma_cons c (s ++ [w])), (decomma_cons c s).
  destruct (iscomma c).
  - rewrite (@dropWhile_snoc _ _ Hw).
    destruct (blank s) eqn:Hbs.
    + rewrite (@blank_dropWhile _ Hbs). now left.
    + pose proof (length_dropWhile isspace s) as Hds.
      destruct (IH (dropWhile isspace s) ltac:(lia)) as [H|H];
        rewrite H; auto.
  - destruct (IH s ltac:(lia)) as [H|H]; rewrite H; auto.
Qed.

Lemma tail_steps_snoc (Z : str) (w : char) :
  isspace w = true -> tail_steps (Z ++ [w]) = tail_steps Z.
Proof.
  intros Hw.
  assert (Hb : blank [w] = true) by (unfold blank; cbn; now rewrite Hw).
  destruct (@debracket_snoc _ w Hw Z (le_n _)) as [H|H]; rewrite H;
    [reflexivity|].
  destruct (@decomma_snoc _ w Hw (debracket Z) (le_n _)) as [H'|H'];
    rewrite H'; [reflexivity|].
  now apply strip_blank_r.
Qed.

Lemma tail_steps_blank_app (w Z : str) :
  blank w = true -> tail_steps (Z ++ w) = tail_steps Z.
Proof.
  unfold blank. revert Z. induction w as [|c w IH]; intros Z.
  - now rewrite app_nil_r.
  - cbn [forallb]. intros H. apply andb_true_iff in H as [Hc Hw].
    change (c :: w) with ([c] ++ w). rewrite app_assoc.
    rewrite (IH _ Hw). now apply tail_steps_snoc.
Qed.

Lemma rstrip_decompose (s : str) :
  exists w, blank w = true /\ s = rstrip s ++ w.
Proof.
  induction s as [|c s (w & Hw & IH)]; [exists []; now split|].
  cbn [rstrip]. destruct (rstrip s) as [|z r] eqn:Hr.
  - destruct (isspace c) eqn:Hc.
    + exists (c :: w). split.
      * unfold blank in *. cbn [forallb]. now rewrite Hc, Hw.
      * now rewrite IH at 1.
    + exists w. split; [exact Hw|]. now rewrite IH at 1.
  - exists w. split; [exact Hw|]. now rewrite IH at 1.
Qed.

Lemma lstrip_decompose (s : str) :
  exists w, blank w = true /\ s = w ++ lstrip s.
Proof.
  unfold lstrip. induction s as [|c s (w & Hw & IH)]; [exists []; now split|].
  cbn [dropWhile]. destruct (isspace c) eqn:Hc.
  - exists (c :: w). split.
    + unfold blank in *. cbn [forallb]. now rewrite Hc, Hw.
    + now rewrite IH at 1.
  - exists []. now split.
Qed.

Lemma rstrip_cons_keep (c : char) (s : str) :
  isspace c = false \/ rstrip s <> [] -> rstrip (c :: s) = c :: rstrip s.
Proof.
  cbn [rstrip]. destruct (rstrip s) as [|z r]; [|reflexivity].
  intros [->|H]; [reflexivity | now contradiction H].
Qed.

Lemma collapse_snoc (n : nat) (w : char) :
  isspace w = true ->
  forall s, List.length s <= n ->
    collapse (s ++ [w]) = rstrip (collapse s) ++ [sp].
Proof.
  intros Hw. induction n as [|n IH]; intros [|c s] Hlen;
    cbn [List.length] in Hlen; try lia;
    try (change ([] ++ [w]) with [w]; rewrite collapse_cons, Hw;
         reflexivity).
  change ((c :: s) ++ [w]) with (c :: (s ++ [w])).
  rewrite (collapse_cons c (s ++ [w])), (collapse_cons c s).
  destruct (isspace c) eqn:Hc.
  - rewrite (@dropWhile_snoc _ _ Hw). destruct (blank s) eqn:Hbs.
    + rewrite (@blank_dropWhile _ Hbs). reflexivity.
    + pose proof (length_dropWhile isspace s) as Hds.
      rewrite (IH (dropWhile isspace s)) by lia.
      rewrite rstrip_cons_keep; [reflexivity|]. right.
      destruct (@not_blank_dropWhile _ Hbs) as (b & t & Hd).
      pose proof (@dropWhile_head _ _ _ _ Hd) as Hb.
      rewrite Hd, collapse_cons, Hb.
      rewrite rstrip_cons_keep by now left. discriminate.
  - rewrite (IH s) by lia.
    rewrite rstrip_cons_keep by now left. reflexivity.
Qed.

Lemma replace1_snoc (s : str) (w : char) :
  replace1 nl sp (s ++ [w])
  = replace1 nl sp s ++ [if (w =? nl)%N then sp else w].
Proof. unfold replace1. now rewrite map_app. Qed.

Lemma normalize_space_snoc (s : str) (w : char) :
  isspace w = true ->
  normalize_space (Some (s ++ [w])) = normalize_space (Some s).
Proof.
  intros Hw. unfold normalize_space, or_empty.
  assert (Hw' : isspace (if (w =? nl)%N then sp else w) = true)
    by (destruct (w =? nl)%N; [reflexivity | exact Hw]).
  rewrite replace1_snoc, (@collapse_snoc _ _ Hw' _ (le_n _)).
  rewrite tail_steps_snoc by reflexivity.
  destruct (rstrip_decompose (collapse (replace1 nl sp s))) as (v & Hv & Hd).
  rewrite Hd at 2. now rewrite tail_steps_blank_app.
Qed.

Lemma normalize_space_app_blank (w s : str) :
  blank w = true ->
  normalize_space (Some (s ++ w)) = normalize_space (Some s).
Proof.
  unfold blank. revert s. induction w as [|c w IH]; intros s.
  - now rewrite app_nil_r.
  - cbn [forallb]. intros H. apply andb_true_iff in H as [Hc Hw].
    change (c :: w) with ([c] ++ w). rewrite app_assoc.
    rewrite (IH _ Hw). now apply normalize_space_snoc.
Qed.

Lemma normalize_space_strip (s : str) :
  normalize_space (Some (strip s)) = normalize_space (Some s).
Proof.
  destruct (lstrip_decompose s) as (w1 & Hw1 & H1).
  destruct (rstrip_decompose (lstrip s)) as (w2 & Hw2 & H2).
  rewrite H1 at 2. rewrite H2.
  rewrite (@normalize_space_blank_app _ _ Hw1).
  now rewrite (@normalize_space_app_blank _ _ Hw2).
Qed.

(** SPACE mode is at least as lenient as HARD mode: trimming a text
    first does not change what [normalize_space] makes of it, so two
    texts that HARD mode accepts as equal are accepted by SPACE mode. *)
Theorem hard_pass_implies_space_pass (L : re_lib)
  (output expected : option str) :
  compare L output expected HARD = Ok true ->
  compare L output expected SPACE = Ok true.
Proof.
  unfold compare.
  replace (str_eqb HARD HARD) with true by reflexivity.
  replace (str_eqb SPACE HARD) with false by reflexivity.
  replace (str_eqb SPACE SPACE) with true by reflexivity.
  intros H. injection H as H. unfold compare_hard in H.
  apply JudgeProofs.str_eqb_eq in H.
  unfold compare_space. f_equal. apply JudgeProofs.str_eqb_eq.
  assert (Hn : forall t : option str,
            normalize_space t = normalize_space (Some (strip (or_empty t)))).
  { intros t. rewrite normalize_space_strip. now destruct t. }
  now rewrite (Hn output), (Hn expected), H.
Qed.

(** Output [hi] followed by a line end against [hi] after a tab. *)
Lemma hard_pass_implies_space_pass_witness :
  compare literal_re (Some (lit "hi" ++ [nl])) (Some (9%N :: lit "hi")) SPACE
  = Ok true.
Proof.
  apply (@hard_pass_implies_space_pass literal_re
           (Some (lit "hi" ++ [nl])) (Some (9%N :: lit "hi"))).
  reflexivity.
Defined.

End JudgeFacts.

(* ================================================================== *)
(** * Further properties of the score distribution and aggregation *)
(* ================================================================== *)

Module ScoresFacts.

Import Num Dict Scores ScoresTerms Feedback ScoresProofs.
Local Open Scope Q_scope.

Lemma allocate_fst (pu : Q) (items : list cond_dict) :
  forall e0, fst (allocate pu items e0) = List.map (own_share pu) items.
Proof.
  induction items as [|it items IH]; intros e0; cbn [allocate List.map];
    [reflexivity|].
  specialize (IH (e0 + round2 (if is_passed it then allocated pu it else 0))).
  destruct (allocate pu items
              (e0 + round2 (if is_passed it then allocated pu it else 0)))
    as [out total].
  cbn [fst] in *. now rewrite IH.
Qed.

Lemma is_passed_own_share (pu : Q) (it : cond_dict) :
  is_passed (own_share pu it) = is_passed it.
Proof. reflexivity. Qed.

Lemma bump_first_passed_shape (gap pu : Q) (pre : list cond_dict)
  (it : cond_dict) (post : list cond_dict) :
  Forall (fun x => is_passed x = false) pre ->
  is_passed it = true ->
  bump_first_passed gap (List.map (own_share pu) (pre ++ it :: post))
  = Some (List.map (own_share pu) pre
          ++ with_score it (round2 (round2 (allocated pu it) + gap))
          :: List.map (own_share pu) post).
Proof.
  intros Hpre Hit. induction Hpre as [|x pre Hx _ IH].
  - cbn [app List.map bump_first_passed].
    rewrite is_passed_own_share, Hit.
    unfold own_share. rewrite Hit. reflexivity.
  - cbn [app List.map bump_first_passed].
    rewrite is_passed_own_share, Hx. cbn [app List.map] in IH.
    now rewrite IH.
Qed.

Lemma distribute_shape (pre : list cond_dict) (it : cond_dict)
  (post : list cond_dict) (T : Q) :
  Forall (fun x => is_passed x = false) pre ->
  is_passed it = true ->
  let items := pre ++ it :: post in
  fst (distribute_condition_scores items T)
  = List.map (own_share (per_unit items T)) pre
    ++ with_score it (bumped items T it)
    :: List.map (own_share (per_unit items T)) post.
Proof.
  intros Hpre Hit items.
  assert (Hne : exists x xs, items = x :: xs).
  { unfold items. destruct pre; cbn; eauto. }
  destruct Hne as (x & xs & Hne).
  unfold distribute_condition_scores, bumped, gap_of.
  rewrite Hne at 1. cbv beta iota.
  set (pu := per_unit items T).
  pose proof (allocate_fst pu items 0) as Hfst.
  destruct (allocate pu items 0) as [out e].
  cbn [fst snd] in *. subst out. cbv beta iota zeta.
  change (List.map (own_share pu) items)
    with (List.map (own_share pu) (pre ++ it :: post)).
  destruct (Qle_bool (1 # 100) (Qabs (round2 (T - e)))).
  - rewrite (@bump_first_passed_shape _ pu pre it post Hpre Hit).
    reflexivity.
  - cbn [fst]. rewrite map_app. cbn [List.map].
    unfold own_share at 2. now rewrite Hit.
Qed.

(** Only the first passing item can get anything but its own share:
    every item before it failed and scores 0, every item after it
    scores its allocation when it passed and 0 when it failed, and all
    other keys of the items come back unchanged and in order. *)
Theorem only_first_passed_item_deviates (pre : list cond_dict)
  (it : cond_dict) (post : list cond_dict) (T : Q) :
  Forall (fun x => is_passed x = false) pre ->
  is_passed it = true ->
  let items := pre ++ it :: post in
  exists s,
    fst (distribute_condition_scores items T)
    = List.map (fun x => with_score x (round2 0)) pre
      ++ with_score it s
      :: List.map (own_share (per_unit items T)) post.
Proof.
  intros Hpre Hit items. exists (bumped items T it).
  unfold items. rewrite (@distribute_shape pre it post T Hpre Hit).
  generalize (per_unit (pre ++ it :: post) T). intros pu. f_equal.
  clear Hit. induction Hpre as [|x pre Hx _ IH]; [reflexivity|].
  cbn [List.map]. rewrite IH. f_equal. unfold own_share. now rewrite Hx.
Qed.

(** The items (passed, 1), (failed, 1), (passed, 2) and 40 points. *)
Lemma only_first_passed_item_deviates_witness :
  exists s,
    fst (distribute_condition_scores
           ([] ++ item true 1 :: [item false 1; item true 2]) 40)
    = List.map (fun x => with_score x (round2 0)) []
      ++ with_score (item true 1) s
      :: List.map (own_share (per_unit ([] ++ item true 1
                                        :: [item false 1; item true 2]) 40))
           [item false 1; item true 2].
Proof.
  apply (@only_first_passed_item_deviates [] (item true 1)
           [item false 1; item true 2] 40).
  - constructor.
  - reflexivity.
Defined.

(** ** Rounding *)







(** ** Sums *)




Lemma qsum_proper (xs ys : list Q) :
  Forall2 Qeq xs ys -> qsum xs == qsum ys.
Proof.
  induction 1 as [|x y xs ys Hxy _ IH]; [reflexivity|].
  rewrite !qsum_cons, Hxy, IH. reflexivity.
Qed.

(** ** The earned sum *)



(** ** When every item passes *)






(** ** The percent of passed test cases and the final score *)

Lemma rate_of_fraction (N D : Q) :
  0 < D -> 0 <= N -> N <= D ->
  (0 <= N / D * 100 /\ N / D * 100 <= 100)
  /\ (N / D * 100 == 100 <-> N == D) /\ (N / D * 100 == 0 <-> N == 0).
Proof.
  intros HD HN0 HND.
  assert (HD0 : ~ D == 0).
  { intros H. rewrite H in HD. now apply Qlt_irrefl in HD. }
  pose proof (Qmult_div_r N D HD0) as Hq.
  assert (Hlo : 0 <= N / D) by (apply Qle_shift_div_l; [exact HD | lra]).
  assert (Hhi : N / D <= 1) by (apply Qle_shift_div_r; [exact HD | lra]).
  split; [split; lra|]. split; split.
  - intros H. assert (H1 : N / D == 1) by lra.
    rewrite H1 in Hq. lra.
  - intros H. rewrite H. field. exact HD0.
  - intros H. assert (H1 : N / D == 0) by lra.
    rewrite H1 in Hq. lra.
  - intros H. rewrite H. field. exact HD0.
Qed.

Lemma rate_of_counts (n t : nat) :
  (0 < t)%nat -> (n <= t)%nat ->
  let x := inject_Z (Z.of_nat n) / inject_Z (Z.of_nat t) * 100 in
  (0 <= x /\ x <= 100) /\ (x == 100 <-> n = t) /\ (x == 0 <-> n = 0%nat).
Proof.
  intros Ht Hn.
  assert (HD : 0 < inject_Z (Z.of_nat t)).
  { change 0 with (inject_Z 0). rewrite <- Zlt_Qlt. lia. }
  assert (HN0 : 0 <= inject_Z (Z.of_nat n)).
  { change 0 with (inject_Z 0). rewrite <- Zle_Qle. lia. }
  assert (HND : inject_Z (Z.of_nat n) <= inject_Z (Z.of_nat t)).
  { rewrite <- Zle_Qle. lia. }
  destruct (rate_of_fraction HD HN0 HND) as (Hr & H100 & H0).
  cbv zeta. split; [exact Hr|]. split.
  - rewrite H100. split.
    + intros H. apply (proj1 (inject_Z_injective _ _)) in H. lia.
    + now intros ->.
  - rewrite H0. change 0 with (inject_Z 0). split.
    + intros H. apply (proj1 (inject_Z_injective _ _)) in H. lia.
    + now intros ->.
Qed.

(** The percent of a coding submission is between 0 and 100; it is
    100 exactly when there is a test result and every result passed,
    and 0 exactly when no result passed (so also without results). *)
Theorem success_rate_range (test_results : list bool) :
  (0 <= _success_rate test_results /\ _success_rate test_results <= 100)
  /\ (_success_rate test_results == 100
      <-> test_results <> []
          /\ Forall (fun passed => passed = true) test_results)
  /\ (_success_rate test_results == 0
      <-> Forall (fun passed => passed = false) test_results).
Proof.
  destruct test_results as [|b rs].
  { cbn. split; [split; discriminate|]. split; split.
    - discriminate.
    - intros [H _]. now contradiction H.
    - constructor.
    - reflexivity. }
  unfold _success_rate. cbv beta iota zeta. set (l := b :: rs).
  pose proof (filter_length_le (fun x : bool => x) l) as Hle.
  assert (Hpos : (0 < List.length l)%nat) by (cbn; lia).
  destruct (rate_of_counts Hpos Hle) as (Hr & H100 & H0). cbv zeta in *.
  split; [exact Hr|]. split.
  - rewrite H100, (RunnerFacts.filter_all (fun x : bool => x) l).
    split; [intros H; split; [discriminate | exact H] | intros [_ H]; exact H].
  - rewrite H0. apply (RunnerFacts.filter_none (fun x : bool => x) l).
Qed.



End ScoresFacts.

(* ================================================================== *)
(** * Further properties of the condition checker *)
(* ================================================================== *)

Module CheckerFacts.

Import Checker CheckerTerms.

(** ** The number pattern *)

Lemma star_total {A} (p : char -> bool) (k : str -> option A) (s : str) :
  (forall t, k t <> None) -> Re.star p k s = k (dropWhile p s).
Proof.
  intros Hk. induction s as [|ch s IH]; [reflexivity|].
  cbn [Re.star dropWhile]. destruct (p ch); [|reflexivity].
  rewrite IH. destruct (k (dropWhile p s)) eqn:Hd; [reflexivity|].
  now contradiction (Hk (dropWhile p s)).
Qed.

Lemma take_drop (p : char -> bool) (s : str) :
  s = takeWhile p s ++ dropWhile p s.
Proof.
  induction s as [|ch s IH]; [reflexivity|].
  cbn [takeWhile dropWhile]. destruct (p ch); [|reflexivity].
  cbn [app]. now rewrite <- IH.
Qed.

Lemma firstn_prefix (s a b : str) :
  s = a ++ b -> firstn (List.length s - List.length b) s = a.
Proof.
  intros ->. rewrite length_app, Nat.add_sub.
  rewrite firstn_app, Nat.sub_diag, firstn_all. cbn [firstn].
  apply app_nil_r.
Qed.

(** Where the pattern matches at the start of a text, and what its
    group is. *)
Lemma match_number (s : str) :
  option_map fst (Re.match_at number_pattern s)
  = match s with
    | [] => None
    | ch :: _ => if isdigit ch then Some [(1%nat, number_at s)] else None
    end.
Proof.
  destruct s as [|ch s']; [reflexivity|].
  unfold Re.match_at, number_pattern. cbn [Re.rmatch].
  destruct (isdigit ch) eqn:Hch; [|reflexivity].
  rewrite star_total.
  2:{ intros t. destruct (Re.rmatch _ _ _ _); discriminate. }
  set (s := ch :: s').
  assert (Hdrop : dropWhile isdigit s = dropWhile isdigit s').
  { unfold s. cbn [dropWhile]. now rewrite Hch. }
  rewrite <- Hdrop. unfold number_at.
  pose proof (take_drop isdigit s) as Hs.
  clearbody s. clear Hdrop Hch.
  destruct (dropWhile isdigit s) as [|dot [|d fr]] eqn:Hd;
    unfold chr; cbn [Re.rmatch].
  - cbn [option_map fst]. now rewrite (@firstn_prefix s _ [] Hs).
  - destruct (46 =? dot)%N; cbn [option_map fst];
      now rewrite (@firstn_prefix s _ [dot] Hs).
  - rewrite (N.eqb_sym dot 46).
    destruct (46 =? dot)%N eqn:Hdot; cbn [andb].
    + destruct (isdigit d) eqn:Hdd.
      * rewrite NormalizeProofs.star_greedy. cbn [option_map fst].
        assert (Hs' : s = (takeWhile isdigit s
                           ++ dot :: d :: takeWhile isdigit fr)
                          ++ dropWhile isdigit fr).
        { rewrite <- app_assoc. cbn [app].
          now rewrite <- (take_drop isdigit fr). }
        now rewrite (@firstn_prefix s _ (dropWhile isdigit fr) Hs').
      * cbn [option_map fst].
        now rewrite (@firstn_prefix s _ (dot :: d :: fr) Hs).
    + cbn [option_map fst].
      now rewrite (@firstn_prefix s _ (dot :: d :: fr) Hs).
Qed.

(** [re.search] with the number pattern finds the first number. *)
Lemma search_number (s : str) :
  Re.search number_pattern s
  = Ok (option_map (fun t => [(1%nat, t)]) (first_number s)).
Proof.
  unfold Re.search. change (Re.compile number_pattern) with (Ok number_pattern).
  cbn [rbind]. f_equal.
  induction s as [|ch s' IH].
  - reflexivity.
  - cbn [Re.search_from first_number].
    pose proof (match_number (ch :: s')) as Hm. cbv iota in Hm.
    destruct (Re.match_at number_pattern (ch :: s')) as [m|].
    + cbn [option_map] in Hm |- *.
      destruct (isdigit ch); [|discriminate Hm].
      cbn [option_map]. exact Hm.
    + destruct (isdigit ch); [discriminate Hm|]. exact IH.
Qed.

(** ** [float] on what the pattern matched *)

Lemma takeWhile_app_stop (p : char -> bool) (a b : str) :
  forallb p a = true ->
  match b with [] => True | x :: _ => p x = false end ->
  takeWhile p (a ++ b) = a /\ dropWhile p (a ++ b) = b.
Proof.
  intros Ha Hb. induction a as [|x a IH].
  - cbn [app]. destruct b as [|y b]; [now split|].
    cbn [takeWhile dropWhile]. now rewrite Hb.
  - cbn [forallb] in Ha. apply andb_true_iff in Ha as [Hx Ha].
    cbn [app takeWhile dropWhile]. rewrite Hx.
    destruct (IH Ha) as [-> ->]. now split.
Qed.

Lemma forallb_takeWhile (p : char -> bool) (s : str) :
  forallb p (takeWhile p s) = true.
Proof.
  induction s as [|x s IH]; [reflexivity|].
  cbn [takeWhile]. destruct (p x) eqn:Hx; [|reflexivity].
  cbn [forallb]. now rewrite Hx.
Qed.

Lemma py_float_digits (ip : str) :
  ip <> [] -> forallb isdigit ip = true -> exists v, py_float ip = Some v.
Proof.
  intros Hne Hd. unfold py_float.
  destruct (@takeWhile_app_stop isdigit ip [] Hd I) as [Ht Hr].
  rewrite app_nil_r in Ht, Hr. rewrite Ht, Hr.
  destruct ip; [now contradiction Hne | eauto].
Qed.

Lemma py_float_fraction (ip fd : str) :
  ip <> [] -> forallb isdigit ip = true ->
  fd <> [] -> forallb isdigit fd = true ->
  exists v, py_float (ip ++ 46%N :: fd) = Some v.
Proof.
  intros Hne Hd Hfe Hfd. unfold py_float.
  destruct (@takeWhile_app_stop isdigit ip (46%N :: fd) Hd eq_refl)
    as [Ht Hr].
  rewrite Ht, Hr.
  destruct ip; [now contradiction Hne|].
  assert (Hs : str_isdigit fd = true).
  { unfold str_isdigit. destruct fd; [now contradiction Hfe | exact Hfd]. }
  rewrite Hs. change ((46 =? 46)%N && true) with true. cbv iota. eauto.
Qed.

Lemma py_float_number_at (ch : char) (s' : str) :
  isdigit ch = true -> exists v, py_float (number_at (ch :: s')) = Some v.
Proof.
  intros Hch. unfold number_at.
  set (s := ch :: s').
  assert (Hne : takeWhile isdigit s <> []).
  { unfold s. cbn [takeWhile]. rewrite Hch. discriminate. }
  pose proof (forallb_takeWhile isdigit s) as Hip.
  destruct (dropWhile isdigit s) as [|dot [|d fr]];
    try (now apply py_float_digits).
  destruct (N.eqb_spec dot 46) as [->|_]; cbn [andb];
    [|now apply py_float_digits].
  destruct (isdigit d) eqn:Hd; [|now apply py_float_digits].
  apply py_float_fraction; try assumption; [discriminate|].
  cbn [forallb]. now rewrite Hd, forallb_takeWhile.
Qed.

Lemma py_float_first_number (s t : str) :
  first_number s = Some t -> exists v, py_float t = Some v.
Proof.
  induction s as [|ch s' IH]; [discriminate|].
  cbn [first_number]. destruct (isdigit ch) eqn:Hch; [|exact IH].
  intros H. injection H as <-. now apply py_float_number_at.
Qed.

Lemma first_number_none (s : str) :
  first_number s = None <-> existsb isdigit s = false.
Proof.
  induction s as [|ch s' IH]; [now split|].
  cbn [first_number existsb]. destruct (isdigit ch); [|exact IH].
  split; discriminate.
Qed.

(** ** The performance check *)

Lemma check_performance_eval (cnd : ProblemConditionCheck)
  (execution_time : Q) :
  check_performance_condition cnd execution_time
  = if contains (lit "time limit") (lower (condition cnd)) then
      match first_number (lower (condition cnd)) with
      | None =>
          Raise (AttributeError
                   (lit "'NoneType' object has no attribute 'group'"))
      | Some n =>
          match py_float n with
          | Some time_limit =>
              Ok (mk_result cnd (Qle_bool execution_time time_limit)
                    (FbTime execution_time time_limit
                       (Qle_bool execution_time time_limit)))
          | None =>
              Raise (OtherError (lit "could not convert string to float"))
          end
      end
    else Ok (mk_result cnd true FbPerfUnknown).
Proof.
  unfold check_performance_condition.
  destruct (contains (lit "time limit") (lower (condition cnd)));
    [|reflexivity].
  rewrite search_number.
  destruct (first_number (lower (condition cnd))) as [n|]; reflexivity.
Qed.



(** A limit of 2.5 against 2 and against 3. *)
Example time_limit_example :
  List.map
    (fun t =>
       match check_performance_condition
               (condition_of "Time Limit: at most 2.5 of 10 seconds"
                  performance) t with
       | Ok r => Some (r_passed r)
       | Raise _ => None
       end) [2%Q; 3%Q]
  = [Some true; Some false].
Proof. vm_compute. reflexivity. Qed.

(** ** Where [check_all_conditions] raises *)

Lemma search_recursion_raises (code : str) :
  Re.search recursion_pattern code
  = Raise (ReError (lit "invalid group reference")).
Proof.
  unfold Re.search. now rewrite CheckerProofs.recursion_pattern_rejected.
Qed.

Lemma check_code_analysis_answers (cnd : ProblemConditionCheck)
  (code : str) :
  check_type cnd = code_analysis ->
  answers cnd (check_code_analysis_condition cnd code).
Proof.
  intros Ht. unfold answers, raising, reaches_recursion. rewrite Ht.
  unfold check_code_analysis_condition. cbv zeta.
  rewrite search_recursion_raises.
  set (T := lower (condition cnd)).
  destruct (contains (lit "for loop") T); cbn [negb andb].
  { eexists; eexists; split; [reflexivity | discriminate]. }
  destruct (contains (lit "while loop") T); cbn [negb andb].
  { eexists; eexists; split; [reflexivity | discriminate]. }
  destruct (contains (lit "function") T); cbn [negb andb].
  { eexists; eexists; split; [reflexivity | discriminate]. }
  destruct (contains (lit "recursion") T).
  { eexists. reflexivity. }
  destruct (contains (lit "time complexity") T);
    [destruct (contains (lit "o(n)") T);
       [|destruct (contains (lit "o(1)") T)]|];
    eexists; eexists; split; try reflexivity; discriminate.
Qed.

Lemma check_output_validation_answers (cnd : ProblemConditionCheck)
  (output expected : str) :
  check_type cnd = output_validation ->
  answers cnd (check_output_validation_condition cnd output expected).
Proof.
  intros Ht. unfold answers, raising. rewrite Ht.
  unfold check_output_validation_condition. cbv zeta.
  set (T := lower (condition cnd)).
  destruct (contains (lit "exact match") T);
    [|destruct (contains (lit "contains") T);
      [|destruct (contains (lit "format") T);
        [destruct (contains (lit "array") T);
          [|destruct (contains (lit "number") T)]|]]];
    eexists; eexists; split; try reflexivity; discriminate.
Qed.

Lemma check_performance_answers (cnd : ProblemConditionCheck)
  (execution_time : Q) :
  check_type cnd = performance ->
  answers cnd (check_performance_condition cnd execution_time).
Proof.
  intros Ht. unfold answers, raising. rewrite Ht.
  rewrite check_performance_eval. cbv zeta.
  destruct (contains (lit "time limit") (lower (condition cnd)));
    cbn [andb].
  - destruct (first_number (lower (condition cnd))) as [n|] eqn:Hn.
    + assert (Hd : existsb isdigit (lower (condition cnd)) = true).
      { destruct (existsb isdigit (lower (condition cnd))) eqn:He;
          [reflexivity|].
        apply first_number_none in He. congruence. }
      rewrite Hd. cbn [negb].
      destruct (py_float_first_number _ Hn) as [v ->].
      eexists; eexists; split; [reflexivity | discriminate].
    + apply first_number_none in Hn. rewrite Hn. cbn [negb]. eauto.
  - eexists; eexists; split; [reflexivity | discriminate].
Qed.

Lemma check_each_answers (conditions : list ProblemConditionCheck)
  (code out_str exp_str : str) (execution_time : Q) :
  if existsb raising conditions
  then exists e,
         check_each conditions code out_str exp_str execution_time = Raise e
  else exists rs,
         check_each conditions code out_str exp_str execution_time = Ok rs
         /\ Forall2 (fun cnd r =>
                       exists ok fb,
                         r = mk_result cnd ok fb
                         /\ (check_type cnd = gpt_check -> ok = true))
              conditions rs.
Proof.
  induction conditions as [|cnd rest IH].
  { exists []. split; [reflexivity | constructor]. }
  cbn [existsb check_each].
  assert (Hone : answers cnd
            match check_type cnd with
            | code_analysis => check_code_analysis_condition cnd code
            | output_validation =>
                check_output_validation_condition cnd out_str exp_str
            | performance => check_performance_condition cnd execution_time
            | gpt_check => Ok (mk_result cnd true FbUnchecked)
            end).
  { destruct (check_type cnd) eqn:Ht.
    - now apply check_code_analysis_answers.
    - now apply check_output_validation_answers.
    - now apply check_performance_answers.
    - unfold answers, raising. rewrite Ht. eauto. }
  unfold answers in Hone. destruct (raising cnd); cbn [orb].
  - destruct Hone as [e ->]. eexists. reflexivity.
  - destruct Hone as (ok & fb & -> & Hg). cbn [rbind].
    destruct (existsb raising rest).
    + destruct IH as [e ->]. eexists. reflexivity.
    + destruct IH as (rs & -> & Hall). eexists. split; [reflexivity|].
      constructor; [eauto | exact Hall].
Qed.

(** For condition texts in ASCII: [check_all_conditions] raises
    exactly when some condition is a performance condition with "time
    limit" and no digit in its text, or a code_analysis condition that
    reaches the recursion check (its text has "recursion" and none of
    "for loop", "while loop", "function").  Otherwise it returns one
    result per condition, in order, each with the condition text,
    required flag, check type and description of its condition; a
    gpt_check condition has passed. *)
Theorem check_all_conditions_raises_exactly
  (conditions : list ProblemConditionCheck) (code : str)
  (output expected_output : option str) (execution_time : Q) :
  forallb (fun cnd => is_ascii (condition cnd)) conditions = true ->
  if existsb raising conditions
  then exists e,
         check_all_conditions conditions code output expected_output
           execution_time = Raise e
  else exists rs,
         check_all_conditions conditions code output expected_output
           execution_time = Ok rs
         /\ List.map r_condition rs = List.map condition conditions
         /\ List.map r_is_required rs = List.map is_required conditions
         /\ List.map r_check_type rs = List.map check_type conditions
         /\ List.map r_description rs = List.map description conditions
         /\ Forall (fun r => r_check_type r = gpt_check -> r_passed r = true)
              rs.
Proof.
  intros _. unfold check_all_conditions.
  pose proof (check_each_answers conditions code (or_empty output)
                (or_empty expected_output) execution_time) as H.
  destruct (existsb raising conditions); [exact H|].
  destruct H as (rs & -> & Hall). exists rs. split; [reflexivity|].
  induction Hall as [|cnd r cs rs (ok & fb & -> & Hg) _ IH].
  - repeat split. constructor.
  - destruct IH as (H1 & H2 & H3 & H4 & H5). cbn [List.map].
    rewrite H1, H2, H3, H4. repeat split.
    constructor; [exact Hg | exact H5].
Qed.

(** A loop condition, a time limit with a number and a condition left
    to the language model: three results. *)
Lemma check_all_conditions_raises_exactly_witness :
  exists rs,
    check_all_conditions
      [condition_of "must use a for loop" code_analysis;
       condition_of "Time limit 200.5 ms" performance;
       condition_of "readable names" gpt_check]
      (lit "print(1)") None None 100%Q = Ok rs
    /\ List.map r_condition rs
       = [lit "must use a for loop"; lit "Time limit 200.5 ms";
          lit "readable names"]
    /\ List.map r_is_required rs = [true; true; true]
    /\ List.map r_check_type rs = [code_analysis; performance; gpt_check]
    /\ List.map r_description rs = [None; None; None]
    /\ Forall (fun r => r_check_type r = gpt_check -> r_passed r = true) rs.
Proof.
  exact (@check_all_conditions_raises_exactly
           [condition_of "must use a for loop" code_analysis;
            condition_of "Time limit 200.5 ms" performance;
            condition_of "readable names" gpt_check]
           (lit "print(1)") None None 100%Q eq_refl).
Defined.

End CheckerFacts.

(* ================================================================== *)
(** * Properties of the scoring helpers *)
(* ================================================================== *)

Module GraderFacts.

Import Num Judge JudgeTerms Grader CheckerTerms.
Import NormalizeProofs JudgeFacts ScoresProofs.

(** ** Multiple choice *)

Lemma mem_In (xs : list Z) (x : Z) : mem xs x = true <-> In x xs.
Proof.
  unfold mem. rewrite existsb_exists. split.
  - intros (y & Hy & He). apply Z.eqb_eq in He. now subst y.
  - intros H. exists x. split; [exact H | apply Z.eqb_refl].
Qed.

Lemma set_eqb_spec (a b : list Z) :
  set_eqb a b = true <-> (forall x, In x a <-> In x b).
Proof.
  unfold set_eqb. rewrite andb_true_iff, !forallb_forall. split.
  - intros [H1 H2] x. split; intros Hx.
    + apply mem_In, H1, Hx.
    + apply mem_In, H2, Hx.
  - intros H. split; intros x Hx; apply mem_In, H, Hx.
Qed.

(** A multiple-choice answer is exact, and scores 100, exactly when the
    list of correct options is not empty and the selected options are
    the same set of numbers (order and repetitions do not count);
    every other answer scores 0.  With an empty list of correct
    options no answer is exact, the empty selection included. *)
Theorem multiple_choice_is_set_equality (correct selected : list Z) :
  let r := _score_multiple_choice correct selected in
  (snd r = true
   <-> correct <> [] /\ (forall x, In x correct <-> In x selected))
  /\ fst r = (if snd r then 100%Q else 0%Q).
Proof.
  cbv zeta. unfold _score_multiple_choice.
  destruct correct as [|c0 cs].
  - cbn [fst snd]. split; [|reflexivity].
    split; [discriminate | intros [H _]; now contradiction H].
  - cbn [fst snd]. split; [|reflexivity].
    rewrite set_eqb_spec. split.
    + intros H. split; [discriminate | exact H].
    + intros [_ H]. exact H.
Qed.

(** ** Short answers *)

Lemma rstrip_fixed_cons (ch : char) (s : str) :
  rstrip (ch :: s) = ch :: s ->
  match s with
  | [] => isspace ch = false
  | _ => rstrip s = s
  end.
Proof.
  cbn [rstrip]. destruct (rstrip s) as [|z r] eqn:Hr.
  - destruct (isspace ch) eqn:Hc; [discriminate|].
    intros H. injection H as <-. reflexivity.
  - intros H. injection H as <-. reflexivity.
Qed.

Lemma rstrip_fixed_dropWhile (p : char -> bool) (s : str) :
  rstrip s = s -> rstrip (dropWhile p s) = dropWhile p s.
Proof.
  induction s as [|ch s IH]; [reflexivity|].
  intros H. cbn [dropWhile]. destruct (p ch); [|exact H].
  apply rstrip_fixed_cons in H. destruct s as [|x s']; [reflexivity|].
  now apply IH.
Qed.

Lemma rstrip_fixed_not_blank (s : str) :
  s <> [] -> rstrip s = s -> blank s = false.
Proof.
  intros Hne Hr. destruct (blank s) eqn:Hb; [|reflexivity].
  rewrite (@rstrip_blank s Hb) in Hr. now contradiction Hne.
Qed.

Lemma collapse_keeps_end (n : nat) :
  forall s, List.length s <= n ->
    rstrip s = s -> rstrip (collapse s) = collapse s.
Proof.
  induction n as [|n IH]; intros [|ch s] Hlen Hr;
    cbn [List.length] in Hlen; try reflexivity; try lia.
  rewrite collapse_cons.
  pose proof (rstrip_fixed_cons Hr) as Hs.
  destruct (isspace ch) eqn:Hc.
  - destruct s as [|x s']; [congruence|].
    set (t := x :: s') in *.
    assert (Hnb : blank t = false)
      by (apply rstrip_fixed_not_blank; [discriminate | exact Hs]).
    destruct (@not_blank_dropWhile t Hnb) as (b & u & Hd).
    pose proof (@dropWhile_head isspace t b u Hd) as Hb.
    pose proof (length_dropWhile isspace t) as Hl.
    pose proof (@rstrip_fixed_dropWhile isspace t Hs) as Hrd.
    assert (Hrc : rstrip (collapse (dropWhile isspace t))
                  = collapse (dropWhile isspace t)).
    { apply IH; [lia | exact Hrd]. }
    rewrite rstrip_cons_keep; [now rewrite Hrc|].
    right. rewrite Hrc, Hd, collapse_cons, Hb. discriminate.
  - rewrite rstrip_cons_keep by now left.
    destruct s as [|x s']; [reflexivity|].
    rewrite IH; [reflexivity | cbn [List.length] in *; lia | exact Hs].
Qed.

Lemma strip_fixed_end (s : str) : rstrip (strip s) = strip s.
Proof. unfold strip. apply rstrip_idem. Qed.

Lemma head_ok_strip (s : str) : head_ok isspace (strip s).
Proof. unfold strip, lstrip. apply head_ok_rstrip, head_ok_dropWhile. Qed.

Lemma collapse_strip_tidy (t : str) : tidy (collapse (strip t)).
Proof.
  destruct (@collapse_props _ (strip t) (le_n _)) as (Hp & Hw & Hh).
  repeat split; try assumption.
  - apply head_ok_fix, Hh, head_ok_strip.
  - apply (@collapse_keeps_end _ (strip t) (le_n _)), strip_fixed_end.
Qed.

Lemma tidy_fixed (r : str) : tidy r -> collapse (strip r) = r.
Proof.
  intros (Hp & Hw & Hl & Hr). unfold strip. rewrite Hl, Hr.
  now apply collapse_fixed.
Qed.

Lemma _normalize_tidy (a : answer) : tidy (_normalize a).
Proof.
  destruct a as [|t|parts]; cbn [_normalize];
    [|apply collapse_strip_tidy..].
  repeat split; constructor.
Qed.

Lemma _normalize_fixed (a : answer) :
  _normalize (AStr (_normalize a)) = _normalize a.
Proof. cbn [_normalize]. apply tidy_fixed, _normalize_tidy. Qed.

(** [_normalize] is idempotent, and what it returns has the plain
    space as its only white space, no two spaces in a row and no white
    space at either end. *)
Theorem normalize_answer_idempotent (a : answer) :
  _normalize (AStr (_normalize a)) = _normalize a
  /\ (forall x, In x (_normalize a) -> isspace x = true -> x = sp)
  /\ (forall i x y,
        nth_error (_normalize a) i = Some x ->
        nth_error (_normalize a) (S i) = Some y ->
        isspace x = true -> isspace y = false)
  /\ strip (_normalize a) = _normalize a.
Proof.
  split; [apply _normalize_fixed|].
  destruct (_normalize_tidy a) as (Hp & Hw & Hl & Hr).
  split; [|split].
  - intros x Hx. unfold plain in Hp. rewrite Forall_forall in Hp.
    now apply Hp.
  - intros i x y Hx Hy Hs.
    pose proof (@no_adj_nth _ _ Hw i x y Hx Hy) as H.
    unfold ws_ws in H. now rewrite Hs in H.
  - unfold strip. now rewrite Hl, Hr.
Qed.

Lemma existsb_ext {A} (f g : A -> bool) (l : list A) :
  (forall x, f x = g x) -> existsb f l = existsb g l.
Proof.
  intros H. induction l as [|x l IH]; [reflexivity|].
  cbn [existsb]. now rewrite H, IH.
Qed.

Lemma short_answer_percent_eval (ratio : str -> str -> Q)
  (text : answer) (expected : option (list str)) (mode : str)
  (matcher : str -> str -> bool) :
  (forall s e,
     (if str_eqb mode (lit "exact") then str_eqb s e
      else if str_eqb mode (lit "partial")
           then contains (Checker.lower s) (Checker.lower e)
                || contains (Checker.lower e) (Checker.lower s)
           else if str_eqb mode (lit "soft")
                then Qle_bool (8 # 10)
                       (ratio (Checker.lower s) (Checker.lower e))
                else str_eqb s e) = matcher s e) ->
  short_answer_percent ratio text expected mode
  = if existsb
         (fun x => counts x
                   && matcher (_normalize text) (_normalize (AStr x)))
         (match expected with Some l => l | None => [] end)
    then 100%Q else 0%Q.
Proof.
  intros Hm. unfold short_answer_percent, _score_short_answer.
  rewrite _normalize_fixed.
  set (l := match expected with Some l => l | None => [] end).
  set (nl := List.map (fun x => _normalize (AStr x)) (List.filter counts l)).
  assert (Hex : existsb
            (fun ans => matcher (_normalize text) (_normalize (AStr ans))) nl
          = existsb
              (fun x => counts x
                        && matcher (_normalize text) (_normalize (AStr x))) l).
  { unfold nl. clear nl. induction l as [|x l IH]; [reflexivity|].
    cbn [List.filter existsb]. destruct (counts x) eqn:Hx.
    - cbn [List.map existsb andb].
      rewrite (_normalize_fixed (AStr x)). now rewrite IH.
    - cbn [andb orb]. exact IH. }
  fold counts. fold nl. rewrite <- Hex.
  destruct nl as [|y nl']; [reflexivity|].
  set (nl := y :: nl').
  match goal with
  | |- (if existsb ?F nl then _ else _) = _ =>
      rewrite (@existsb_ext _ F
                 (fun ans =>
                    matcher (_normalize text) (_normalize (AStr ans))) nl)
  end; [reflexivity|].
  intros ans. rewrite <- (Hm (_normalize text) (_normalize (AStr ans))).
  destruct (str_eqb mode (lit "exact")); [reflexivity|].
  destruct (str_eqb mode (lit "partial")); [reflexivity|].
  destruct (str_eqb mode (lit "soft")); reflexivity.
Qed.

(** In exact mode, and in every mode other than "partial" and "soft",
    a short answer scores 100 when its normalised text equals the
    normalised text of an expected answer that is not blank, and 0
    otherwise: blank expected answers never match, so a blank answer
    always scores 0. *)
Theorem exact_short_answer_matches_normalised_text
  (ratio : str -> str -> Q) (text : answer)
  (expected : option (list str)) (mode : str) :
  str_eqb mode (lit "partial") = false ->
  str_eqb mode (lit "soft") = false ->
  let percent := short_answer_percent ratio text expected mode in
  (percent = 100%Q \/ percent = 0%Q)
  /\ (percent = 100%Q
      <-> exists ans,
            In ans (match expected with Some l => l | None => [] end)
            /\ _normalize (AStr ans) <> []
            /\ _normalize text = _normalize (AStr ans)).
Proof.
  intros Hp Hs. cbv zeta.
  rewrite (@short_answer_percent_eval ratio text expected mode str_eqb).
  2:{ intros s e. rewrite Hp, Hs. now destruct (str_eqb mode (lit "exact")). }
  set (l := match expected with Some l => l | None => [] end).
  destruct (existsb _ l) eqn:He.
  - split; [now left|]. split; [|reflexivity]. intros _.
    apply existsb_exists in He as (ans & Hin & H).
    apply andb_true_iff in H as [Hc Heq].
    exists ans. split; [exact Hin|]. split.
    + unfold counts in Hc. destruct (_normalize (AStr ans)); [discriminate Hc|].
      discriminate.
    + now apply JudgeProofs.str_eqb_eq.
  - split; [now right|]. split; [discriminate|].
    intros (ans & Hin & Hne & Heq). exfalso.
    assert (Ht : existsb
              (fun x => counts x
                        && str_eqb (_normalize text) (_normalize (AStr x))) l
            = true).
    { apply existsb_exists. exists ans. split; [exact Hin|].
      apply andb_true_iff. split.
      - unfold counts. destruct (_normalize (AStr ans));
          [now contradiction Hne | reflexivity].
      - now apply JudgeProofs.str_eqb_eq. }
    congruence.
Qed.

(** The answer [a  b] with a line end against the expected answers
    [x] and [a b]. *)
Lemma exact_short_answer_matches_normalised_text_witness :
  let percent :=
    short_answer_percent (fun _ _ => 0%Q) (AStr (lit "a  b" ++ [nl]))
      (Some [lit "x"; lit "a b"]) (lit "exact") in
  (percent = 100%Q \/ percent = 0%Q)
  /\ (percent = 100%Q
      <-> exists ans,
            In ans [lit "x"; lit "a b"]
            /\ _normalize (AStr ans) <> []
            /\ _normalize (AStr (lit "a  b" ++ [nl]))
               = _normalize (AStr ans)).
Proof.
  apply (@exact_short_answer_matches_normalised_text (fun _ _ => 0%Q)
           (AStr (lit "a  b" ++ [nl])) (Some [lit "x"; lit "a b"])
           (lit "exact")); reflexivity.
Defined.

Lemma contains_nil (b : str) : contains [] b = true.
Proof. destruct b; reflexivity. Qed.

(** In partial mode a blank answer scores 100 as soon as one expected
    answer is not blank: the empty text is contained in every text. *)
Theorem blank_answer_passes_in_partial_mode
  (ratio : str -> str -> Q) (text : answer)
  (expected : option (list str)) :
  _normalize text = [] ->
  short_answer_percent ratio text expected (lit "partial")
  = if existsb counts (match expected with Some l => l | None => [] end)
    then 100%Q else 0%Q.
Proof.
  intros Hb.
  rewrite (@short_answer_percent_eval ratio text expected (lit "partial")
             (fun s e => contains (Checker.lower s) (Checker.lower e)
                         || contains (Checker.lower e) (Checker.lower s))).
  2:{ intros s e. reflexivity. }
  rewrite Hb.
  rewrite (@existsb_ext _ _ counts); [reflexivity|].
  intros x. change (Checker.lower []) with (@nil char).
  now rewrite contains_nil, andb_true_r.
Qed.

(** No answer at all against the expected answer [42]. *)
Lemma blank_answer_passes_in_partial_mode_witness :
  short_answer_percent (fun _ _ => 0%Q) ANone (Some [lit "42"])
    (lit "partial")
  = 100%Q.
Proof.
  apply (@blank_answer_passes_in_partial_mode (fun _ _ => 0%Q) ANone
           (Some [lit "42"])).
  reflexivity.
Defined.

(** ** Points per condition *)



(** ** The number in an answer of the language model *)

(** For a text in ASCII, [_parse_first_number] never raises and
    returns a number between 0 and 100: 0 for a text without digit, and
    otherwise the first number of the text, cut at 100 (a sign before
    it and an exponent after it are not read). *)
Theorem parse_first_number_is_clamped (s : str) :
  is_ascii s = true ->
  exists v,
    _parse_first_number s = Ok v
    /\ (0 <= v /\ v <= 100)%Q
    /\ match first_number s with
       | None => v = 0%Q
       | Some n =>
           exists x, Checker.py_float n = Some x
                     /\ v = py_max 0 (py_min 100 x)
       end.
Proof.
  intros _. unfold _parse_first_number.
  destruct s as [|ch s']; [exists 0%Q; repeat split; discriminate|].
  set (s := ch :: s'). rewrite CheckerFacts.search_number. cbn [rbind].
  destruct (first_number s) as [n|] eqn:Hn; cbn [option_map].
  - destruct (CheckerFacts.py_float_first_number _ Hn) as [x Hx].
    cbn [Checker.group_of_search Re.group Nat.eqb rbind]. rewrite Hx.
    eexists. split; [reflexivity|]. split; [|eauto].
    unfold py_max, py_min.
    destruct (Qle_bool 100 x) eqn:H100; cbn.
    + split; discriminate.
    + destruct (Qle_bool x 0) eqn:H0; [split; discriminate|].
      split.
      * destruct (Qlt_le_dec x 0) as [Hlt|Hle]; [|exact Hle].
        apply Qlt_le_weak, Qle_bool_iff in Hlt. congruence.
      * destruct (Qlt_le_dec 100 x) as [Hlt|Hle]; [|exact Hle].
        apply Qlt_le_weak, Qle_bool_iff in Hlt. congruence.
  - exists 0%Q. repeat split; discriminate.
Qed.

(** The answer [score: 120.5 of 100] gives 100. *)
Lemma parse_first_number_is_clamped_witness :
  exists v,
    _parse_first_number (lit "score: 120.5 of 100") = Ok v
    /\ (0 <= v /\ v <= 100)%Q
    /\ exists x, Checker.py_float (lit "120.5") = Some x
                 /\ v = py_max 0 (py_min 100 x).
Proof.
  exact (@parse_first_number_is_clamped (lit "score: 120.5 of 100") eq_refl).
Defined.

End GraderFacts.

(* ================================================================== *)
(** * Properties of the normalisation of condition checks *)
(* ================================================================== *)

Module CondUtilsFacts.

Import Judge JudgeTerms CondUtils.
Import NormalizeProofs JudgeFacts GraderFacts.

(** ** Texts that [strip] leaves alone *)

Lemma strip_idem (s : str) : strip (strip s) = strip s.
Proof.
  unfold strip at 1. unfold lstrip.
  rewrite (@head_ok_fix (strip s) (head_ok_strip s)).
  apply strip_fixed_end.
Qed.

Lemma _to_str_or_default_trimmed (x : pyval) (d : str) :
  trimmed d -> trimmed (_to_str_or_default x d).
Proof.
  intros Hd. destruct x; try exact Hd. cbn [_to_str_or_default].
  destruct (strip s) as [|ch r] eqn:Hs; [exact Hd|].
  split; [|discriminate]. rewrite <- Hs. apply strip_idem.
Qed.

Lemma _to_str_or_default_fixed (r d : str) :
  trimmed r -> _to_str_or_default (VStr r) d = r.
Proof.
  intros [Hs Hne]. cbn [_to_str_or_default]. rewrite Hs.
  destruct r; [now contradiction Hne | reflexivity].
Qed.

Lemma _to_str_or_default_empty (x : pyval) :
  _to_str_or_default (VStr (_to_str_or_default x [])) []
  = _to_str_or_default x [].
Proof.
  assert (H : forall r, strip r = r -> _to_str_or_default (VStr r) [] = r).
  { intros r Hr. cbn [_to_str_or_default]. rewrite Hr. now destruct r. }
  apply H. destruct x; try reflexivity. cbn [_to_str_or_default].
  destruct (strip s) as [|ch r] eqn:Hs; [reflexivity|].
  rewrite <- Hs. apply strip_idem.
Qed.

Lemma rstrip_no_space (b : str) :
  Forall (fun ch => isspace ch = false) b -> rstrip b = b.
Proof.
  induction 1 as [|ch b Hc _ IH]; [reflexivity|].
  cbn [rstrip]. rewrite IH. destruct b; [now rewrite Hc | reflexivity].
Qed.

Lemma rstrip_app_keep (a b : str) :
  rstrip b <> [] -> rstrip (a ++ b) = a ++ rstrip b.
Proof.
  intros Hb. induction a as [|ch a IH]; [reflexivity|].
  cbn [app rstrip]. rewrite IH.
  destruct (a ++ rstrip b) eqn:He; [|reflexivity].
  apply app_eq_nil in He as [_ He]. now contradiction Hb.
Qed.

Lemma digit_not_space (n : nat) :
  isspace (N.of_nat (n mod 10) + 48)%N = false.
Proof.
  assert (H : n mod 10 < 10) by (apply Nat.mod_upper_bound; discriminate).
  generalize dependent (n mod 10). intros k Hk.
  do 10 (destruct k as [|k]; [reflexivity|]). lia.
Qed.

Lemma digits_from_shape (fuel : nat) :
  forall n acc,
    Forall (fun ch => isspace ch = false) acc ->
    (fuel <> 0 \/ acc <> []) ->
    Forall (fun ch => isspace ch = false) (digits_from fuel n acc)
    /\ digits_from fuel n acc <> [].
Proof.
  induction fuel as [|fuel IH]; intros n acc Hacc Hne; cbn [digits_from].
  - split; [exact Hacc|]. destruct Hne as [H|H]; [now contradiction H | exact H].
  - pose proof (digit_not_space n) as Hd.
    destruct (n <? 10).
    + split; [now constructor | discriminate].
    + apply IH; [now constructor | right; discriminate].
Qed.

Lemma condition_label_trimmed (idx : nat) : trimmed (condition_label idx).
Proof.
  unfold condition_label, str_of_nat.
  destruct (@digits_from_shape (S idx) idx [] (Forall_nil _)
              (or_introl (Nat.neq_succ_0 idx))) as [Hd Hne].
  set (ds := digits_from (S idx) idx []) in *.
  split.
  - unfold strip. change (lstrip (lit "Condition " ++ ds))
      with (lit "Condition " ++ ds).
    rewrite rstrip_app_keep; rewrite (rstrip_no_space Hd);
      [reflexivity | exact Hne].
  - destruct ds; discriminate.
Qed.

Lemma code_analysis_trimmed : trimmed (lit "code_analysis").
Proof. split; [reflexivity | discriminate]. Qed.

(** ** Normalising twice *)

Lemma normalize_from_fixed (P : py_numbers) (checks : list raw_check) :
  forall idx items,
    normalize_from P idx checks = Ok items ->
    normalize_from P idx (List.map as_raw items) = Ok items.
Proof.
  induction checks as [|raw rest IH]; intros idx items H.
  - cbn [normalize_from] in H. injection H as <-. reflexivity.
  - cbn [normalize_from] in H. cbv zeta in H.
    destruct (_to_float P (_get_field (f_weight raw) (VFloat 1)) 1)
      as [w|e]; [|discriminate H].
    cbn [rbind] in H.
    destruct (normalize_from P (S idx) rest) as [items'|e] eqn:Hrest;
      [|discriminate H].
    cbn [rbind] in H. injection H as <-.
    cbn [List.map normalize_from]. cbv zeta.
    cbn [as_raw f_condition f_description f_is_required f_check_type
         f_passed f_feedback f_weight _get_field condition is_required
         description check_type passed feedback weight _to_float truth
         _to_int rbind].
    rewrite (IH _ _ Hrest). cbn [rbind].
    rewrite _to_str_or_default_empty.
    rewrite (@_to_str_or_default_fixed
               (_to_str_or_default (_get_field (f_check_type raw)
                                      (VStr (lit "code_analysis")))
                  (lit "code_analysis")) (lit "code_analysis"))
      by apply _to_str_or_default_trimmed, code_analysis_trimmed.
    rewrite _to_str_or_default_fixed;
      [reflexivity|].
    apply _to_str_or_default_trimmed, _to_str_or_default_trimmed,
      condition_label_trimmed.
Qed.

(** Normalising is idempotent: the list [normalize_condition_checks]
    returns, given to it again, comes back unchanged. *)
Theorem normalize_condition_checks_idempotent (P : py_numbers)
  (checks : list raw_check) (items : list item) :
  normalize_condition_checks P checks = Ok items ->
  normalize_condition_checks P (List.map as_raw items) = Ok items.
Proof. apply normalize_from_fixed. Qed.

(** Two checks, the second without keys: the normalised list
    normalises to itself. *)
Lemma normalize_condition_checks_idempotent_witness :
  normalize_condition_checks digits_only
    (List.map as_raw
       [ {| condition := 7; is_required := false;
            description := lit "uses a loop";
            check_type := lit "code_analysis"; passed := true;
            feedback := lit "ok"; weight := 2 |};
         {| condition := 2; is_required := true;
            description := lit "Condition 2";
            check_type := lit "code_analysis"; passed := false;
            feedback := []; weight := 1 |} ])
  = Ok [ {| condition := 7; is_required := false;
            description := lit "uses a loop";
            check_type := lit "code_analysis"; passed := true;
            feedback := lit "ok"; weight := 2 |};
         {| condition := 2; is_required := true;
            description := lit "Condition 2";
            check_type := lit "code_analysis"; passed := false;
            feedback := []; weight := 1 |} ].
Proof.
  apply (@normalize_condition_checks_idempotent digits_only
           [ {| f_condition := Some (VStr (lit " 7 "));
                f_description := Some (VStr (lit "  uses a loop "));
                f_is_required := Some (VInt 0);
                f_check_type := None;
                f_passed := Some (VStr (lit "yes"));
                f_feedback := Some (VStr (lit "ok"));
                f_weight := Some (VInt 2) |};
             {| f_condition := None; f_description := None;
                f_is_required := None; f_check_type := None;
                f_passed := None; f_feedback := None;
                f_weight := None |} ]).
  vm_compute. reflexivity.
Defined.

(** ** Where the normalisation raises, and the defaults *)

Lemma _to_float_weight (P : py_numbers) (raw : raw_check) :
  if overflowing raw
  then _to_float P (_get_field (f_weight raw) (VFloat 1)) 1
       = Raise (OverflowError (lit "int too large to convert to float"))
  else exists w,
         _to_float P (_get_field (f_weight raw) (VFloat 1)) 1 = Ok w
         /\ (f_weight raw = None -> w = 1%Q).
Proof.
  unfold overflowing. destruct (f_weight raw) as [v|]; cbn [_get_field].
  - destruct v; cbn [_to_float]; try (eexists; split; [reflexivity|discriminate]).
    + unfold float_of_int.
      destruct (Z.abs z <? FLOAT_OVERFLOW)%Z; cbn [negb];
        [eexists; split; [reflexivity | discriminate] | reflexivity].
    + destruct (strip s); [|destruct (float_of_str P _)];
        eexists; (split; [reflexivity | discriminate]).
    + destruct as_float; eexists; (split; [reflexivity | discriminate]).
  - eexists. split; reflexivity.
Qed.

Lemma _to_int_unnumbered (P : py_numbers) (raw : raw_check) (d : Z) :
  unnumbered raw = true ->
  _to_int P (_get_field (f_condition raw) VNone) d = d.
Proof.
  unfold unnumbered. destruct (f_condition raw) as [v|]; [|reflexivity].
  destruct v; try discriminate; reflexivity.
Qed.

Lemma normalize_from_answers (P : py_numbers) (checks : list raw_check) :
  forall idx,
    if existsb overflowing checks
    then normalize_from P idx checks
         = Raise (OverflowError (lit "int too large to convert to float"))
    else exists items,
           normalize_from P idx checks = Ok items
           /\ List.length items = List.length checks
           /\ forall i raw it,
                nth_error checks i = Some raw ->
                nth_error items i = Some it ->
                (unnumbered raw = true ->
                 condition it = Z.of_nat (idx + i))
                /\ (f_is_required raw = None -> is_required it = true)
                /\ (f_passed raw = None -> passed it = false)
                /\ (f_weight raw = None -> weight it = 1%Q).
Proof.
  induction checks as [|raw rest IH]; intros idx.
  - exists []. split; [reflexivity|]. split; [reflexivity|].
    intros [|i] raw it H; discriminate H.
  - cbn [existsb normalize_from]. cbv zeta.
    pose proof (_to_float_weight P raw) as Hw.
    destruct (overflowing raw); cbn [orb].
    + now rewrite Hw.
    + destruct Hw as (w & -> & Hw1). cbn [rbind].
      specialize (IH (S idx)).
      destruct (existsb overflowing rest).
      * now rewrite IH.
      * destruct IH as (items & -> & Hlen & Hall). cbn [rbind].
        eexists. split; [reflexivity|]. split; [cbn; now rewrite Hlen|].
        intros [|i] raw' it Hraw Hit.
        -- cbn in Hraw, Hit. injection Hraw as <-. injection Hit as <-.
           cbn [condition is_required passed weight].
           rewrite Nat.add_0_r. repeat split.
           ++ apply _to_int_unnumbered.
           ++ now intros ->.
           ++ now intros ->.
           ++ exact Hw1.
        -- cbn in Hraw, Hit. destruct (Hall i raw' it Hraw Hit) as (H1 & H2).
           split; [|exact H2]. intros Hu. rewrite (H1 Hu). f_equal. lia.
Qed.

(** [normalize_condition_checks] raises exactly when the weight of some
    check is an [int] too large for [float] (the one conversion outside
    its [try] blocks), and then with OverflowError.  Otherwise it
    returns one item per check, in order; a check whose [condition] is
    missing, [None] or a truth value is numbered by its position,
    counted from 1, and a missing [is_required], [passed] or [weight]
    becomes [True], [False] and 1.0. *)
Theorem normalize_condition_checks_raises_exactly (P : py_numbers)
  (checks : list raw_check) :
  if existsb overflowing checks
  then normalize_condition_checks P checks
       = Raise (OverflowError (lit "int too large to convert to float"))
  else exists items,
         normalize_condition_checks P checks = Ok items
         /\ List.length items = List.length checks
         /\ forall i raw it,
              nth_error checks i = Some raw ->
              nth_error items i = Some it ->
              (unnumbered raw = true -> condition it = Z.of_nat (S i))
              /\ (f_is_required raw = None -> is_required it = true)
              /\ (f_passed raw = None -> passed it = false)
              /\ (f_weight raw = None -> weight it = 1%Q).
Proof.
  unfold normalize_condition_checks.
  exact (normalize_from_answers P checks 1).
Qed.

End CondUtilsFacts.

(* ================================================================== *)
(** * Properties of the condition stage *)
(* ================================================================== *)

Module OrchestratorFacts.

Import Num Dict Scores ScoresTerms Feedback CondUtils Orchestrator.

Lemma base_at_some (rule gpt : list check_dump) (i : nat) :
  i < Nat.max (List.length rule) (List.length gpt) <->
  exists d, base_at rule gpt i = Some d.
Proof.
  unfold base_at. split.
  - intros Hi. destruct (nth_error rule i) as [r|] eqn:Hr; [eauto|].
    apply nth_error_None in Hr.
    destruct (nth_error gpt i) as [g|] eqn:Hg; [eauto|].
    apply nth_error_None in Hg. lia.
  - intros [d Hd]. destruct (nth_error rule i) as [r|] eqn:Hr.
    + assert (i < List.length rule) by (apply nth_error_Some; congruence).
      lia.
    + assert (i < List.length gpt) by (apply nth_error_Some; congruence).
      lia.
Qed.

(** The merged check of a condition that some checker answered,
    normalised. *)
Lemma normalize_merge (P : py_numbers) (rule gpt : list check_dump)
  (raws : list raw_condition) (l : list nat) :
  Forall (fun i => i < Nat.max (List.length rule) (List.length gpt)) l ->
  forall idx,
  exists items,
    normalize_from P idx (List.map (merge_at P rule gpt raws) l) = Ok items
    /\ List.map to_cond_dict items
       = List.map (verdict_dict P rule gpt raws) l.
Proof.
  induction 1 as [|i l Hi _ IH]; intros idx.
  - exists []. split; reflexivity.
  - destruct (IH (S idx)) as (items & Hn & Hm).
    cbn [List.map normalize_from]. cbv zeta.
    set (ml := List.map (merge_at P rule gpt raws) l) in *.
    set (vl := List.map (verdict_dict P rule gpt raws) l) in *.
    clearbody ml vl.
    apply base_at_some in Hi as [d Hd].
    unfold verdict_dict at 1. unfold required_at, both_passed.
    rewrite Hd. unfold base_at in Hd. unfold merge_at.
    destruct (nth_error rule i) as [r|], (nth_error gpt i) as [g|];
      try discriminate Hd; injection Hd as <-;
      cbn [with_verdict with_defaults dict_of setdefault f_weight f_passed
           f_is_required _get_field _to_float truth rbind];
      rewrite Hn; cbn [rbind]; eexists; (split; [reflexivity|]);
      cbn [List.map]; rewrite Hm; unfold to_cond_dict;
      cbn [CondUtils.is_required CondUtils.passed CondUtils.weight];
      rewrite ?andb_true_r; reflexivity.
Qed.

(** The score distribution leaves the flags of the items alone. *)
Lemma bump_keeps_required (gap : Q) (out : list cond_dict) :
  forall out',
    bump_first_passed gap out = Some out' ->
    all_required_ok out' = all_required_ok out.
Proof.
  induction out as [|it out IH]; intros out' H; cbn [bump_first_passed] in H;
    [discriminate H|].
  destruct (is_passed it).
  - injection H as <-. reflexivity.
  - destruct (bump_first_passed gap out) as [rest|]; [|discriminate H].
    injection H as <-. unfold all_required_ok in *. cbn [forallb].
    now rewrite (IH rest eq_refl).
Qed.

Lemma all_required_ok_own_share (pu : Q) (items : list cond_dict) :
  all_required_ok (List.map (own_share pu) items) = all_required_ok items.
Proof.
  unfold all_required_ok. induction items as [|it items IH];
    [reflexivity|].
  cbn [List.map forallb]. now rewrite IH.
Qed.

Lemma all_required_ok_distribute (items : list cond_dict) (T : Q) :
  all_required_ok (fst (distribute_condition_scores items T))
  = all_required_ok items
  /\ List.length (fst (distribute_condition_scores items T))
     = List.length items.
Proof.
  destruct items as [|it0 items0]; [split; reflexivity|].
  unfold distribute_condition_scores. cbv beta iota.
  set (items := it0 :: items0).
  pose proof (ScoresFacts.allocate_fst (per_unit items T) items 0) as Hf.
  destruct (allocate (per_unit items T) items 0) as [out e].
  cbn [fst] in Hf. subst out. cbv beta iota zeta.
  assert (Hlen : forall gap out',
            bump_first_passed gap (List.map (own_share (per_unit items T)) items)
            = Some out' ->
            List.length out' = List.length items).
  { intros gap. generalize (per_unit items T). intros pu.
    clear. induction items as [|it items IH]; intros out' H;
      cbn [List.map bump_first_passed] in H; [discriminate H|].
    destruct (is_passed (own_share pu it)).
    - injection H as <-. cbn [List.length]. now rewrite length_map.
    - destruct (bump_first_passed gap (List.map (own_share pu) items))
        as [rest|]; [|discriminate H].
      injection H as <-. cbn [List.length]. now rewrite (IH rest eq_refl). }
  destruct (Qle_bool (1 # 100) (Qabs (round2 (T - e)))).
  - destruct (bump_first_passed (round2 (T - e))
                (List.map (own_share (per_unit items T)) items))
      as [out'|] eqn:Hb; cbn [fst].
    + rewrite (bump_keeps_required _ _ Hb), (Hlen _ _ Hb).
      split; [apply all_required_ok_own_share | reflexivity].
    + split; [apply all_required_ok_own_share | apply length_map].
  - cbn [fst]. split; [apply all_required_ok_own_share | apply length_map].
Qed.

Lemma condition_stage_eval (P : py_numbers)
  (rule gpt : list check_dump) (raws : list raw_condition)
  (points pct max_points : Q) (fb by_ : str) :
  exists o,
    condition_stage P rule gpt raws points pct max_points fb by_ = Ok o
    /\ List.length (condition_results o)
       = Nat.max (List.length rule) (List.length gpt)
    /\ (all_status o = success
        <-> forall i, i < Nat.max (List.length rule) (List.length gpt) ->
              required_at rule gpt i = true ->
              both_passed rule gpt i = true).
Proof.
  unfold condition_stage, normalize_condition_checks, merge.
  set (n := Nat.max (List.length rule) (List.length gpt)).
  assert (Hl : Forall (fun i => i < n) (seq 0 n)).
  { apply Forall_forall. intros i Hi. apply in_seq in Hi. lia. }
  destruct (normalize_merge P rule gpt raws Hl 1) as (items & Hn & Hm).
  rewrite Hn. cbn [rbind]. rewrite Hm.
  set (ds := List.map (verdict_dict P rule gpt raws) (seq 0 n)).
  destruct (all_required_ok_distribute ds points) as [Hok Hlen].
  destruct (distribute_condition_scores ds points) as [scored earned].
  cbn [fst] in Hok, Hlen. eexists. split; [reflexivity|].
  cbn [generate_for_problem_type condition_results all_status Dict.get].
  split.
  - rewrite Hlen. unfold ds. now rewrite length_map, length_seq.
  - rewrite Hok.
    assert (Hs : (if all_required_ok ds then success else fail) = success
                 <-> all_required_ok ds = true)
      by (destruct (all_required_ok ds); split; congruence).
    rewrite Hs, FeedbackProofs.all_required_ok_spec. unfold ds. split.
    + intros H i Hi Hreq.
      apply (H (verdict_dict P rule gpt raws i)); [|exact Hreq].
      apply in_map, in_seq. lia.
    + intros H it Hin Hreq. apply in_map_iff in Hin as (i & <- & Hi).
      apply in_seq in Hi. apply H; [lia | exact Hreq].
Qed.

(** The condition stage always returns, with one condition result per
    index that either checker answered, and its all_status is success
    exactly when every required condition was passed by every checker
    that answered it: by the rule-based check and by the language
    model. *)
Theorem condition_stage_requires_both_checkers (P : py_numbers)
  (rule_checks gpt_checks : list check_dump) (raws : list raw_condition)
  (condition_points pct max_points : Q) (fb by_ : str) :
  exists o,
    condition_stage P rule_checks gpt_checks raws condition_points pct
      max_points fb by_ = Ok o
    /\ List.length (condition_results o)
       = Nat.max (List.length rule_checks) (List.length gpt_checks)
    /\ (all_status o = success
        <-> forall i d,
              base_at rule_checks gpt_checks i = Some d ->
              cd_is_required d = true ->
              (forall r, nth_error rule_checks i = Some r ->
                         cd_passed r = true)
              /\ (forall g, nth_error gpt_checks i = Some g ->
                            cd_passed g = true)).
Proof.
  destruct (condition_stage_eval P rule_checks gpt_checks raws
              condition_points pct max_points fb by_)
    as (o & Ho & Hlen & Hst).
  exists o. split; [exact Ho|]. split; [exact Hlen|].
  rewrite Hst. split.
  - intros H i d Hd Hreq.
    assert (Hi : i < Nat.max (List.length rule_checks)
                       (List.length gpt_checks))
      by (apply base_at_some; eauto).
    specialize (H i Hi). unfold required_at in H. rewrite Hd in H.
    specialize (H Hreq). unfold both_passed in H.
    apply andb_true_iff in H as [H1 H2].
    split; intros x Hx; rewrite Hx in *; assumption.
  - intros H i Hi Hreq. apply base_at_some in Hi as [d Hd].
    unfold required_at in Hreq. rewrite Hd in Hreq.
    destruct (H i d Hd Hreq) as [H1 H2]. unfold both_passed.
    apply andb_true_iff. split.
    + destruct (nth_error rule_checks i) as [r|]; [now apply H1 | reflexivity].
    + destruct (nth_error gpt_checks i) as [g|]; [now apply H2 | reflexivity].
Qed.


(** A required condition that the rule-based check passed and the
    language model did not: the stage reports fail with the answer of
    the model and success without it. *)
Example semantic_veto_example :
  List.map
    (fun gpt =>
       match condition_stage digits_only [dump "uses a loop" true true] gpt
               [RText (lit "uses a loop")] 10 100 100 [] [] with
       | Ok o => Some (all_status o)
       | Raise _ => None
       end)
    [[dump "uses a loop" true false]; []]
  = [Some fail; Some success].
Proof. vm_compute. reflexivity. Qed.

End OrchestratorFacts.

(* ================================================================== *)
(** * Properties of the rating mode and of the earlier grader *)
(* ================================================================== *)

Module ModesFacts.

Import Judge JudgeTerms RatingModes ShortAnswers.
Import NormalizeProofs JudgeFacts.

(** ** Lower case and white space *)

Ltac settle_ranges :=
  repeat match goal with
  | |- context [(?a <=? ?b)%N] =>
      first [ replace (a <=? b)%N with false
                by (symmetry; apply N.leb_gt; lia)
            | replace (a <=? b)%N with true
                by (symmetry; apply N.leb_le; lia) ]
  | |- context [(?a =? ?b)%N] =>
      replace (a =? b)%N with false by (symmetry; apply N.eqb_neq; lia)
  end.

Lemma isspace_letter (x : char) :
  (65 <= x <= 122)%N -> isspace x = false.
Proof.
  intros H. unfold isspace, in_range. settle_ranges. reflexivity.
Qed.

Lemma isspace_lower_char (ch : char) :
  isspace (Checker.lower_char ch) = isspace ch.
Proof.
  unfold Checker.lower_char. destruct (in_range 65%N 90%N ch) eqn:H;
    [|reflexivity].
  unfold in_range in H. apply andb_true_iff in H as [H1 H2].
  apply N.leb_le in H1. apply N.leb_le in H2.
  rewrite !isspace_letter; [reflexivity | lia | lia].
Qed.

Lemma lower_char_idem (ch : char) :
  Checker.lower_char (Checker.lower_char ch) = Checker.lower_char ch.
Proof.
  unfold Checker.lower_char. destruct (in_range 65%N 90%N ch) eqn:H.
  - unfold in_range in H |- *. apply andb_true_iff in H as [H1 H2].
    apply N.leb_le in H1. apply N.leb_le in H2.
    settle_ranges. reflexivity.
  - now rewrite H.
Qed.

Lemma lower_idem (s : str) :
  Checker.lower (Checker.lower s) = Checker.lower s.
Proof.
  unfold Checker.lower. rewrite map_map. apply map_ext.
  intros ch. apply lower_char_idem.
Qed.

Lemma lower_lstrip (s : str) :
  lstrip (Checker.lower s) = Checker.lower (lstrip s).
Proof.
  unfold lstrip, Checker.lower. induction s as [|ch s IH]; [reflexivity|].
  cbn [List.map dropWhile]. rewrite isspace_lower_char.
  destruct (isspace ch); [exact IH | reflexivity].
Qed.

Lemma lower_rstrip (s : str) :
  rstrip (Checker.lower s) = Checker.lower (rstrip s).
Proof.
  unfold Checker.lower. induction s as [|ch s IH]; [reflexivity|].
  cbn [List.map rstrip]. rewrite IH, isspace_lower_char.
  destruct (rstrip s); cbn [List.map]; [|reflexivity].
  now destruct (isspace ch).
Qed.

Lemma lower_strip (s : str) :
  strip (Checker.lower s) = Checker.lower (strip s).
Proof. unfold strip. now rewrite lower_lstrip, lower_rstrip. Qed.

Lemma lower_nil (s : str) : Checker.lower s = [] <-> s = [].
Proof. destruct s; split; intros H; try reflexivity; discriminate H. Qed.

(** ** The rating mode of a coding problem *)

Lemma _map_rating_mode_some (s : str) :
  s <> [] ->
  _map_rating_mode (Some s)
  = let val := Checker.lower (strip s) in
    if str_eqb val (lit "hard") then RunnerRatingMode.HARD
    else if str_eqb val (lit "space") then RunnerRatingMode.SPACE
    else if str_eqb val (lit "regex") then RunnerRatingMode.REGEX
    else RunnerRatingMode.NONE.
Proof.
  intros Hne. unfold _map_rating_mode. destruct s; [now contradiction Hne|].
  cbv zeta. now destruct (str_eqb _ (lit "none")).
Qed.

Lemma _map_rating_mode_blank (s : str) :
  strip s = [] -> _map_rating_mode (Some s) = RunnerRatingMode.NONE.
Proof.
  intros Hs. unfold _map_rating_mode. destruct s; [reflexivity|].
  cbv zeta. rewrite Hs. reflexivity.
Qed.

Lemma _map_rating_mode_strip (s : str) :
  _map_rating_mode (Some (strip s)) = _map_rating_mode (Some s).
Proof.
  destruct (strip s) as [|ch r] eqn:Hs.
  - rewrite (@_map_rating_mode_blank s Hs). reflexivity.
  - rewrite <- Hs.
    rewrite !_map_rating_mode_some.
    + cbv zeta. now rewrite CondUtilsFacts.strip_idem.
    + intros ->. discriminate Hs.
    + rewrite Hs. discriminate.
Qed.

Lemma _map_rating_mode_lower (s : str) :
  _map_rating_mode (Some (Checker.lower s)) = _map_rating_mode (Some s).
Proof.
  destruct s as [|ch r]; [reflexivity|].
  rewrite !_map_rating_mode_some by discriminate.
  cbv zeta. now rewrite lower_strip, lower_idem.
Qed.

(** When no test case of a coding problem has an expected output that
    is not empty, the rating mode is NONE whatever mode was asked for.
    Otherwise the mode asked for is read without regard to case and to
    white space around it, and anything but "hard", "space" and
    "regex" (no mode at all included) gives NONE. *)
Theorem no_expected_output_forces_none (expected : list (option str))
  (requested : str) (w1 w2 : str) :
  (Forall (fun e => or_empty e = []) expected ->
   forall m, _decide_rating_mode_for_coding expected m
             = RunnerRatingMode.NONE)
  /\ (blank w1 = true -> blank w2 = true ->
      _decide_rating_mode_for_coding expected (Some (w1 ++ requested ++ w2))
      = _decide_rating_mode_for_coding expected (Some requested))
  /\ _decide_rating_mode_for_coding expected (Some (Checker.lower requested))
     = _decide_rating_mode_for_coding expected (Some requested)
  /\ _decide_rating_mode_for_coding expected None = RunnerRatingMode.NONE
  /\ (_decide_rating_mode_for_coding expected (Some requested)
      <> RunnerRatingMode.NONE ->
      In (Checker.lower (strip requested))
        [lit "hard"; lit "space"; lit "regex"]
      /\ exists e, In (Some e) expected /\ e <> []).
Proof.
  unfold _decide_rating_mode_for_coding. split; [|split; [|split; [|split]]].
  - intros Hall m.
    assert (H : existsb (fun e => negb (str_eqb (or_empty e) [])) expected
                = false).
    { induction Hall as [|e l He _ IH]; [reflexivity|].
      cbn [existsb]. now rewrite He, IH. }
    now rewrite H.
  - intros H1 H2. destruct (existsb _ expected); [|reflexivity].
    transitivity (_map_rating_mode (Some (strip (w1 ++ requested ++ w2))));
      [symmetry; apply _map_rating_mode_strip|].
    replace (strip (w1 ++ requested ++ w2)) with (strip requested);
      [apply _map_rating_mode_strip|].
    symmetry. etransitivity;
      [apply (@strip_blank_l w1 _ H1) | apply (@strip_blank_r _ w2 H2)].
  - destruct (existsb _ expected); [|reflexivity].
    apply _map_rating_mode_lower.
  - now destruct (existsb _ expected).
  - destruct (existsb _ expected) eqn:Hex; [|intros H; now contradiction H].
    intros Hm. split.
    + destruct requested as [|ch r]; [now contradiction Hm|].
      rewrite _map_rating_mode_some in Hm by discriminate. cbv zeta in Hm.
      destruct (str_eqb _ (lit "hard")) eqn:Hh.
      { apply JudgeProofs.str_eqb_eq in Hh. rewrite Hh. now left. }
      destruct (str_eqb _ (lit "space")) eqn:Hsp.
      { apply JudgeProofs.str_eqb_eq in Hsp. rewrite Hsp. right. now left. }
      destruct (str_eqb _ (lit "regex")) eqn:Hr.
      { apply JudgeProofs.str_eqb_eq in Hr. rewrite Hr. right. right.
        now left. }
      now contradiction Hm.
    + apply existsb_exists in Hex as (e & Hin & He).
      destruct e as [e|]; [|discriminate He].
      exists e. split; [exact Hin|]. intros ->. discriminate He.
Qed.

(** ** Short answers in the earlier grader *)

Lemma normal_strip (s : str) : normal s -> strip s = s.
Proof. intros (_ & _ & _ & _ & Hl & Hr). unfold strip. now rewrite Hl, Hr. Qed.

(** In the earlier grader, a short answer in exact mode (and in every
    mode other than "none", "partial" and "soft") is correct exactly
    when SPACE mode of the output judge accepts it against one of the
    expected answers; the score is 100 then and 0 otherwise. *)
Theorem earlier_exact_short_answer_is_space_mode
  (ratio : str -> str -> Q) (answer_text : option str) (answers : list str)
  (rating_mode : str) :
  str_eqb (Checker.lower rating_mode) (lit "none") = false ->
  str_eqb (Checker.lower rating_mode) (lit "partial") = false ->
  str_eqb (Checker.lower rating_mode) (lit "soft") = false ->
  _grade_short_answer ratio answer_text answers rating_mode
  = (existsb (fun ans => compare_space answer_text (Some ans)) answers,
     if existsb (fun ans => compare_space answer_text (Some ans)) answers
     then 100%Q else 0%Q).
Proof.
  intros Hn Hp Hs. unfold _grade_short_answer. cbv zeta.
  rewrite Hn, Hp, Hs.
  destruct answers as [|a0 rest]; [reflexivity|].
  assert (Hm : forall ans,
            (if str_eqb (Checker.lower rating_mode) (lit "exact")
             then fun ans0 =>
                    compare_hard
                      (Some (normalize_space
                               (Some (strip (or_empty answer_text)))))
                      (Some (normalize_space (Some ans0)))
             else fun ans0 =>
                    compare_hard
                      (Some (normalize_space
                               (Some (strip (or_empty answer_text)))))
                      (Some (normalize_space (Some ans0)))) ans
            = compare_space answer_text (Some ans)).
  { intros ans.
    assert (He : compare_hard
                   (Some (normalize_space
                            (Some (strip (or_empty answer_text)))))
                   (Some (normalize_space (Some ans)))
                 = compare_space answer_text (Some ans)).
    { unfold compare_hard, compare_space. cbn [or_empty].
      rewrite (@normal_strip (normalize_space (Some ans))
                 (normalize_space_normal _)).
      rewrite (@normal_strip
                 (normalize_space (Some (strip (or_empty answer_text))))
                 (normalize_space_normal _)).
      rewrite normalize_space_strip. now destruct answer_text. }
    now destruct (str_eqb (Checker.lower rating_mode) (lit "exact")). }
  rewrite (GraderFacts.existsb_ext _ _ (a0 :: rest) Hm). reflexivity.
Qed.

(** The answer [f (x)] against the expected answers [g(x)] and
    [f(x)]. *)
Lemma earlier_exact_short_answer_is_space_mode_witness :
  _grade_short_answer (fun _ _ => 0%Q) (Some (lit " f (x)"))
    [lit "g(x)"; lit "f(x)"] (lit "EXACT")
  = (existsb (fun ans => compare_space (Some (lit " f (x)")) (Some ans))
       [lit "g(x)"; lit "f(x)"],
     if existsb (fun ans => compare_space (Some (lit " f (x)")) (Some ans))
          [lit "g(x)"; lit "f(x)"]
     then 100%Q else 0%Q).
Proof.
  apply (@earlier_exact_short_answer_is_space_mode (fun _ _ => 0%Q)
           (Some (lit " f (x)")) [lit "g(x)"; lit "f(x)"] (lit "EXACT"));
    reflexivity.
Defined.

End ModesFacts.
